(** * AzurLanel2d: a shallow embedding of the mirroring scripts

    The three scripts of the repository ([1model.new.py], [1model.py] and
    [2audio.py]) are embedded function by function.  Python strings are
    sequences of characters ([string]); [os.path] is the POSIX flavour
    ([posixpath]); the network and the file system are an explicit world
    that every effectful function threads through. *)

From stdpp Require Import base option list strings gmap sets.
From Stdlib Require Import Ascii String ZArith Lia.

Local Open Scope string_scope.
Local Open Scope list_scope.

#[local] Arguments String.append !_ _ : simpl nomatch.

(** ** Python [str] operations *)

Module Str.

Definition eqb_ascii (a b : ascii) : bool := Ascii.eqb a b.

(** [s.startswith(p)] *)
Fixpoint startswith (s p : string) {struct p} : bool :=
  match p with
  | EmptyString => true
  | String b p' =>
      match s with
      | EmptyString => false
      | String a s' => Ascii.eqb a b && startswith s' p'
      end
  end.

Fixpoint rev_acc (s acc : string) : string :=
  match s with
  | EmptyString => acc
  | String a s' => rev_acc s' (String a acc)
  end.

Definition rev (s : string) : string := rev_acc s EmptyString.

(** [s.endswith(p)] *)
Definition endswith (s p : string) : bool := startswith (rev s) (rev p).

(** [p in s] for strings *)
Fixpoint contains (s p : string) : bool :=
  startswith s p ||
  match s with
  | EmptyString => false
  | String _ s' => contains s' p
  end.

(** [s[n:]] *)
Fixpoint drop (n : nat) (s : string) : string :=
  match n, s with
  | O, _ => s
  | S _, EmptyString => EmptyString
  | S k, String _ s' => drop k s'
  end.

(** [s[:n]] *)
Fixpoint take (n : nat) (s : string) : string :=
  match n, s with
  | O, _ => EmptyString
  | S _, EmptyString => EmptyString
  | S k, String a s' => String a (take k s')
  end.

(** [s.split(sep)] for a non-empty separator: the text is scanned from
    the left, each occurrence of [sep] closes the current piece, and the
    scan resumes after the occurrence ([skip] counts the characters of
    the occurrence still to be passed over). *)
Fixpoint split_aux (sep : string) (skip : nat) (s : string) : list string :=
  match s with
  | EmptyString => [EmptyString]
  | String a s' =>
      match skip with
      | S k => split_aux sep k s'
      | O =>
          if startswith s sep
          then EmptyString :: split_aux sep (String.length sep - 1) s'
          else match split_aux sep 0 s' with
               | p :: ps => String a p :: ps
               | [] => [String a EmptyString]
               end
      end
  end.

Definition split (s sep : string) : list string := split_aux sep 0 s.

(** [s.replace(old, new)] for a non-empty [old]: non-overlapping
    occurrences, leftmost first.  For an empty [old] Python puts [new]
    before every character and at the end. *)
Fixpoint replace_aux (old new : string) (skip : nat) (s : string) : string :=
  match s with
  | EmptyString => EmptyString
  | String a s' =>
      match skip with
      | S k => replace_aux old new k s'
      | O =>
          if startswith s old
          then new +:+ replace_aux old new (String.length old - 1) s'
          else String a (replace_aux old new 0 s')
      end
  end.

Fixpoint intersperse (new s : string) : string :=
  match s with
  | EmptyString => new
  | String a s' => new +:+ String a (intersperse new s')
  end.

Definition replace (s old new : string) : string :=
  match old with
  | EmptyString => intersperse new s
  | _ => replace_aux old new 0 s
  end.

(** [sep.join(l)] *)
Fixpoint join (sep : string) (l : list string) : string :=
  match l with
  | [] => EmptyString
  | [x] => x
  | x :: l' => x +:+ sep +:+ join sep l'
  end.

(** [s.lower()] on the ASCII letters; every other character is kept. *)
Definition lower_ascii (a : ascii) : ascii :=
  let n := nat_of_ascii a in
  if (65 <=? n)%nat && (n <=? 90)%nat then ascii_of_nat (n + 32) else a.

Fixpoint lower (s : string) : string :=
  match s with
  | EmptyString => EmptyString
  | String a s' => String (lower_ascii a) (lower s')
  end.

Fixpoint all_chars (P : ascii -> bool) (s : string) : bool :=
  match s with
  | EmptyString => true
  | String a s' => P a && all_chars P s'
  end.

Fixpoint map_chars (f : ascii -> ascii) (s : string) : string :=
  match s with
  | EmptyString => EmptyString
  | String a s' => String (f a) (map_chars f s')
  end.

Definition is_empty (s : string) : bool :=
  match s with EmptyString => true | _ => false end.

(** [s.lstrip(c)] for a single character *)
Fixpoint lstrip (c : ascii) (s : string) : string :=
  match s with
  | String a s' => if Ascii.eqb a c then lstrip c s' else s
  | EmptyString => EmptyString
  end.

End Str.

(** ** [posixpath] *)

Module Posix.

Definition sep : string := "/".

(** One step of [os.path.join(a, *p)]. *)
Definition join2 (path b : string) : string :=
  if Str.startswith b sep then b
  else if Str.is_empty path || Str.endswith path sep then path +:+ b
  else path +:+ sep +:+ b.

Definition join (a : string) (p : list string) : string :=
  fold_left join2 p a.

(** The loop body of [normpath]. *)
Definition norm_step (initial_slashes : nat) (new_comps : list string)
    (comp : string) : list string :=
  if String.eqb comp "" || String.eqb comp "." then new_comps
  else if negb (String.eqb comp "..")
          || (Nat.eqb initial_slashes 0 && bool_decide (new_comps = []))
          || (negb (bool_decide (new_comps = []))
              && String.eqb (List.last new_comps "") "..")
       then new_comps ++ [comp]
       else removelast new_comps.

Definition initial_slashes (path : string) : nat :=
  if Str.startswith path sep then
    if Str.startswith path "//" && negb (Str.startswith path "///")
    then 2 else 1
  else 0.

Definition norm_comps (path : string) : list string :=
  fold_left (norm_step (initial_slashes path)) (Str.split path sep) [].

Definition or_dot (path : string) : string :=
  if Str.is_empty path then "." else path.

(** [sep * n] *)
Fixpoint times (n : nat) (s : string) : string :=
  match n with
  | O => EmptyString
  | S k => s +:+ times k s
  end.

Definition render (slashes : nat) (comps : list string) : string :=
  or_dot (times slashes sep +:+ Str.join sep comps).

(** [os.path.normpath] *)
Definition normpath (path : string) : string :=
  if Str.is_empty path then "."
  else render (initial_slashes path) (norm_comps path).

(** [head, tail = p[:i], p[i:]] with [i = p.rfind(sep) + 1] *)
Fixpoint cut_last_sep (p : string) : string * string :=
  match p with
  | EmptyString => (EmptyString, EmptyString)
  | String a p' =>
      let '(h, t) := cut_last_sep p' in
      if negb (Str.is_empty h) then (String a h, t)
      else if Ascii.eqb a "/" then (String a EmptyString, t)
      else (EmptyString, String a t)
  end.

(** [s.rstrip(sep)] *)
Definition rstrip_sep (s : string) : string :=
  Str.rev (Str.lstrip "/" (Str.rev s)).

(** [os.path.basename] *)
Definition basename (p : string) : string := snd (cut_last_sep p).

(** [os.path.dirname] *)
Definition dirname (p : string) : string :=
  let head := fst (cut_last_sep p) in
  if negb (Str.is_empty head)
     && negb (Str.all_chars (fun a => Ascii.eqb a "/") head)
  then rstrip_sep head else head.

End Posix.

(** ** The path sanitizer of [1model.new.py] *)

(** The character class of [invalid_chars]: backslash, colon, star,
    question mark, double quote, the angle brackets and the bar. *)
Definition invalid_char (a : ascii) : bool :=
  Ascii.eqb a "\" || Ascii.eqb a ":" || Ascii.eqb a "*" || Ascii.eqb a "?"
  || Ascii.eqb a (ascii_of_nat 34) || Ascii.eqb a "<" || Ascii.eqb a ">"
  || Ascii.eqb a "|".

(** [re.sub(invalid_chars, "_", p)] *)
Definition sub_invalid (p : string) : string :=
  Str.map_chars (fun a => if invalid_char a then "_"%char else a) p.

(** [rel_path.split("://")[-1]] when ["://" in rel_path] *)
Definition strip_scheme (rel_path : string) : string :=
  if Str.contains rel_path "://"
  then List.last (Str.split rel_path "://") EmptyString
  else rel_path.

(** [[re.sub(invalid_chars, "_", p) for p in parts if p]] *)
Definition clean_parts (rel_path : string) : list string :=
  let parts := Str.split (Str.replace rel_path "\" "/") "/" in
  map sub_invalid (filter (fun p => negb (Str.is_empty p) = true) parts).

Definition safe_path_join (base rel_path : string) : string :=
  Posix.normpath (Posix.join base (clean_parts (strip_scheme rel_path))).

(** What "strictly beneath the base directory" means for the returned
    path: same kind of root, the components of the normalised base are a
    proper prefix of the components of the path, and what follows the
    prefix never climbs with a [..] component. *)
Definition components (p : string) : list string :=
  filter (fun c => negb (String.eqb c "" || String.eqb c ".") = true)
         (Str.split p "/").

Fixpoint list_startswith (l pre : list string) {struct pre} : bool :=
  match pre, l with
  | [], _ => true
  | _ :: _, [] => false
  | x :: pre', y :: l' => String.eqb x y && list_startswith l' pre'
  end.

Definition strictly_beneath (base p : string) : bool :=
  let b := components (Posix.normpath base) in
  let q := components p in
  Nat.eqb (Posix.initial_slashes (Posix.normpath base)) (Posix.initial_slashes p)
  && list_startswith q b
  && (List.length b <? List.length q)%nat
  && forallb (fun c => negb (String.eqb c "..")) (drop (List.length b) q).

Definition legal_chars (p : string) : bool :=
  Str.all_chars (fun a => negb (invalid_char a)) p.

(** ** Parsed JSON documents *)

(** What [json.load] returns: [None], [bool], numbers (by their literal),
    [str], [list] and [dict].  A [dict] keeps its keys in insertion
    order; its keys are distinct. *)
#[local] Unset Elimination Schemes.
Inductive json : Type :=
| JNull
| JBool (b : bool)
| JNum (literal : string)
| JStr (s : string)
| JArr (items : list json)
| JObj (fields : list (string * json)).
#[local] Set Elimination Schemes.

(** The string leaves of a document: strings reached through list items
    and dict values (dict keys are not values). *)
Inductive string_leaf : json -> string -> Prop :=
| leaf_str (s : string) : string_leaf (JStr s) s
| leaf_arr (l : list json) (v : json) (s : string) :
    In v l -> string_leaf v s -> string_leaf (JArr l) s
| leaf_obj (kvs : list (string * json)) (k : string) (v : json) (s : string) :
    In (k, v) kvs -> string_leaf v s -> string_leaf (JObj kvs) s.

(** ** The generic asset extractor of [1model.new.py] *)

Definition exts : list string :=
  [".moc3"; ".model3.json"; ".json"; ".png"; ".wav"; ".mp3"].

(** [any(obj.lower().endswith(e) for e in exts)] *)
Definition is_asset (obj : string) : bool :=
  existsb (fun e => Str.endswith (Str.lower obj) e) exts.

(** [_walk(obj)], with the set [found] it adds to passed along. *)
Fixpoint _walk (obj : json) (found : gset string) {struct obj} : gset string :=
  match obj with
  | JStr s => if is_asset s then {[ s ]} ∪ found else found
  | JObj kvs =>
      (fix values (kvs : list (string * json)) (found : gset string) :=
         match kvs with
         | [] => found
         | (_, v) :: rest => values rest (_walk v found)
         end) kvs found
  | JArr l =>
      (fix items (l : list json) (found : gset string) :=
         match l with
         | [] => found
         | i :: rest => items rest (_walk i found)
         end) l found
  | _ => found
  end.

Definition extract_assets (data : json) : gset string := _walk data ∅.

(** ** Fetch tasks of one model ([process_model] of [1model.new.py]) *)

Record task := Task { task_rel : string; task_url : string; task_local : string }.

Section ModelTasks.

(** [urllib.parse.urljoin] *)
Variable urljoin : string -> string -> string.

(** The tasks submitted to the executor for the descriptor [data] stored
    at [local_path] and fetched from [url]; the set is walked in the
    order of [elements]. *)
Definition model_tasks (data : json) (local_path url : string) : list task :=
  let base_url := Posix.dirname url +:+ "/" in
  let local_dir := Posix.dirname local_path in
  map (fun rel => Task rel (urljoin base_url rel) (safe_path_join local_dir rel))
      (filter (fun rel => Posix.basename rel <> Posix.basename local_path)
              (elements (extract_assets data))).

End ModelTasks.

(** ** The world: network and file system *)

(** The exceptions of [requests] the scripts tell apart.  [OtherRequest]
    stands for the [RequestException]s that are neither a timeout nor a
    connection error (an interrupted chunked body, too many redirects). *)
Inductive net_error := Timeout | ConnectionError | OtherRequest.

(** What one [session.get(..., stream=True)] gives: an exception before
    any response, or a response with a status and a body that arrives in
    chunks and either ends or breaks with an exception. *)
Inductive get_outcome :=
| GetRaises (e : net_error)
| GetResponse (status : Z) (chunks : list string) (broken : option net_error).

(** The [Content-Length] header as [int(...)] sees it. *)
Inductive content_length :=
| LengthAbsent
| LengthMalformed
| LengthInt (n : Z).

Inductive head_outcome :=
| HeadRaises
| HeadResponse (status : Z) (len : content_length).

(** The remote side: the answer to a probe of a URL and to the [n]-th
    transfer attempt of a URL within one call of the fetcher. *)
Record network := Network {
  net_head : string -> head_outcome;
  net_get : string -> nat -> get_outcome
}.

(** What a run does to its surroundings, in order. *)
Inductive event :=
| EvMakedirs (dir : string)
| EvHead (url : string)
| EvGet (url : string)
| EvSleep (seconds : Z)
| EvOpenW (path : string)
| EvWrite (path chunk : string)
| EvRemove (path : string)
| EvRename (src dst : string)
| EvCopy (src dst : string).

(** The content of every file, the paths that cannot be created or opened
    for writing, the working directory, and the events so far (latest
    last). *)
Record world := World {
  fs : gmap string string;
  unwritable : string -> bool;
  cwd : string;
  trace : list event
}.

Definition emit (e : event) (w : world) : world :=
  World (fs w) (unwritable w) (cwd w) (trace w ++ [e]).

Definition set_fs (f : gmap string string) (w : world) : world :=
  World f (unwritable w) (cwd w) (trace w).

(** The effect of one event on the files. *)
Definition apply_event (f : gmap string string) (e : event) : gmap string string :=
  match e with
  | EvOpenW p => <[p := EmptyString]> f
  | EvWrite p chunk =>
      match f !! p with
      | Some old => <[p := old +:+ chunk]> f
      | None => f
      end
  | EvRemove p => delete p f
  | EvRename src dst =>
      match f !! src with
      | Some c => <[dst := c]> (delete src f)
      | None => f
      end
  | EvCopy src dst =>
      match f !! src with
      | Some c => <[dst := c]> f
      | None => f
      end
  | _ => f
  end.

(** An event happens: the files change and the event is recorded. *)
Definition perform (e : event) (w : world) : world :=
  emit e (set_fs (apply_event (fs w) e) w).

(** [os.path.exists] and [os.path.getsize] *)
Definition path_exists (w : world) (p : string) : bool :=
  bool_decide (is_Some (fs w !! p)).

Definition getsize (w : world) (p : string) : Z :=
  match fs w !! p with
  | Some c => Z.of_nat (String.length c)
  | None => 0
  end.

(** [os.path.abspath] *)
Definition abspath (w : world) (p : string) : string :=
  Posix.normpath (Posix.join (cwd w) [p]).

(** [os.makedirs(local_dir, exist_ok=True)] when [local_dir] is not
    empty: [None] when it raises. *)
Definition makedirs (local_dir : string) (w : world) : option world :=
  if Str.is_empty local_dir then Some w
  else if unwritable w local_dir then None
  else Some (emit (EvMakedirs local_dir) w).

(** [for chunk in response.iter_content(...): if chunk: f.write(chunk)]
    ([skip_empty]) or [f.write(chunk)] for every chunk. *)
Fixpoint write_chunks (skip_empty : bool) (path : string) (chunks : list string)
    (w : world) : world :=
  match chunks with
  | [] => w
  | chunk :: rest =>
      write_chunks skip_empty path rest
        (if skip_empty && Str.is_empty chunk then w
         else perform (EvWrite path chunk) w)
  end.

(** [response.raise_for_status()] raises for the statuses 400 to 599. *)
Definition raises_for_status (status : Z) : bool :=
  ((400 <=? status) && (status <? 600))%Z.

(** How one pass through the body of a retry loop ends: the function
    returns, or the pass is over and the loop goes on. *)
Inductive attempt_result := Returned (ok : bool) | Failed.

(** ** The fetcher of [1model.new.py] *)

Module New.

Definition MAX_RETRIES : nat := 5.
Definition RETRY_DELAY : Z := 5.

Section Fetcher.

Variable net : network.

(** [urlunparse(p._replace(path=quote(p.path)))] *)
Variable encode_url : string -> string.

(** The [try] block of one pass of the loop; [Failed] is an exception
    caught by [except (RequestException, IOError)]. *)
Definition attempt (url local_filepath : string) (n : nat) (w : world)
  : attempt_result * world :=
  let encoded_url := encode_url url in
  let w := perform (EvGet encoded_url) w in
  match net_get net encoded_url n with
  | GetRaises _ => (Failed, w)
  | GetResponse status chunks broken =>
      if (status =? 404)%Z then (Returned false, w)
      else if raises_for_status status then (Failed, w)
      else
        let tmp_path := local_filepath +:+ ".tmp" in
        if unwritable w tmp_path then (Failed, w)
        else
          let w := perform (EvOpenW tmp_path) w in
          let w := write_chunks true tmp_path chunks w in
          match broken with
          | Some _ => (Failed, w)
          | None =>
              if unwritable w local_filepath then (Failed, w)
              else
                let w := if path_exists w local_filepath
                         then perform (EvRemove local_filepath) w
                         else w in
                let w := perform (EvRename tmp_path local_filepath) w in
                (Returned true, w)
          end
  end.

(** [for attempt in range(MAX_RETRIES)], from pass [n] on with
    [remaining] passes to go. *)
Fixpoint retry (url local_filepath : string) (n remaining : nat) (w : world)
  : bool * world :=
  match remaining with
  | O => (false, w)
  | S k =>
      match attempt url local_filepath n w with
      | (Returned ok, w) => (ok, w)
      | (Failed, w) =>
          if (n <? MAX_RETRIES - 1)%nat
          then retry url local_filepath (S n) k
                 (perform (EvSleep (RETRY_DELAY * (Z.of_nat n + 1))) w)
          else retry url local_filepath (S n) k w
      end
  end.

(** The probe of the remote size. *)
Definition probe (url : string) (force : bool) (w : world) : Z * world :=
  if force then ((-1)%Z, w)
  else
    let w := perform (EvHead url) w in
    match net_head net url with
    | HeadResponse status len =>
        if (status =? 200)%Z then
          match len with
          | LengthInt n => (n, w)
          | LengthAbsent => ((-1)%Z, w)
          | LengthMalformed => ((-1)%Z, w)
          end
        else ((-1)%Z, w)
    | HeadRaises => ((-1)%Z, w)
    end.

(** [local_filepath] once normalised and, when longer than 250
    characters, made absolute behind the extended-length prefix. *)
Definition local_path_of (w : world) (local_filepath : string) : string :=
  let local_filepath := Posix.normpath local_filepath in
  if (250 <? String.length local_filepath)%nat
  then "\\?\" +:+ abspath w local_filepath
  else local_filepath.

Definition download_file (url local_filepath : string) (force : bool)
    (w : world) : bool * world :=
  let local_dir := Posix.dirname (Posix.normpath local_filepath) in
  let local_filepath := local_path_of w local_filepath in
  match makedirs local_dir w with
  | None => (false, w)
  | Some w =>
      let '(remote_size, w) := probe url force w in
      if negb force && path_exists w local_filepath
         && negb (remote_size =? -1)%Z
         && (getsize w local_filepath =? remote_size)%Z
      then (true, w)
      else retry url local_filepath 0 MAX_RETRIES w
  end.

End Fetcher.

End New.

(** ** The fetcher of [1model.py] *)

Module Old.

Definition MAX_RETRIES : nat := 5.
Definition RETRY_DELAY : Z := 10.

Section Fetcher.

Variable net : network.

(** One pass of the loop: [Failed] when the pass ends in one of the
    [except] clauses that fall through to the wait. *)
Definition attempt (url local_filepath : string) (n : nat) (w : world)
  : attempt_result * world :=
  let w := perform (EvGet url) w in
  match net_get net url n with
  | GetRaises Timeout | GetRaises ConnectionError => (Failed, w)
  | GetRaises OtherRequest => (Returned false, w)
  | GetResponse status chunks broken =>
      if raises_for_status status then
        if ((400 <=? status) && (status <? 500))%Z
        then (Returned false, w)
        else (Failed, w)
      else if unwritable w local_filepath then (Returned false, w)
      else
        let w := perform (EvOpenW local_filepath) w in
        let w := write_chunks false local_filepath chunks w in
        match broken with
        | None => (Returned true, w)
        | Some Timeout | Some ConnectionError => (Failed, w)
        | Some OtherRequest => (Returned false, w)
        end
  end.

Fixpoint retry (url local_filepath : string) (n remaining : nat) (w : world)
  : bool * world :=
  match remaining with
  | O => (false, w)
  | S k =>
      match attempt url local_filepath n w with
      | (Returned ok, w) => (ok, w)
      | (Failed, w) =>
          if (n <? MAX_RETRIES - 1)%nat
          then retry url local_filepath (S n) k
                 (perform (EvSleep RETRY_DELAY) w)
          else retry url local_filepath (S n) k w
      end
  end.

Definition download_file (url local_filepath : string) (w : world)
  : bool * world :=
  let local_dir := Posix.dirname local_filepath in
  match makedirs local_dir w with
  | None => (false, w)
  | Some w => retry url local_filepath 0 MAX_RETRIES w
  end.

End Fetcher.

End Old.

(** ** The fetcher of [2audio.py] *)

Module Audio.

Section Fetcher.

Variable net : network.

(** A single attempt; every [RequestException] and [IOError] gives
    [False]. *)
Definition download_file (url local_filepath : string) (w : world)
  : bool * world :=
  let local_dir := Posix.dirname local_filepath in
  match makedirs local_dir w with
  | None => (false, w)
  | Some w =>
      let w := perform (EvGet url) w in
      match net_get net url 0 with
      | GetRaises _ => (false, w)
      | GetResponse status chunks broken =>
          if raises_for_status status then (false, w)
          else if unwritable w local_filepath then (false, w)
          else
            let w := perform (EvOpenW local_filepath) w in
            let w := write_chunks false local_filepath chunks w in
            match broken with
            | None => (true, w)
            | Some _ => (false, w)
            end
      end
  end.

End Fetcher.

End Audio.

(** ** Reading a trace *)

(** The files after the events [es]. *)
Definition replay (es : list event) (f : gmap string string) : gmap string string :=
  fold_left apply_event es f.

(** The events a step from [w] to [w'] added. *)
Definition events_since (w w' : world) : list event :=
  drop (List.length (trace w)) (trace w').

Definition is_get (e : event) : bool :=
  match e with EvGet _ => true | _ => false end.

(** The number of transfers started. *)
Definition gets (es : list event) : nat :=
  List.length (List.filter is_get es).

(** The waits, in order. *)
Fixpoint sleeps (es : list event) : list Z :=
  match es with
  | [] => []
  | EvSleep d :: rest => d :: sleeps rest
  | _ :: rest => sleeps rest
  end.

Definition nosep (s : string) : bool :=
  Str.all_chars (fun a => negb (Ascii.eqb a "/")) s.

(** A plain segment: non-empty and without a separator. *)
Definition plain (c : string) : Prop := c <> "" /\ nosep c = true.

(** A component that survives normalisation. *)
Definition comp_ok (c : string) : Prop := plain c /\ c <> ".".

(** The world [w] after the events [es]. *)
Definition extends (w : world) (es : list event) : world :=
  World (replay es (fs w)) (unwritable w) (cwd w) (trace w ++ es).

(** The events of [write_chunks]. *)
Definition write_events (skip_empty : bool) (path : string)
    (chunks : list string) : list event :=
  map (EvWrite path)
      (List.filter (fun c => negb (skip_empty && Str.is_empty c)) chunks).

(** ** Vocabulary of the fetcher's properties *)

(** A transfer attempt that ends in a network-level error or in a
    server-side (5xx) status. *)
Definition transient (o : get_outcome) : Prop :=
  match o with
  | GetRaises Timeout | GetRaises ConnectionError => True
  | GetRaises OtherRequest => False
  | GetResponse status _ _ => (500 <= status < 600)%Z
  end.

(** A transfer attempt answered with a client-side (4xx) status. *)
Definition client_error (o : get_outcome) : Prop :=
  match o with
  | GetRaises _ => False
  | GetResponse status _ _ => (400 <= status < 500)%Z
  end.

(** The local file is there and the probe reports its very size. *)
Definition size_match (net : network) (url : string) (w : world)
    (path : string) : Prop :=
  path_exists w path = true
  /\ exists n, net_head net url = HeadResponse 200 (LengthInt n)
            /\ n <> (-1)%Z /\ getsize w path = n.

(** The events of [k] failed passes of a retry loop from pass [n] on: a
    transfer, then the wait [delay n] unless the pass is the last of
    the budget. *)
Fixpoint failed_passes (u : string) (budget : nat) (delay : nat -> Z)
    (n k : nat) : list event :=
  match k with
  | O => []
  | S k' =>
      EvGet u
      :: (if (n <? budget - 1)%nat then [EvSleep (delay n)] else [])
      ++ failed_passes u budget delay (S n) k'
  end.

(** The bytes of a body received as [chunks]. *)
Definition body_of (chunks : list string) : string :=
  fold_right String.append EmptyString chunks.

(** The content of a body that arrived in full at some attempt. *)
Definition complete_body (net : network) (u : string) (c : string) : Prop :=
  exists n status chunks,
    net_get net u n = GetResponse status chunks None
    /\ c = body_of chunks.

(** The temp-file discipline on the destination [p]: contents are only
    written to the sibling [p.tmp], and [p] itself is only removed or made
    by renaming [p.tmp]. *)
Definition disciplined (p : string) (e : event) : Prop :=
  match e with
  | EvOpenW q | EvWrite q _ => q = p +:+ ".tmp"
  | EvRemove q => q = p
  | EvRename src dst => src = p +:+ ".tmp" /\ dst = p
  | EvCopy _ _ => False
  | EvMakedirs _ | EvHead _ | EvGet _ | EvSleep _ => True
  end.

(** A world to run the examples in: no file yet, every path writable. *)
Definition empty_world : world := World ∅ (fun _ => false) "/srv/mirror" [].

(** The file at [dest] is as it was at first, or absent, or holds a body
    that arrived in full. *)
Definition never_partial (net : network) (u : string)
    (f0 : gmap string string) (dest : string) (f : gmap string string) : Prop :=
  f !! dest = f0 !! dest
  \/ f !! dest = None
  \/ exists c, f !! dest = Some c /\ complete_body net u c.

(** [P] holds of the files after every prefix of the events [es]. *)
Definition always (P : gmap string string -> Prop) (es : list event)
    (f0 : gmap string string) : Prop :=
  forall k : nat, P (replay (take k es) f0).

(** Events that neither start a transfer, nor wait, nor touch a file. *)
Definition quiet_event (e : event) : Prop :=
  match e with
  | EvMakedirs _ | EvHead _ => True
  | _ => False
  end.

Definition quiet (es : list event) : Prop := Forall quiet_event es.

(** The wait before the retry that follows pass [n]. *)
Definition linear_delay (n : nat) : Z := New.RETRY_DELAY * (Z.of_nat n + 1).
Definition constant_delay (n : nat) : Z := Old.RETRY_DELAY.

(** Events that leave the file at [q] alone. *)
Definition leaves (q : string) (e : event) : Prop :=
  forall f, apply_event f e !! q = f !! q.

(** ** Example networks *)

(** Every transfer times out; the probe fails. *)
Definition net_down : network :=
  Network (fun _ => HeadRaises) (fun _ _ => GetRaises Timeout).

(** Every transfer is answered 403, with an empty body. *)
Definition net_403 : network :=
  Network (fun _ => HeadRaises) (fun _ _ => GetResponse 403 [] None).

(** A timeout, then a 503, then the body in two chunks. *)
Definition net_flaky : network :=
  Network (fun _ => HeadRaises)
          (fun _ n => match n with
                      | 0 => GetRaises Timeout
                      | 1 => GetResponse 503 [] None
                      | _ => GetResponse 200 ["abc"; "def"] None
                      end).

(** Every transfer delivers ["abc"] and then breaks. *)
Definition net_broken (e : net_error) : network :=
  Network (fun _ => HeadRaises) (fun _ _ => GetResponse 200 ["abc"] (Some e)).

(** The probe reports [n] bytes; a transfer would deliver ["12345"]. *)
Definition net_sized (n : Z) : network :=
  Network (fun _ => HeadResponse 200 (LengthInt n))
          (fun _ _ => GetResponse 200 ["12345"] None).

(** A world where [a.png] holds five bytes. *)
Definition mirrored_world : world :=
  World {[ "a.png" := "12345" ]} (fun _ => false) "/srv/mirror" [].

(** ** Example documents *)

(** A manifest with one character and two models. *)
Definition two_models : json :=
  JObj [("Master",
         JArr [JObj [("gameName", JStr "azurlane");
                     ("character",
                      JArr [JObj [("charName", JStr "A");
                                  ("live2d",
                                   JArr [JObj [("costumeName", JStr "x");
                                               ("path", JStr "https://static.l2d.su/live2d/a/a.model3.json")];
                                         JObj [("path", JStr "https://static.l2d.su/live2d/b/b.model3.json")]])]])]])].

(** A descriptor that lists the same texture twice and has no other
    section. *)
Definition textures_twice : json :=
  JObj [("Version", JNum "3");
        ("FileReferences",
         JObj [("Textures", JArr [JStr "tex/00.png"; JStr "tex/00.png"])])].

(** What a walk adds to [found]. *)
Definition walk_adds (obj : json) : Prop :=
  forall (found : gset string) (s : string),
    s ∈ _walk obj found <-> s ∈ found \/ (string_leaf obj s /\ is_asset s = true).

(** ** The manifest pattern *)

(** A backtracking matcher in the style of Python's [re]: every piece of
    the pattern takes the text left to match and what to do with the rest
    ([k]); a piece that can match in several ways tries them in the order
    of [re] and keeps the first for which [k] succeeds. *)
Module Re.

Section Pieces.

Context {R : Type}.

(** A literal text. *)
Definition lit (p : string) (s : string) (k : string -> option R) : option R :=
  if Str.startswith s p then k (Str.drop (String.length p) s) else None.

(** [.]: any character but a newline. *)
Definition any_char (s : string) (k : string -> option R) : option R :=
  match s with
  | String a s' => if Ascii.eqb a (ascii_of_nat 10) then None else k s'
  | EmptyString => None
  end.

(** [(...)?]: with the group first, then without. *)
Definition opt_greedy (m : string -> (string -> option R) -> option R)
    (s : string) (k : string -> option R) : option R :=
  match m s k with
  | Some r => Some r
  | None => k s
  end.

(** [.*?]: as few characters as possible. *)
Fixpoint lazy_any (s : string) (k : string -> option R) : option R :=
  match k s with
  | Some r => Some r
  | None =>
      match s with
      | String a s' =>
          if Ascii.eqb a (ascii_of_nat 10) then None else lazy_any s' k
      | EmptyString => None
      end
  end.

(** [[...]*]: as many characters of the class as possible. *)
Fixpoint star_greedy (cls : ascii -> bool) (s : string)
    (k : string -> option R) : option R :=
  match s with
  | String a s' =>
      if cls a then
        match star_greedy cls s' k with
        | Some r => Some r
        | None => k s
        end
      else k s
  | EmptyString => k s
  end.

(** [[...]+] *)
Definition plus_greedy (cls : ascii -> bool) (s : string)
    (k : string -> option R) : option R :=
  match s with
  | String a s' => if cls a then star_greedy cls s' k else None
  | EmptyString => None
  end.

End Pieces.

(** [[a-zA-Z0-9]] *)
Definition alnum (a : ascii) : bool :=
  let n := nat_of_ascii a in
  ((97 <=? n) && (n <=? 122) || (65 <=? n) && (n <=? 90)
   || (48 <=? n) && (n <=? 57))%nat.

(** The text between two positions, each given by what is left to match
    from it. *)
Definition between (from upto : string) : string :=
  Str.take (String.length from - String.length upto) from.

(** A match object: where it starts, and [group(0)] to [group(3)]. *)
Record re_match := Match {
  m_start : nat;
  group0 : string;
  group1 : option string;
  group2 : string;
  group3 : string
}.

(** ['(./json/)?(live2dMaster.*?\.json)\?([a-zA-Z0-9]+)'] matched at the
    start of [s0]. *)
Definition match_at (start : nat) (s0 : string) : option re_match :=
  lit "'" s0 (fun s1 =>
  opt_greedy (fun s k => any_char s (fun s' => lit "/json/" s' k)) s1 (fun s2 =>
  lit "live2dMaster" s2 (fun s3 =>
  lazy_any s3 (fun s4 =>
  lit ".json" s4 (fun s5 =>
  lit "?" s5 (fun s6 =>
  plus_greedy alnum s6 (fun s7 =>
  lit "'" s7 (fun s8 =>
    Some (Match start (between s0 s8)
            (if (String.length s1 =? String.length s2)%nat then None
             else Some (between s1 s2))
            (between s2 s5) (between s6 s7)))))))))).

(** [re.search]: the first position, from the left, with a match. *)
Fixpoint search_from (start : nat) (s : string) : option re_match :=
  match match_at start s with
  | Some m => Some m
  | None =>
      match s with
      | String _ s' => search_from (S start) s'
      | EmptyString => None
      end
  end.

Definition search (s : string) : option re_match := search_from 0 s.

End Re.

(** ** The manifest resolver ([main] of both model scripts) *)

Definition TARGET_SUBDIR : string := "json".

(** What [main] derives from the text of the bootstrap script, when the
    pattern matches. *)
Record resolved := Resolved {
  json_name : string;
  version : string;
  master_local : string;
  new_js_content : string
}.

Definition resolve (js_txt : string) : option resolved :=
  match Re.search js_txt with
  | None => None
  | Some m =>
      let json_name := Re.group2 m in
      let version := Re.group3 m in
      let master_local :=
        Posix.join TARGET_SUBDIR ["live2dMaster" +:+ version +:+ ".json"] in
      let new_js_content :=
        Str.replace js_txt (Re.group0 m)
          ("'" +:+ TARGET_SUBDIR +:+ "/live2dMaster" +:+ version +:+ ".json'") in
      Some (Resolved json_name version master_local new_js_content)
  end.

(** ** Vocabulary of the resolver's properties *)

Definition newline : ascii := ascii_of_nat 10.

Definition no_newline (s : string) : bool :=
  Str.all_chars (fun a => negb (Ascii.eqb a newline)) s.

(** A version token: one or more ASCII letters or digits. *)
Definition is_version (v : string) : Prop :=
  v <> "" /\ Str.all_chars Re.alnum v = true.

(** The optional prefix of the quoted path: nothing, or one character
    followed by [/json/]. *)
Definition is_prefix_group (g1 : string) : Prop :=
  g1 = "" \/ exists c, c <> newline /\ g1 = String c "/json/".

(** [frag] is a quoted [live2dMaster<name>.json?<ver>], with the optional
    prefix [g1]. *)
Definition shaped (frag g1 name ver : string) : Prop :=
  frag = "'" +:+ g1 +:+ "live2dMaster" +:+ name +:+ ".json" +:+ "?"
         +:+ ver +:+ "'"
  /\ is_prefix_group g1 /\ no_newline name = true /\ is_version ver.

(** The pattern matches at the start of [s]. *)
Definition matches_at (s : string) : Prop :=
  exists frag g1 name ver rest, s = frag +:+ rest /\ shaped frag g1 name ver.

(** The offsets of [s], counted from [n], at which the pattern matches. *)
Fixpoint match_offsets (n : nat) (s : string) : list nat :=
  (match Re.match_at n s with Some _ => [n] | None => [] end)
  ++ match s with
     | String _ s' => match_offsets (S n) s'
     | EmptyString => []
     end.

(** The pattern matches in [js] at offset [n], and nowhere else. *)
Definition only_match_at (js : string) (n : nat) : Prop :=
  matches_at (Str.drop n js)
  /\ forall q, matches_at (Str.drop q js) -> q = n.

(** ** Python dictionaries and dynamic typing *)

(** A [dict] as the list of its items in insertion order. *)
Module Dict.

Definition t : Type := list (string * json).

(** [d.get(k)] / [d[k]] *)
Fixpoint get (k : string) (d : t) : option json :=
  match d with
  | [] => None
  | (k', v) :: rest => if String.eqb k k' then Some v else get k rest
  end.

(** [k in d] *)
Definition has (k : string) (d : t) : bool :=
  match get k d with Some _ => true | None => false end.

(** [d[k] = v]: the value of an existing key is replaced in place, a new
    key goes last. *)
Fixpoint set (k : string) (v : json) (d : t) : t :=
  match d with
  | [] => [(k, v)]
  | (k', v') :: rest =>
      if String.eqb k k' then (k', v) :: rest else (k', v') :: set k v rest
  end.

(** What is left after [del d[k]]: the item of key [k] goes (the keys of
    a dict are distinct, so there is at most one). *)
Fixpoint remove (k : string) (d : t) : t :=
  match d with
  | [] => []
  | (k', v') :: rest =>
      if String.eqb k k' then remove k rest else (k', v') :: remove k rest
  end.

(** [del d[k]]: [None] is the [KeyError]. *)
Definition del (k : string) (d : t) : option t :=
  if has k d then Some (remove k d) else None.

End Dict.

(** Operations on values whose type is only known at run time; [None] is
    the [TypeError], [AttributeError] or [KeyError] that Python raises. *)
Module Py.

(** [o.get(k, default)]: only a [dict] has [get]. *)
Definition get (o : json) (k : string) (default : json) : option json :=
  match o with
  | JObj d => Some (match Dict.get k d with Some v => v | None => default end)
  | _ => None
  end.

(** [o[k]] for a string [k] *)
Definition index (o : json) (k : string) : option json :=
  match o with
  | JObj d => Dict.get k d
  | _ => None
  end.

Fixpoint chars (s : string) : list json :=
  match s with
  | EmptyString => []
  | String a s' => JStr (String a EmptyString) :: chars s'
  end.

(** [for x in o]: the items of a list, the keys of a dict, the characters
    of a string. *)
Definition iter (o : json) : option (list json) :=
  match o with
  | JArr l => Some l
  | JObj d => Some (map (fun kv => JStr (fst kv)) d)
  | JStr s => Some (chars s)
  | _ => None
  end.

Definition is_str (k : string) (v : json) : bool :=
  match v with JStr s => String.eqb s k | _ => false end.

(** [k in o] for a string [k] *)
Definition contains (k : string) (o : json) : option bool :=
  match o with
  | JObj d => Some (Dict.has k d)
  | JArr l => Some (existsb (is_str k) l)
  | JStr s => Some (Str.contains s k)
  | _ => None
  end.

(** A number literal denotes zero when its mantissa has no digit other
    than 0. *)
Fixpoint zero_literal (s : string) : bool :=
  match s with
  | EmptyString => true
  | String a s' =>
      if Ascii.eqb a "e" || Ascii.eqb a "E" then true
      else (Ascii.eqb a "0" || Ascii.eqb a "-" || Ascii.eqb a ".")
           && zero_literal s'
  end.

(** [bool(o)] *)
Definition truthy (o : json) : bool :=
  match o with
  | JNull => false
  | JBool b => b
  | JNum n => negb (zero_literal n)
  | JStr s => negb (Str.is_empty s)
  | JArr l => match l with [] => false | _ => true end
  | JObj d => match d with [] => false | _ => true end
  end.

End Py.

(** ** Model entries of the manifest, by position *)

(** The entry [data["Master"][gi]["character"][ci]["live2d"][li]]. *)
Record addr := Addr { a_game : nat; a_char : nat; a_item : nat }.

#[global] Instance addr_eq_dec : EqDecision addr.
Proof. solve_decision. Defined.

Definition obj_get (k : string) (o : json) : option json :=
  match o with JObj d => Dict.get k d | _ => None end.

Definition arr_get (i : nat) (o : json) : option json :=
  match o with JArr l => l !! i | _ => None end.

Fixpoint dict_alter (k : string) (f : json -> json) (d : Dict.t) : Dict.t :=
  match d with
  | [] => []
  | (k', v) :: rest =>
      if String.eqb k k' then (k', f v) :: rest
      else (k', v) :: dict_alter k f rest
  end.

Definition obj_alter (k : string) (f : json -> json) (o : json) : json :=
  match o with JObj d => JObj (dict_alter k f d) | _ => o end.

Definition arr_alter (i : nat) (f : json -> json) (o : json) : json :=
  match o with JArr l => JArr (alter f i l) | _ => o end.

(** The object a reference kept in [models] points to. *)
Definition get_entry (a : addr) (data : json) : option json :=
  m ← obj_get "Master" data;
  g ← arr_get (a_game a) m;
  c ← obj_get "character" g;
  ch ← arr_get (a_char a) c;
  l ← obj_get "live2d" ch;
  arr_get (a_item a) l.

(** A change made through such a reference shows in the document. *)
Definition alter_entry (f : json -> json) (a : addr) (data : json) : json :=
  obj_alter "Master"
    (arr_alter (a_game a)
       (obj_alter "character"
          (arr_alter (a_char a)
             (obj_alter "live2d" (arr_alter (a_item a) f))))) data.

(** [m[k] = v] on the object a reference points to. *)
Definition set_field (k : string) (v : json) (o : json) : json :=
  match o with JObj d => JObj (Dict.set k v d) | _ => o end.

(** ** Collecting the models (the three nested loops of both scripts) *)

(** [for l in ...: if "path" in l: models.append(l)], from item [li] on. *)
Fixpoint collect_items (gi ci li : nat) (items : list json)
  : option (list addr) :=
  match items with
  | [] => Some []
  | l :: rest =>
      b ← Py.contains "path" l;
      more ← collect_items gi ci (S li) rest;
      Some (if b : bool then Addr gi ci li :: more else more)
  end.

Fixpoint collect_chars (gi ci : nat) (chars : list json) : option (list addr) :=
  match chars with
  | [] => Some []
  | c :: rest =>
      live2d ← Py.get c "live2d" (JArr []);
      items ← Py.iter live2d;
      here ← collect_items gi ci 0 items;
      more ← collect_chars gi (S ci) rest;
      Some (here ++ more)
  end.

Fixpoint collect_games (gi : nat) (games : list json) : option (list addr) :=
  match games with
  | [] => Some []
  | g :: rest =>
      character ← Py.get g "character" (JArr []);
      chars ← Py.iter character;
      here ← collect_chars gi 0 chars;
      more ← collect_games (S gi) rest;
      Some (here ++ more)
  end.

Definition collect_models (master_data : json) : option (list addr) :=
  master ← Py.get master_data "Master" (JArr []);
  games ← Py.iter master;
  collect_games 0 games.

(** ** The orchestrator of [1model.new.py] *)

Definition INDEX_JS_URL : string := "https://l2d.su/json/index.js".
Definition BASE_URL : string := "https://l2d.su/json/".
Definition STATIC_HOST : string := "https://static.l2d.su/".
Definition FINAL_INDEX_JS_NAME : string := "index.js".

(** What the loop over the models did for one model: the reference, the
    remote and local path of its descriptor, whether the descriptor was
    fetched, and the dependent fetches submitted. *)
Record report := Report {
  r_addr : addr;
  r_url : string;
  r_local : string;
  r_ok : bool;
  r_tasks : list task
}.

(** ** Effects and exceptions *)

(** A computation on the world that returns a value or raises an exception
    nothing catches ([None]); the world is the one reached either way. *)
Definition io (A : Type) : Type := world -> option A * world.

Definition io_ret {A : Type} (a : A) : io A := fun w => (Some a, w).

Definition io_raise {A : Type} : io A := fun w => (None, w).

Definition io_bind {A B : Type} (m : io A) (k : A -> io B) : io B :=
  fun w =>
    match m w with
    | (Some a, w') => k a w'
    | (None, w') => (None, w')
    end.

(** A value that has to be there: [None] raises. *)
Definition io_must {A : Type} (o : option A) : io A :=
  match o with
  | Some a => io_ret a
  | None => io_raise
  end.

(** A function that returns a value and a new world and never raises. *)
Definition io_total {A : Type} (f : world -> A * world) : io A :=
  fun w => let '(a, w') := f w in (Some a, w').

Definition io_read {A : Type} (f : world -> A) : io A :=
  fun w => (Some (f w), w).

(** [try: m finally: cleanup] *)
Definition io_finally {A : Type} (m : io A) (cleanup : world -> world) : io A :=
  fun w => let '(r, w') := m w in (r, cleanup w').

Declare Scope io_scope.
Delimit Scope io_scope with io.
Notation "x <~ m ;; k" := (io_bind m (fun x => k))
  (at level 100, m at next level, right associativity) : io_scope.

Definition as_str (v : json) : option string :=
  match v with JStr s => Some s | _ => None end.

(** [with open(path, "w") as f: f.write(text)] *)
Definition write_text (path text : string) : io unit :=
  fun w =>
    if unwritable w path then (None, w)
    else (Some tt, perform (EvWrite path text) (perform (EvOpenW path) w)).

(** [if os.path.exists(p): os.remove(p)] *)
Definition remove_if_exists (p : string) (w : world) : world :=
  if path_exists w p then perform (EvRemove p) w else w.

(** [with open(path) as f: json.load(f)], with the exception left to the
    caller. *)
Definition read_json (json_loads : string -> option json) (path : string)
  : io json :=
  fun w => (fs w !! path ≫= json_loads, w).

(** [os.makedirs(d, exist_ok=True)] *)
Definition io_makedirs (d : string) : io unit :=
  fun w => match makedirs d w with
           | Some w' => (Some tt, w')
           | None => (None, w)
           end.

Module NewMain.

Section Orchestrator.

Local Open Scope io_scope.

Variable net : network.
Variable encode_url : string -> string.
Variable urljoin : string -> string -> string.

(** [json.load] and [json.dump] on the text of a file. *)
Variable json_loads : string -> option json.
Variable json_dumps : json -> string.

(** [TEMP_INDEX_JS_NAME], which holds the time of the start. *)
Variable TEMP_INDEX_JS_NAME : string.

Definition download_file (url local_filepath : string) (force : bool)
  : io bool :=
  io_total (New.download_file net encode_url url local_filepath force).

(** The tasks of [process_model] run one after the other, each with
    [force] left at [False]; what they return is not looked at and what
    they raise is dropped. *)
Fixpoint run_tasks (tasks : list task) (w : world) : world :=
  match tasks with
  | [] => w
  | t :: rest =>
      run_tasks rest
        (snd (New.download_file net encode_url (task_url t) (task_local t)
                false w))
  end.

Definition process_model (local_path url : string) : io (list task) :=
  fun w =>
    match fs w !! local_path ≫= json_loads with
    | None => (Some [], w)
    | Some data =>
        let tasks := model_tasks urljoin data local_path url in
        (Some tasks, run_tasks tasks w)
    end.

(** [rel] of a model whose [path] is [url]. *)
Definition rel_of (url : string) : string :=
  if Str.startswith url STATIC_HOST
  then Str.drop (String.length STATIC_HOST) url
  else List.last (Str.split url "://") EmptyString.

(** One pass of [for i, m in enumerate(models)]. *)
Definition step (a : addr) (st : json * list report) : io (json * list report) :=
  let '(data, reports) := st in
  m <~ io_must (get_entry a data) ;;
  path <~ io_must (Py.index m "path") ;;
  url <~ io_must (as_str path) ;;
  let rel := rel_of url in
  let local := safe_path_join "" rel in
  ok <~ download_file url local false ;;
  if ok : bool then
    let data := alter_entry (set_field "path" (JStr (Str.replace rel "\" "/")))
                  a data in
    tasks <~ process_model local url ;;
    io_ret (data, reports ++ [Report a url local true tasks])
  else io_ret (data, reports ++ [Report a url local false []]).

Fixpoint loop (models : list addr) (st : json * list report)
  : io (json * list report) :=
  match models with
  | [] => io_ret st
  | a :: rest => st <~ step a st ;; loop rest st
  end.

(** From the parsed manifest to the manifest written back. *)
Definition sync_models (master_local : string) (master_data : json)
  : io (json * list report) :=
  models <~ io_must (collect_models master_data) ;;
  st <~ loop models (master_data, []) ;;
  _ <~ write_text master_local (json_dumps (fst st)) ;;
  io_ret st.

(** [main]; the value is [None] when it returns before the models. *)
Definition main : io (option (json * list report)) :=
  _ <~ io_makedirs TARGET_SUBDIR ;;
  ok <~ download_file INDEX_JS_URL TEMP_INDEX_JS_NAME true ;;
  if negb ok then io_ret None
  else
    let cleanup := remove_if_exists TEMP_INDEX_JS_NAME in
    io_finally
      (js_txt <~ (fun w => (fs w !! TEMP_INDEX_JS_NAME, w)) ;;
       match resolve js_txt with
       | None => _ <~ io_total (fun w => (tt, cleanup w)) ;; io_ret None
       | Some r =>
           ok <~ download_file (urljoin BASE_URL (json_name r))
                   (master_local r) true ;;
           if negb ok
           then _ <~ io_total (fun w => (tt, cleanup w)) ;; io_ret None
           else
             _ <~ write_text (Posix.join TARGET_SUBDIR [FINAL_INDEX_JS_NAME])
                    (new_js_content r) ;;
             master_data <~ read_json json_loads (master_local r) ;;
             st <~ sync_models (master_local r) master_data ;;
             io_ret (Some st)
       end)
      cleanup.

(** What a report says happened, starting from the world [w]: the
    descriptor was fetched, and then the dependent tasks ran. *)
Definition effects_of (rep : report) (w : world) : world :=
  run_tasks (r_tasks rep)
    (snd (New.download_file net encode_url (r_url rep) (r_local rep) false w)).

Definition final_world (reports : list report) (w : world) : world :=
  fold_left (fun w rep => effects_of rep w) reports w.

(** The reports tell the truth: [r_ok] is what the fetch of the descriptor
    returned in the world of that moment, and nothing was submitted for a
    descriptor that was not fetched. *)
Fixpoint truthful (reports : list report) (w : world) : Prop :=
  match reports with
  | [] => True
  | rep :: rest =>
      r_ok rep
      = fst (New.download_file net encode_url (r_url rep) (r_local rep) false w)
      /\ (r_ok rep = false -> r_tasks rep = [])
      /\ truthful rest (effects_of rep w)
  end.

End Orchestrator.

End NewMain.

(** The entry a reference points to is a dict whose [path] is a string. *)
Definition has_url (data : json) (a : addr) : Prop :=
  exists d url, get_entry a data = Some (JObj d)
                /\ Dict.get "path" d = Some (JStr url).

(** ** The orchestrator of [1model.py] *)

Module OldMain.

Section Orchestrator.

Local Open Scope io_scope.

Variable net : network.
Variable urljoin : string -> string -> string.

(** [urllib.parse.urlparse(u).path] *)
Variable url_path : string -> string.

Variable json_loads : string -> option json.
Variable json_dumps : json -> string.

Definition download_file (url local_filepath : string) : io bool :=
  io_total (Old.download_file net url local_filepath).

(** [if x.get(k): asset_paths.append(x[k])] *)
Definition truthy_field (x : json) (k : string) : option (list json) :=
  v ← Py.get x k JNull;
  Some (if Py.truthy v then [v] else []).

(** [d.values()]: only a dict has it. *)
Definition values (o : json) : option (list json) :=
  match o with JObj d => Some (map snd d) | _ => None end.

(** The [File] of every item of a sequence, when it has one. *)
Fixpoint files_of (items : list json) : option (list json) :=
  match items with
  | [] => Some []
  | x :: rest =>
      here ← truthy_field x "File";
      more ← files_of rest;
      Some (here ++ more)
  end.

Fixpoint motion_files (groups : list json) : option (list json) :=
  match groups with
  | [] => Some []
  | group :: rest =>
      motions ← Py.iter group;
      here ← files_of motions;
      more ← motion_files rest;
      Some (here ++ more)
  end.

(** [asset_paths] of a descriptor whose [FileReferences] is [file_refs]. *)
Definition asset_paths (file_refs : json) : option (list json) :=
  moc ← truthy_field file_refs "Moc";
  physics ← truthy_field file_refs "Physics";
  pose ← truthy_field file_refs "Pose";
  textures_field ← Py.get file_refs "Textures" (JArr []);
  textures ← Py.iter textures_field;
  expressions_field ← Py.get file_refs "Expressions" (JArr []);
  expressions ← Py.iter expressions_field;
  expression_files ← files_of expressions;
  motions_field ← Py.get file_refs "Motions" (JObj []);
  groups ← values motions_field;
  motions ← motion_files groups;
  Some (moc ++ physics ++ pose ++ textures ++ expression_files ++ motions).

(** Only some values can be members of a [set]. *)
Definition hashable (v : json) : bool :=
  match v with JArr _ | JObj _ => false | _ => true end.

(** The members of [set(asset_paths)] that are strings. *)
Fixpoint strings_of (l : list json) : gset string :=
  match l with
  | [] => ∅
  | JStr s :: rest => {[ s ]} ∪ strings_of rest
  | _ :: rest => strings_of rest
  end.

Definition asset_task (model_local_path model_full_url rel : string) : task :=
  let model_base_url := Posix.dirname model_full_url +:+ "/" in
  let model_local_dir := Posix.dirname model_local_path in
  Task rel (urljoin model_base_url rel)
    (Posix.join model_local_dir (Str.split rel "/")).

Fixpoint run_tasks (tasks : list task) (w : world) : world :=
  match tasks with
  | [] => w
  | t :: rest =>
      run_tasks rest (snd (Old.download_file net (task_url t) (task_local t) w))
  end.

(** [process_model3_json]: the tasks it ran.  A descriptor of an
    unexpected shape raises; a member of the set that is not a string
    raises once the strings have been fetched. *)
Definition process_model3_json (model_local_path model_full_url : string)
  : io (list task) :=
  fun w =>
    match fs w !! model_local_path ≫= json_loads with
    | None => (Some [], w)
    | Some model_data =>
        match Py.get model_data "FileReferences" (JObj []) with
        | None => (None, w)
        | Some file_refs =>
            if negb (Py.truthy file_refs) then (Some [], w)
            else
              match asset_paths file_refs with
              | None => (None, w)
              | Some paths =>
                  if negb (forallb hashable paths) then (None, w)
                  else
                    let tasks :=
                      map (asset_task model_local_path model_full_url)
                          (elements (strings_of paths)) in
                    let w := run_tasks tasks w in
                    if forallb (fun v => match v with JStr _ => true
                                                   | _ => false end) paths
                    then (Some tasks, w)
                    else (None, w)
              end
        end
    end.

(** The character [data["Master"][gi]["character"][ci]]. *)
Definition get_char (a : addr) (data : json) : option json :=
  m ← obj_get "Master" data;
  g ← arr_get (a_game a) m;
  c ← obj_get "character" g;
  arr_get (a_char a) c.

(** The two display fields written into an entry that has a [path]. *)
Definition annotate (a : addr) (data : json) : option json :=
  character ← get_char a data;
  live2d_item ← get_entry a data;
  charName ← Py.get character "charName" (JStr "未知角色");
  match live2d_item with
  | JObj d =>
      let d := Dict.set "_charName" charName d in
      costumeName ← Py.get (JObj d) "costumeName" (JStr "默认");
      Some (alter_entry (fun _ => JObj (Dict.set "_costumeName" costumeName d))
              a data)
  | _ => None
  end.

Fixpoint annotate_all (path_list : list addr) (data : json) : option json :=
  match path_list with
  | [] => Some data
  | a :: rest => data ← annotate a data; annotate_all rest data
  end.

(** [relative_path] of a model whose [path] is [full_url]. *)
Definition relative_path_of (full_url : string) : string :=
  let relative_path :=
    if Str.startswith full_url STATIC_HOST
    then Str.drop (String.length STATIC_HOST) full_url
    else Str.lstrip "/" (url_path full_url) in
  Str.replace relative_path "\" "/".

(** [os.path.join] of the parts: the first is the base. *)
Definition join_parts (parts : list string) : string :=
  match parts with
  | [] => EmptyString
  | first :: rest => Posix.join first rest
  end.

(** One pass of [for i, live2d_item in enumerate(path_list)]. *)
Definition step (a : addr) (st : json * list report) : io (json * list report) :=
  let '(data, reports) := st in
  live2d_item <~ io_must (get_entry a data) ;;
  path <~ io_must (Py.index live2d_item "path") ;;
  full_url <~ io_must (as_str path) ;;
  let relative_path := relative_path_of full_url in
  let local_model_path := join_parts (Str.split relative_path "/") in
  ok <~ download_file full_url local_model_path ;;
  if ok : bool then
    let data := alter_entry
                  (set_field "path" (JStr (Str.replace relative_path "\" "/")))
                  a data in
    tasks <~ process_model3_json local_model_path full_url ;;
    io_ret (data, reports ++ [Report a full_url local_model_path true tasks])
  else
    io_ret (data, reports ++ [Report a full_url local_model_path false []]).

Fixpoint loop (path_list : list addr) (st : json * list report)
  : io (json * list report) :=
  match path_list with
  | [] => io_ret st
  | a :: rest => st <~ step a st ;; loop rest st
  end.

(** [del item["_charName"]; del item["_costumeName"]] *)
Definition strip (a : addr) (data : json) : option json :=
  item ← get_entry a data;
  match item with
  | JObj d =>
      d ← Dict.del "_charName" d;
      d ← Dict.del "_costumeName" d;
      Some (alter_entry (fun _ => JObj d) a data)
  | _ => None
  end.

Fixpoint strip_all (path_list : list addr) (data : json) : option json :=
  match path_list with
  | [] => Some data
  | a :: rest => data ← strip a data; strip_all rest data
  end.

(** [shutil.copyfile(src, dst)]: [false] when it raises. *)
Definition copyfile (src dst : string) (w : world) : bool * world :=
  if path_exists w src && negb (unwritable w dst)
  then (true, perform (EvCopy src dst) w)
  else (false, w).

(** The write at the end, inside its own [try]. *)
Definition persist (path : string) (data : json) (w : world) : world :=
  match write_text path (json_dumps data) w with
  | (_, w') => w'
  end.

(** [process_live2d_master_json]; the value is the document handed to
    [json.dump] and the reports of the loop, or [None] when the function
    returns before the models. *)
Definition process_live2d_master_json (master_json_path version_string : string)
  : io (option (json * list report)) :=
  let webversion_backup_path :=
    Posix.join TARGET_SUBDIR
      ["live2dMaster" +:+ version_string +:+ "webversion.json"] in
  copied <~ io_total (copyfile master_json_path webversion_backup_path) ;;
  if negb copied then io_ret None
  else
    loaded <~ io_read (fun w => fs w !! master_json_path ≫= json_loads) ;;
    match loaded with
    | None => io_ret None
    | Some data =>
        path_list <~ io_must (collect_models data) ;;
        data <~ io_must (annotate_all path_list data) ;;
        st <~ loop path_list (data, []) ;;
        data <~ io_must (strip_all path_list (fst st)) ;;
        _ <~ io_total (fun w => (tt, persist master_json_path data w)) ;;
        io_ret (Some (data, snd st))
    end.

End Orchestrator.

End OldMain.

(** ** Vocabulary of the orchestrators' properties *)

(** The entry a reference points to is a dict that carries the two
    display fields. *)
Definition annotated (data : json) (a : addr) : Prop :=
  exists d, get_entry a data = Some (JObj d)
            /\ Dict.has "_charName" d = true
            /\ Dict.has "_costumeName" d = true.

(** The entry a reference points to is a dict without display fields. *)
Definition stripped (data : json) (a : addr) : Prop :=
  exists d, get_entry a data = Some (JObj d)
            /\ Dict.has "_charName" d = false
            /\ Dict.has "_costumeName" d = false.

(** ** The audio pass of [2audio.py] *)

(** The longest common prefix of two lists of components
    ([os.path.commonprefix] on lists). *)
Fixpoint commonprefix (l1 l2 : list string) : list string :=
  match l1, l2 with
  | x :: l1', y :: l2' => if String.eqb x y then x :: commonprefix l1' l2' else []
  | _, _ => []
  end.

(** [[x for x in p.split(sep) if x]] *)
Definition nonempty_parts (p : string) : list string :=
  filter (fun x => negb (Str.is_empty x) = true) (Str.split p "/").

(** [os.path.relpath(path, start)] for a non-empty [path] *)
Definition relpath (w : world) (path start : string) : string :=
  let start_list := nonempty_parts (abspath w start) in
  let path_list := nonempty_parts (abspath w path) in
  let i := List.length (commonprefix start_list path_list) in
  let rel_list :=
    replicate (List.length start_list - i) ".." ++ drop i path_list in
  match rel_list with
  | [] => "."
  | first :: rest => Posix.join first rest
  end.

(** What the pass did for one motion that has an [Audio]. *)
Record audio_report := AudioReport {
  au_url : string;
  au_local : string;
  au_ok : bool
}.

Module AudioMain.

Section Pass.

Local Open Scope io_scope.

Variable net : network.
Variable json_loads : string -> option json.
Variable json_dumps : json -> string.

Definition download_file (url local_filepath : string) : io bool :=
  io_total (Audio.download_file net url local_filepath).

(** [local_audio_path] *)
Definition local_audio_path (model3_path audio_url : string) : string :=
  let audio_filename := Posix.basename audio_url in
  let audio_dir := Posix.join (Posix.dirname model3_path) ["audio"] in
  Str.replace (Posix.join audio_dir [audio_filename]) "\" "/".

(** The body of [for motion in motion_list]: the motion as it is left,
    and [audio_found]. *)
Definition process_motion (model3_path : string) (motion : json)
    (st : bool * list audio_report)
  : io (json * (bool * list audio_report)) :=
  let '(audio_found, reports) := st in
  has_audio <~ io_must (Py.contains "Audio" motion) ;;
  if has_audio : bool then
    audio <~ io_must (Py.index motion "Audio") ;;
    audio_url <~ io_must (as_str audio) ;;
    let local := local_audio_path model3_path audio_url in
    ok <~ download_file audio_url local ;;
    if ok : bool then
      rel <~ io_read (fun w => relpath w local (Posix.dirname model3_path)) ;;
      io_ret (set_field "Audio" (JStr (Str.replace rel "\" "/")) motion,
              (true, reports ++ [AudioReport audio_url local true]))
    else
      io_ret (motion, (audio_found, reports ++ [AudioReport audio_url local false]))
  else io_ret (motion, (audio_found, reports)).

Fixpoint process_list (model3_path : string) (motion_list : list json)
    (st : bool * list audio_report)
  : io (list json * (bool * list audio_report)) :=
  match motion_list with
  | [] => io_ret ([], st)
  | motion :: rest =>
      r <~ process_motion model3_path motion st ;;
      rs <~ process_list model3_path rest (snd r) ;;
      io_ret (fst r :: fst rs, snd rs)
  end.

(** One group of [motions.items()].  Only the items of a list can be
    written to; the keys of a dict and the characters of a string are
    looked at and, when they hold [Audio], raise. *)
Definition process_group (model3_path : string) (motion_list : json)
    (st : bool * list audio_report)
  : io (json * (bool * list audio_report)) :=
  items <~ io_must (Py.iter motion_list) ;;
  r <~ process_list model3_path items st ;;
  io_ret (match motion_list with JArr _ => JArr (fst r) | _ => motion_list end,
          snd r).

Fixpoint process_groups (model3_path : string) (groups : Dict.t)
    (st : bool * list audio_report)
  : io (Dict.t * (bool * list audio_report)) :=
  match groups with
  | [] => io_ret ([], st)
  | (group_name, motion_list) :: rest =>
      r <~ process_group model3_path motion_list st ;;
      rs <~ process_groups model3_path rest (snd r) ;;
      io_ret ((group_name, fst r) :: fst rs, snd rs)
  end.

(** [shutil.copyfile(src, dst)]: [SameFileError] when both name the same
    file, an [OSError] when [src] is missing or [dst] cannot be opened. *)
Definition copyfile (src dst : string) : io unit :=
  fun w =>
    if negb (String.eqb src dst) && path_exists w src
       && negb (unwritable w dst)
    then (Some tt, perform (EvCopy src dst) w)
    else (None, w).

Definition backup_path_of (model3_path version : string) : string :=
  Str.replace model3_path ".model3.json"
    (version +:+ "webversion.model3.json").

(** What is inside the [try] of [process_audio]: whether the descriptor
    was written back, and what happened to each [Audio]. *)
Definition body (model3_path version : string)
  : io (bool * list audio_report) :=
  _ <~ copyfile model3_path (backup_path_of model3_path version) ;;
  data <~ read_json json_loads model3_path ;;
  file_references <~ io_must (Py.get data "FileReferences" (JObj [])) ;;
  motions <~ io_must (Py.get file_references "Motions" (JObj [])) ;;
  if negb (Py.truthy motions) then io_ret (false, [])
  else
    groups <~ io_must (match motions with JObj d => Some d | _ => None end) ;;
    r <~ process_groups model3_path groups (false, []) ;;
    let '(groups, (audio_found, reports)) := r in
    if negb audio_found then io_ret (false, reports)
    else
      let data :=
        obj_alter "FileReferences"
          (obj_alter "Motions" (fun _ => JObj groups)) data in
      _ <~ write_text model3_path (json_dumps data) ;;
      io_ret (true, reports).

(** [process_audio]: every exception is caught and reported; the value
    tells whether the descriptor was written back. *)
Definition process_audio (model3_path version : string) (w : world)
  : bool * world :=
  match body model3_path version w with
  | (Some (written, _), w') => (written, w')
  | (None, w') => (false, w')
  end.

End Pass.

End AudioMain.

(** ** Vocabulary of the audio pass *)

(** Events that write nowhere but to files whose path satisfies [P]. *)
Definition writes_only (P : string -> Prop) (e : event) : Prop :=
  match e with
  | EvOpenW q | EvWrite q _ => P q
  | EvRemove _ | EvRename _ _ | EvCopy _ _ => False
  | EvMakedirs _ | EvHead _ | EvGet _ | EvSleep _ => True
  end.

(** The path of an audio file next to the descriptor [model3_path]. *)
Definition is_audio_path (model3_path q : string) : Prop :=
  exists audio_url, q = AudioMain.local_audio_path model3_path audio_url.

Definition no_backslash (s : string) : bool :=
  Str.all_chars (fun a => negb (Ascii.eqb a "\")) s.

(** What [.replace("\\", "/")] does to one character. *)
Definition to_slash (a : ascii) : ascii :=
  if Ascii.eqb a "\" then "/"%char else a.

Definition all_slashes (s : string) : bool :=
  Str.all_chars (fun a => Ascii.eqb a "/") s.

(** A file name that is neither empty, nor [.] or [..], and has no
    backslash. *)
Definition ordinary (name : string) : bool :=
  negb (Str.is_empty name) && no_backslash name
  && negb (String.eqb name ".") && negb (String.eqb name "..").

(** The [Audio] reference of a motion. *)
Definition audio_of (motion : json) : option string :=
  match Py.index motion "Audio" with
  | Some (JStr audio_url) => Some audio_url
  | _ => None
  end.

(** The descriptor shape the pass is meant for: [FileReferences] and
    [Motions], where present, are objects, every motion group is a list
    of objects, and an [Audio], where present, is a string. *)
Definition motion_ok (motion : json) : bool :=
  match motion with
  | JObj d =>
      match Dict.get "Audio" d with
      | Some (JStr _) | None => true
      | Some _ => false
      end
  | _ => false
  end.

Definition group_ok (motion_list : json) : bool :=
  match motion_list with
  | JArr l => forallb motion_ok l
  | _ => false
  end.

Definition groups_ok (groups : Dict.t) : bool :=
  forallb (fun kv => group_ok (snd kv)) groups.

Definition descriptor_ok (data : json) : bool :=
  match data with
  | JObj d =>
      match Dict.get "FileReferences" d with
      | None => true
      | Some (JObj fr) =>
          match Dict.get "Motions" fr with
          | None => true
          | Some (JObj groups) => groups_ok groups
          | Some _ => false
          end
      | Some _ => false
      end
  | _ => false
  end.

(** The [Audio] references of a descriptor, in the order of the
    document. *)
Definition motion_urls (motion : json) : list string :=
  match audio_of motion with Some u => [u] | None => [] end.

Definition group_urls (motion_list : json) : list string :=
  match motion_list with
  | JArr l => flat_map motion_urls l
  | _ => []
  end.

Definition groups_urls (groups : Dict.t) : list string :=
  flat_map (fun kv => group_urls (snd kv)) groups.

Definition motions_of (data : json) : Dict.t :=
  match obj_get "FileReferences" data with
  | Some fr =>
      match obj_get "Motions" fr with
      | Some (JObj groups) => groups
      | _ => []
      end
  | None => []
  end.

Definition audio_urls (data : json) : list string :=
  groups_urls (motions_of data).

(** Whether the fetch of an [Audio] reference of the descriptor
    [model3_path] succeeds. *)
Definition fetched (net : network) (w : world) (model3_path audio_url : string)
  : bool :=
  fst (Audio.download_file net audio_url
         (AudioMain.local_audio_path model3_path audio_url) w).

Definition report_of (net : network) (w : world)
    (model3_path audio_url : string) : audio_report :=
  AudioReport audio_url (AudioMain.local_audio_path model3_path audio_url)
              (fetched net w model3_path audio_url).

(** The descriptor the pass is expected to write: every [Audio] whose
    fetch succeeded ([ok]) reads [audio/<basename>], everything else is
    as it was. *)
Definition localize_motion (ok : string -> bool) (motion : json) : json :=
  match audio_of motion with
  | Some audio_url =>
      if ok audio_url
      then set_field "Audio" (JStr ("audio/" +:+ Posix.basename audio_url))
                     motion
      else motion
  | None => motion
  end.

Definition localize_group (ok : string -> bool) (motion_list : json) : json :=
  match motion_list with
  | JArr l => JArr (map (localize_motion ok) l)
  | _ => motion_list
  end.

Definition localize_groups (ok : string -> bool) (groups : Dict.t) : Dict.t :=
  map (fun kv => (fst kv, localize_group ok (snd kv))) groups.

Definition localize (ok : string -> bool) (data : json) : json :=
  obj_alter "FileReferences"
    (obj_alter "Motions"
       (fun motions =>
          match motions with
          | JObj groups => JObj (localize_groups ok groups)
          | _ => motions
          end))
    data.

(** A descriptor with two motions: the first has an [Audio], the second
    is not an object. *)
Definition broken_motions : json :=
  JObj [("FileReferences",
         JObj [("Motions",
                JObj [("Idle",
                       JArr [JObj [("File", JStr "idle.motion3.json");
                                   ("Audio", JStr "https://static.l2d.su/v/a.mp3")];
                             JNum "5"])])])].

(** A well-formed descriptor with one [Audio]. *)
Definition one_audio : json :=
  JObj [("FileReferences",
         JObj [("Motions",
                JObj [("Idle",
                       JArr [JObj [("File", JStr "idle.motion3.json");
                                   ("Audio", JStr "https://static.l2d.su/v/a.mp3")]])])])].

(** A world with one descriptor, stored as the text ["D"]. *)
Definition descriptor_world : world :=
  World {[ "live2d/azurlane/x/x.model3.json" := "D" ]} (fun _ => false)
        "/srv/mirror" [].

(** ** Vocabulary of the fetchers' budgets *)

Definition is_head (e : event) : bool :=
  match e with EvHead _ => true | _ => false end.

(** The number of probes sent. *)
Definition heads (es : list event) : nat :=
  List.length (List.filter is_head es).

(** Events that act on files only. *)
Definition file_event (e : event) : Prop :=
  match e with
  | EvOpenW _ | EvWrite _ _ | EvRemove _ | EvRename _ _ | EvCopy _ _ => True
  | EvMakedirs _ | EvHead _ | EvGet _ | EvSleep _ => False
  end.

(** Events that send nothing to the network except a transfer of
    [get_url] or a probe of [head_url]. *)
Definition contacts (get_url head_url : string) (e : event) : Prop :=
  match e with
  | EvGet u => u = get_url
  | EvHead u => u = head_url
  | _ => True
  end.

(** An outcome of a transfer after which [download_file] of [1model.py]
    returns [False] at once: a 4xx status, a request error that is neither
    a timeout nor a connection error (it is an [IOError]), a destination
    that cannot be opened, or a body that breaks with such an error. *)
Definition old_fatal (w : world) (local_filepath : string) (o : get_outcome)
  : Prop :=
  match o with
  | GetRaises OtherRequest => True
  | GetRaises _ => False
  | GetResponse status chunks broken =>
      (400 <= status < 500)%Z
      \/ (raises_for_status status = false
          /\ (unwritable w local_filepath = true
              \/ broken = Some OtherRequest))
  end.

(** An outcome after which [1model.py] tries again: a timeout or a
    connection error, before or during the body, or a 5xx status. *)
Definition old_retried (w : world) (local_filepath : string) (o : get_outcome)
  : Prop :=
  match o with
  | GetRaises Timeout | GetRaises ConnectionError => True
  | GetRaises OtherRequest => False
  | GetResponse status chunks broken =>
      (500 <= status < 600)%Z
      \/ (raises_for_status status = false
          /\ unwritable w local_filepath = false
          /\ (broken = Some Timeout \/ broken = Some ConnectionError))
  end.

(** An outcome after which [1model.new.py] tries again: everything but a
    404 and a body received in full and put in place. *)
Definition new_retried (w : world) (local_filepath : string) (o : get_outcome)
  : Prop :=
  match o with
  | GetRaises _ => True
  | GetResponse status chunks broken =>
      status <> 404%Z
      /\ (raises_for_status status = true
          \/ unwritable w (local_filepath +:+ ".tmp") = true
          \/ broken <> None
          \/ unwritable w local_filepath = true)
  end.

(** ** [get_latest_version] and the file filter of [2audio.py] *)

Module AudioVersion.

(** [pattern.match(filename)] for [live2dMaster(.*?)\.json]: the match is
    anchored at the start of the name only; the value is [group(1)]. *)
Definition version_of (filename : string) : option string :=
  Re.lit "live2dMaster" filename (fun s1 =>
  Re.lazy_any s1 (fun s2 =>
  Re.lit ".json" s2 (fun _ => Some (Re.between s1 s2)))).

(** [sorted(l)] for a list of [str]: ascending, by code point. *)
Fixpoint insert (x : string) (l : list string) : list string :=
  match l with
  | [] => [x]
  | y :: l' => if String.leb x y then x :: l else y :: insert x l'
  end.

Fixpoint sorted (l : list string) : list string :=
  match l with
  | [] => []
  | x :: l' => insert x (sorted l')
  end.

(** [get_latest_version], given what [os.listdir(json_dir)] returned. *)
Definition get_latest_version (listing : list string) : option string :=
  let versions := omap version_of listing in
  match versions with
  | [] => None
  | _ => Some (List.last (sorted versions) EmptyString)
  end.

(** The test [main] applies to the file names of a directory. *)
Definition selected (filename : string) : bool :=
  Str.endswith filename ".model3.json".

End AudioVersion.

(** The names under which [1model.py] leaves the manifest of version [v]
    and its backup in the [json] directory. *)
Definition manifest_name (v : string) : string :=
  "live2dMaster" +:+ v +:+ ".json".

Definition manifest_backup_name (v : string) : string :=
  "live2dMaster" +:+ v +:+ "webversion.json".

(** [m] is in [l] and nothing in [l] sorts after it. *)
Definition greatest (m : string) (l : list string) : Prop :=
  In m l /\ forall y, In y l -> String.leb y m = true.

Definition no_dot (s : string) : bool :=
  Str.all_chars (fun a => negb (Ascii.eqb a ".")) s.

(** ** Vocabulary of the local layout *)

(** A path segment the sanitizer keeps as it is: not empty, no separator,
    none of the characters it replaces, and neither [.] nor [..]. *)
Definition kept_segment (c : string) : bool :=
  negb (Str.is_empty c) && nosep c && legal_chars c
  && negb (String.eqb c ".") && negb (String.eqb c "..").

(** A segment [os.path.join] and [split("/")] take apart and put together
    again: not empty, no separator, no backslash. *)
Definition raw_segment (c : string) : bool :=
  negb (Str.is_empty c) && nosep c && no_backslash c.

(** Events that start no transfer other than one of [urls] and send no
    probe. *)
Definition fetches_among (urls : list string) (e : event) : Prop :=
  match e with
  | EvGet u => In u urls
  | EvHead _ => False
  | _ => True
  end.

(** * Properties *)

(** ** Strings *)

Section StrFacts.

Lemma app_empty_r (s : string) : s +:+ "" = s.
Proof. induction s; simpl; congruence. Qed.

Lemma app_assoc_s (a b c : string) : (a +:+ b) +:+ c = a +:+ b +:+ c.
Proof. induction a; simpl; congruence. Qed.

Lemma ascii_eqb_true (a b : ascii) : Ascii.eqb a b = true <-> a = b.
Proof. apply Ascii.eqb_eq. Qed.

Lemma ascii_eqb_false (a b : ascii) : Ascii.eqb a b = false <-> a <> b.
Proof. apply Ascii.eqb_neq. Qed.

Lemma startswith_app (p r : string) : Str.startswith (p +:+ r) p = true.
Proof.
  induction p as [|a p IH]; simpl; [reflexivity|].
  rewrite Ascii.eqb_refl. exact IH.
Qed.

Lemma startswith_inv (s p : string) :
  Str.startswith s p = true -> exists r, s = p +:+ r.
Proof.
  revert s. induction p as [|b p IH]; intros s H; simpl in *.
  - exists s. reflexivity.
  - destruct s as [|a s]; [discriminate|].
    apply andb_prop in H as [Hab Hs].
    apply Ascii.eqb_eq in Hab. subst b.
    destruct (IH _ Hs) as [r ->]. exists r. reflexivity.
Qed.

Lemma rev_acc_app (s acc : string) : Str.rev_acc s acc = Str.rev s +:+ acc.
Proof.
  unfold Str.rev. revert acc.
  induction s as [|a s IH]; intros acc; simpl; [reflexivity|].
  rewrite IH, (IH (String a "")), app_assoc_s. reflexivity.
Qed.

Lemma rev_cons (a : ascii) (s : string) :
  Str.rev (String a s) = Str.rev s +:+ String a "".
Proof. unfold Str.rev at 1. simpl. apply rev_acc_app. Qed.

Lemma rev_app (s t : string) : Str.rev (s +:+ t) = Str.rev t +:+ Str.rev s.
Proof.
  induction s as [|a s IH]; simpl.
  - rewrite app_empty_r. reflexivity.
  - rewrite !rev_cons, IH, app_assoc_s. reflexivity.
Qed.

Lemma rev_involutive (s : string) : Str.rev (Str.rev s) = s.
Proof.
  induction s as [|a s IH]; [reflexivity|].
  rewrite rev_cons, rev_app, IH. reflexivity.
Qed.

(** A path that ends with the separator is some text followed by it. *)
Lemma endswith_sep_inv (s : string) :
  Str.endswith s "/" = true -> exists r, s = r +:+ "/".
Proof.
  unfold Str.endswith. intros H.
  apply startswith_inv in H as [r Hr].
  exists (Str.rev r).
  rewrite <- (rev_involutive s), Hr, rev_app. reflexivity.
Qed.

Lemma length_app_s (s t : string) :
  String.length (s +:+ t) = String.length s + String.length t.
Proof. induction s as [|a s IH]; simpl; [reflexivity|]. rewrite IH. reflexivity. Qed.

Lemma all_chars_app (P : ascii -> bool) (s t : string) :
  Str.all_chars P (s +:+ t) = Str.all_chars P s && Str.all_chars P t.
Proof.
  induction s as [|a s IH]; simpl; [reflexivity|].
  rewrite IH, andb_assoc. reflexivity.
Qed.

End StrFacts.

(** ** Splitting and joining on the path separator *)


Section SplitFacts.

Lemma split_aux_nonnil (sep : string) (k : nat) (s : string) :
  Str.split_aux sep k s <> [].
Proof.
  revert k. induction s as [|a s IH]; intros k; simpl; [discriminate|].
  destruct k; [|apply IH].
  destruct (Str.startswith _ _); [discriminate|].
  destruct (Str.split_aux sep 0 s); discriminate.
Qed.

Lemma split_slash_nil : Str.split "" "/" = [""].
Proof. reflexivity. Qed.

Lemma split_slash_sep (s : string) :
  Str.split (String "/" s) "/" = "" :: Str.split s "/".
Proof. reflexivity. Qed.

Lemma split_slash_other (a : ascii) (s : string) :
  a <> "/"%char ->
  exists p ps, Str.split s "/" = p :: ps
            /\ Str.split (String a s) "/" = String a p :: ps.
Proof.
  intros Ha. unfold Str.split. simpl.
  apply Ascii.eqb_neq in Ha. rewrite Ha. simpl.
  destruct (Str.split_aux "/" 0 s) as [|p ps] eqn:E.
  - exfalso. exact (split_aux_nonnil _ _ _ E).
  - exists p, ps. split; reflexivity.
Qed.

Lemma split_app_sep (s t : string) :
  Str.split (s +:+ "/" +:+ t) "/" = Str.split s "/" ++ Str.split t "/".
Proof.
  induction s as [|a s IH].
  - reflexivity.
  - destruct (Ascii.eqb_spec a "/") as [->|Ha].
    + change (String "/" s +:+ "/" +:+ t) with (String "/" (s +:+ "/" +:+ t)).
      rewrite !split_slash_sep, IH. reflexivity.
    + change (String a s +:+ "/" +:+ t) with (String a (s +:+ "/" +:+ t)).
      destruct (split_slash_other a s Ha) as (p & ps & E1 & E2).
      destruct (split_slash_other a (s +:+ "/" +:+ t) Ha) as (p' & ps' & E3 & E4).
      rewrite E2, E4. rewrite IH, E1 in E3. simpl in E3.
      injection E3 as <- <-. reflexivity.
Qed.

Lemma split_nosep (b : string) : nosep b = true -> Str.split b "/" = [b].
Proof.
  induction b as [|a b IH]; intros H; [reflexivity|].
  unfold nosep in *. simpl in H. apply andb_prop in H as [Ha Hb].
  apply negb_true_iff, Ascii.eqb_neq in Ha.
  destruct (split_slash_other a b Ha) as (p & ps & E1 & E2).
  rewrite E2. rewrite (IH Hb) in E1. injection E1 as <- <-. reflexivity.
Qed.

Lemma split_pieces_nosep (s : string) :
  Forall (fun p => nosep p = true) (Str.split s "/").
Proof.
  induction s as [|a s IH].
  - repeat constructor.
  - destruct (Ascii.eqb_spec a "/") as [->|Ha].
    + rewrite split_slash_sep. constructor; [reflexivity|exact IH].
    + destruct (split_slash_other a s Ha) as (p & ps & E1 & E2).
      rewrite E2. rewrite E1 in IH. inversion IH as [|? ? Hp Hps]; subst.
      constructor; [|exact Hps].
      unfold nosep in *. simpl.
      apply Ascii.eqb_neq in Ha. rewrite Ha, Hp. reflexivity.
Qed.

Lemma split_pieces_chars (P : ascii -> bool) (s : string) :
  Str.all_chars P s = true ->
  Forall (fun p => Str.all_chars P p = true) (Str.split s "/").
Proof.
  induction s as [|a s IH]; intros H.
  - repeat constructor.
  - simpl in H. apply andb_prop in H as [Ha Hs]. specialize (IH Hs).
    destruct (Ascii.eqb_spec a "/") as [->|Hne].
    + rewrite split_slash_sep. constructor; [reflexivity|exact IH].
    + destruct (split_slash_other a s Hne) as (p & ps & E1 & E2).
      rewrite E2. rewrite E1 in IH. inversion IH as [|? ? Hp Hps]; subst.
      constructor; [|exact Hps]. simpl. rewrite Ha, Hp. reflexivity.
Qed.

Lemma join_cons2 (sep x y : string) (l : list string) :
  Str.join sep (x :: y :: l) = x +:+ sep +:+ Str.join sep (y :: l).
Proof. reflexivity. Qed.

Lemma join_chars (P : ascii -> bool) (sep : string) (l : list string) :
  Str.all_chars P sep = true ->
  Forall (fun p => Str.all_chars P p = true) l ->
  Str.all_chars P (Str.join sep l) = true.
Proof.
  intros Hsep. induction 1 as [|x l Hx Hl IH]; [reflexivity|].
  destruct l as [|y l]; [exact Hx|].
  rewrite join_cons2, !all_chars_app, Hx, Hsep, IH. reflexivity.
Qed.

End SplitFacts.

(** ** The POSIX path functions *)


Section PosixFacts.

Lemma plain_head (c : string) :
  plain c -> exists a r, c = String a r /\ a <> "/"%char.
Proof.
  intros [Hne Hs]. destruct c as [|a r]; [congruence|].
  exists a, r. split; [reflexivity|].
  unfold nosep in Hs. simpl in Hs. apply andb_prop in Hs as [Ha _].
  apply negb_true_iff, Ascii.eqb_neq in Ha. exact Ha.
Qed.

Lemma plain_not_abs (c : string) : plain c -> Str.startswith c "/" = false.
Proof.
  intros H. destruct (plain_head c H) as (a & r & -> & Ha).
  simpl. apply Ascii.eqb_neq in Ha. rewrite Ha. reflexivity.
Qed.

Lemma norm_step_skip (i : nat) (acc : list string) :
  Posix.norm_step i acc "" = acc.
Proof. reflexivity. Qed.

(** Appending one plain segment to a path appends one step to the
    normalisation of its components. *)
Lemma norm_fold_join2 (i : nat) (path b : string) :
  plain b ->
  fold_left (Posix.norm_step i) (Str.split (Posix.join2 path b) "/") [] =
  Posix.norm_step i
    (fold_left (Posix.norm_step i) (Str.split path "/") []) b.
Proof.
  intros Hb. unfold Posix.join2, Posix.sep.
  rewrite (plain_not_abs b Hb).
  destruct path as [|a path].
  - simpl. rewrite (split_nosep b (proj2 Hb)). reflexivity.
  - cbn [Str.is_empty orb].
    destruct (Str.endswith (String a path) "/") eqn:E.
    + apply endswith_sep_inv in E as [r ->].
      rewrite app_assoc_s.
      rewrite (split_app_sep r b), (split_nosep b (proj2 Hb)).
      rewrite <- (app_empty_r (r +:+ "/")), app_assoc_s.
      rewrite (split_app_sep r ""), !fold_left_app. reflexivity.
    + rewrite (split_app_sep (String a path) b), (split_nosep b (proj2 Hb)).
      rewrite fold_left_app. reflexivity.
Qed.

Lemma norm_fold_join (i : nat) (segs : list string) (base : string) :
  Forall plain segs ->
  fold_left (Posix.norm_step i) (Str.split (Posix.join base segs) "/") [] =
  fold_left (Posix.norm_step i) segs
    (fold_left (Posix.norm_step i) (Str.split base "/") []).
Proof.
  intros H. revert base. unfold Posix.join.
  induction H as [|b segs Hb Hsegs IH]; intros base; [reflexivity|].
  simpl. rewrite IH, (norm_fold_join2 i base b Hb). reflexivity.
Qed.

Lemma initial_slashes_join2 (path b : string) :
  plain b ->
  Posix.initial_slashes (Posix.join2 path b) = Posix.initial_slashes path.
Proof.
  intros Hb. unfold Posix.join2, Posix.sep.
  rewrite (plain_not_abs b Hb).
  destruct (plain_head b Hb) as (c & r & -> & Hc).
  apply Ascii.eqb_neq in Hc.
  destruct path as [|a0 [|a1 [|a2 path]]].
  4: { cbn [Str.is_empty orb].
       destruct (Str.endswith (String a0 (String a1 (String a2 path))) "/");
         reflexivity. }
  all: unfold Posix.initial_slashes, Posix.sep, Str.endswith; cbn;
    rewrite ?Hc; cbn; try reflexivity.
  - destruct (Ascii.eqb a0 "/") eqn:E0; cbn; rewrite ?E0, ?Hc; reflexivity.
  - destruct (Ascii.eqb a0 "/") eqn:E0, (Ascii.eqb a1 "/") eqn:E1; cbn;
      rewrite ?E0, ?E1, ?Hc; cbn; rewrite ?E0, ?E1, ?Hc; reflexivity.
Qed.

Lemma initial_slashes_join (segs : list string) (base : string) :
  Forall plain segs ->
  Posix.initial_slashes (Posix.join base segs) = Posix.initial_slashes base.
Proof.
  intros H. revert base. unfold Posix.join.
  induction H as [|b segs Hb Hsegs IH]; intros base; [reflexivity|].
  simpl. rewrite IH. apply initial_slashes_join2, Hb.
Qed.

Lemma join2_nonempty (path b : string) :
  b <> "" -> Posix.join2 path b <> "".
Proof.
  intros Hb. unfold Posix.join2.
  destruct (Str.startswith b Posix.sep); [exact Hb|].
  destruct path; simpl; [exact Hb|].
  destruct (Str.endswith _ _); discriminate.
Qed.

Lemma join_nonempty (segs : list string) (base : string) :
  Forall plain segs -> segs <> [] -> Posix.join base segs <> "".
Proof.
  intros H Hne. unfold Posix.join.
  destruct H as [|b segs Hb Hsegs]; [congruence|]. simpl.
  assert (Hj : Posix.join2 base b <> "") by apply join2_nonempty, Hb.
  revert Hj. generalize (Posix.join2 base b). clear Hne Hb.
  induction Hsegs as [|c segs Hc _ IH]; intros p Hp; [exact Hp|].
  simpl. apply IH, join2_nonempty, Hc.
Qed.

End PosixFacts.

(** ** Normalisation keeps plain components *)


Section NormFacts.

Lemma Forall_removelast {A} (P : A -> Prop) (l : list A) :
  Forall P l -> Forall P (removelast l).
Proof.
  induction 1 as [|x l Hx Hl IH]; [constructor|].
  destruct l; [constructor|]. simpl. constructor; [exact Hx|exact IH].
Qed.

Lemma norm_step_cases (i : nat) (acc : list string) (c : string) :
  (Posix.norm_step i acc c = acc)
  \/ (Posix.norm_step i acc c = acc ++ [c] /\ c <> "" /\ c <> ".")
  \/ (Posix.norm_step i acc c = removelast acc).
Proof.
  unfold Posix.norm_step.
  destruct (String.eqb_spec c ""); [left; reflexivity|].
  destruct (String.eqb_spec c "."); [left; reflexivity|]. simpl.
  match goal with |- context [if ?b then _ else _] => destruct b end.
  - right; left. auto.
  - right; right. reflexivity.
Qed.

Lemma norm_step_ok (i : nat) (acc : list string) (c : string) :
  Forall comp_ok acc -> nosep c = true ->
  Forall comp_ok (Posix.norm_step i acc c).
Proof.
  intros Hacc Hc.
  destruct (norm_step_cases i acc c) as [->|[(-> & H1 & H2)| ->]].
  - exact Hacc.
  - apply Forall_app. split; [exact Hacc|].
    repeat constructor; assumption.
  - apply Forall_removelast, Hacc.
Qed.

Lemma norm_fold_ok (i : nat) (l acc : list string) :
  Forall (fun c => nosep c = true) l -> Forall comp_ok acc ->
  Forall comp_ok (fold_left (Posix.norm_step i) l acc).
Proof.
  intros Hl. revert acc.
  induction Hl as [|c l Hc Hl IH]; intros acc Hacc; [exact Hacc|].
  simpl. apply IH, norm_step_ok; assumption.
Qed.

Lemma norm_comps_ok (path : string) : Forall comp_ok (Posix.norm_comps path).
Proof.
  unfold Posix.norm_comps. apply norm_fold_ok; [|constructor].
  apply split_pieces_nosep.
Qed.

(** Segments other than [..] are pushed, [.] apart. *)
Lemma norm_fold_plain (i : nat) (segs acc : list string) :
  Forall (fun c => c <> "" /\ c <> "..") segs ->
  fold_left (Posix.norm_step i) segs acc =
  acc ++ filter (fun c => c <> ".") segs.
Proof.
  intros H. revert acc.
  induction H as [|c segs [Hc1 Hc2] _ IH]; intros acc; simpl.
  - rewrite app_nil_r. reflexivity.
  - rewrite IH. unfold Posix.norm_step.
    destruct (String.eqb_spec c ""); [congruence|].
    rewrite filter_cons.
    destruct (String.eqb_spec c ".") as [->|Hd]; simpl.
    + reflexivity.
    + destruct (String.eqb_spec c ".."); [congruence|]. simpl.
      case_decide; [|congruence].
      rewrite <- app_assoc. reflexivity.
Qed.

Lemma components_cons_sep (s : string) :
  components (String "/" s) = components s.
Proof. unfold components. rewrite split_slash_sep. reflexivity. Qed.

Lemma components_ok (c : string) : comp_ok c -> components c = [c].
Proof.
  intros [[Hne Hs] Hd]. unfold components.
  rewrite (split_nosep c Hs), filter_cons, decide_True; [reflexivity|].
  destruct (String.eqb_spec c ""); [congruence|].
  destruct (String.eqb_spec c "."); [congruence|]. reflexivity.
Qed.

Lemma components_app_sep (s t : string) :
  components (s +:+ "/" +:+ t) = components s ++ components t.
Proof. unfold components. rewrite split_app_sep, filter_app. reflexivity. Qed.

Lemma components_join (l : list string) :
  Forall comp_ok l -> components (Str.join "/" l) = l.
Proof.
  induction 1 as [|x l Hx Hl IH]; [reflexivity|].
  destruct l as [|y l]; [apply components_ok, Hx|].
  rewrite join_cons2, components_app_sep, IH, (components_ok x Hx).
  reflexivity.
Qed.

Lemma components_times (i : nat) (s : string) :
  components (Posix.times i "/" +:+ s) = components s.
Proof.
  induction i as [|i IH]; [reflexivity|].
  simpl. change (String "/" (Posix.times i "/") +:+ s)
    with (String "/" (Posix.times i "/" +:+ s)).
  rewrite components_cons_sep. exact IH.
Qed.

Lemma components_or_dot (s : string) :
  components (Posix.or_dot s) = components s.
Proof. destruct s; reflexivity. Qed.

Lemma components_render (i : nat) (l : list string) :
  Forall comp_ok l -> components (Posix.render i l) = l.
Proof.
  intros H. unfold Posix.render, Posix.sep.
  rewrite components_or_dot, components_times. apply components_join, H.
Qed.

Lemma components_normpath (path : string) :
  components (Posix.normpath path) = Posix.norm_comps path.
Proof.
  unfold Posix.normpath. destruct path as [|a path]; [reflexivity|].
  cbn [Str.is_empty]. apply components_render, norm_comps_ok.
Qed.

Lemma join_head_plain (x : string) (l : list string) :
  plain x -> exists a r, Str.join "/" (x :: l) = String a r /\ a <> "/"%char.
Proof.
  intros Hx. destruct (plain_head x Hx) as (a & r & -> & Ha).
  destruct l as [|y l].
  - exists a, r. auto.
  - exists a, (r +:+ "/" +:+ Str.join "/" (y :: l)). auto.
Qed.

Lemma initial_slashes_le2 (path : string) : Posix.initial_slashes path <= 2.
Proof.
  unfold Posix.initial_slashes.
  repeat match goal with |- context [if ?b then _ else _] => destruct b end;
    lia.
Qed.

Lemma initial_slashes_render (i : nat) (l : list string) :
  i <= 2 -> Forall comp_ok l ->
  Posix.initial_slashes (Posix.render i l) = i.
Proof.
  intros Hi Hl. unfold Posix.render, Posix.sep.
  assert (Hj : Str.join "/" l = ""
               \/ exists a r, Str.join "/" l = String a r /\ a <> "/"%char).
  { destruct Hl as [|x l [Hx _] _]; [left; reflexivity|].
    right. apply join_head_plain, Hx. }
  destruct Hj as [->|(a & r & -> & Ha)].
  - destruct i as [|[|[|i]]]; try lia; reflexivity.
  - apply Ascii.eqb_neq in Ha.
    destruct i as [|[|[|i]]]; try lia;
      unfold Posix.initial_slashes, Posix.sep; cbn; rewrite Ha; reflexivity.
Qed.

Lemma initial_slashes_normpath (path : string) :
  Posix.initial_slashes (Posix.normpath path) = Posix.initial_slashes path.
Proof.
  unfold Posix.normpath. destruct path as [|a path]; [reflexivity|].
  cbn [Str.is_empty].
  apply initial_slashes_render; [apply initial_slashes_le2|apply norm_comps_ok].
Qed.

End NormFacts.

(** ** The path sanitizer *)

Section Sanitizer.

Lemma sub_invalid_legal (p : string) : legal_chars (sub_invalid p) = true.
Proof.
  unfold legal_chars, sub_invalid.
  induction p as [|a p IH]; [reflexivity|]. simpl. rewrite IH, andb_true_r.
  destruct (invalid_char a) eqn:E; [reflexivity|]. rewrite E. reflexivity.
Qed.

Lemma sub_invalid_nosep (p : string) :
  nosep p = true -> nosep (sub_invalid p) = true.
Proof.
  unfold nosep, sub_invalid.
  induction p as [|a p IH]; [reflexivity|]. simpl. intros H.
  apply andb_prop in H as [Ha Hp]. rewrite (IH Hp), andb_true_r.
  destruct (invalid_char a); [reflexivity|exact Ha].
Qed.

Lemma sub_invalid_nonempty (p : string) : p <> "" -> sub_invalid p <> "".
Proof. destruct p; [congruence|discriminate]. Qed.

(** Every sanitised segment is non-empty, holds no separator and none
    of the characters of [invalid_chars]. *)
Lemma clean_parts_plain (rel_path : string) :
  Forall (fun p => plain p /\ legal_chars p = true) (clean_parts rel_path).
Proof.
  unfold clean_parts. apply Forall_map, Forall_forall.
  intros p Hp. apply list_elem_of_filter in Hp as [Hne Hin].
  pose proof (split_pieces_nosep (Str.replace rel_path "\" "/")) as Hall.
  rewrite Forall_forall in Hall.
  specialize (Hall p Hin).
  split; [split|].
  - apply sub_invalid_nonempty. destruct p; [discriminate|discriminate].
  - apply sub_invalid_nosep, Hall.
  - apply sub_invalid_legal.
Qed.

Lemma legal_app (s t : string) :
  legal_chars s = true -> legal_chars t = true ->
  legal_chars (s +:+ t) = true.
Proof.
  unfold legal_chars. intros Hs Ht. rewrite all_chars_app, Hs, Ht.
  reflexivity.
Qed.

Lemma legal_join2 (path b : string) :
  legal_chars path = true -> legal_chars b = true ->
  legal_chars (Posix.join2 path b) = true.
Proof.
  intros Hp Hb. unfold Posix.join2.
  destruct (Str.startswith b Posix.sep); [exact Hb|].
  destruct (_ || _); repeat apply legal_app; auto.
Qed.

Lemma legal_join (segs : list string) (base : string) :
  legal_chars base = true ->
  Forall (fun p => legal_chars p = true) segs ->
  legal_chars (Posix.join base segs) = true.
Proof.
  intros Hb H. revert base Hb. unfold Posix.join.
  induction H as [|b segs Hb' _ IH]; intros base Hb; [exact Hb|].
  simpl. apply IH, legal_join2; assumption.
Qed.

Lemma norm_fold_Forall (P : string -> Prop) (i : nat) (l acc : list string) :
  Forall P l -> Forall P acc ->
  Forall P (fold_left (Posix.norm_step i) l acc).
Proof.
  intros Hl. revert acc.
  induction Hl as [|c l Hc Hl IH]; intros acc Hacc; [exact Hacc|].
  simpl. apply IH.
  destruct (norm_step_cases i acc c) as [->|[(-> & _)| ->]].
  - exact Hacc.
  - apply Forall_app. split; [exact Hacc|]. repeat constructor. exact Hc.
  - apply Forall_removelast, Hacc.
Qed.

Lemma legal_times (i : nat) : legal_chars (Posix.times i "/") = true.
Proof.
  induction i as [|i IH]; [reflexivity|].
  simpl. apply (legal_app "/"); [reflexivity|exact IH].
Qed.

Lemma legal_normpath (path : string) :
  legal_chars path = true -> legal_chars (Posix.normpath path) = true.
Proof.
  intros H. unfold Posix.normpath.
  destruct (Str.is_empty path); [reflexivity|].
  unfold Posix.render, Posix.or_dot, Posix.sep.
  destruct (Str.is_empty _); [reflexivity|].
  apply legal_app; [apply legal_times|].
  apply join_chars; [reflexivity|].
  apply norm_fold_Forall; [|constructor].
  apply split_pieces_chars, H.
Qed.

Lemma list_startswith_app (b s : list string) :
  list_startswith (b ++ s) b = true.
Proof.
  induction b as [|x b IH]; [reflexivity|].
  simpl. rewrite String.eqb_refl. exact IH.
Qed.

(** With no [..] among the sanitised segments the normalised result is
    the normalised base followed by the segments other than [.]. *)
Lemma safe_path_join_components (base rel_path : string) :
  Forall (fun p => p <> "..") (clean_parts (strip_scheme rel_path)) ->
  components (safe_path_join base rel_path) =
  components (Posix.normpath base)
    ++ filter (fun c => c <> ".") (clean_parts (strip_scheme rel_path)).
Proof.
  intros Hdd. unfold safe_path_join.
  pose proof (clean_parts_plain (strip_scheme rel_path)) as Hpl.
  set (segs := clean_parts (strip_scheme rel_path)) in *.
  assert (Hplain : Forall plain segs).
  { eapply Forall_impl; [exact Hpl|]. intros ? [? _]. assumption. }
  rewrite !components_normpath. unfold Posix.norm_comps.
  rewrite (initial_slashes_join segs base Hplain).
  rewrite (norm_fold_join _ segs base Hplain).
  apply norm_fold_plain.
  rewrite Forall_forall in *. intros p Hp.
  split; [apply (Hplain p Hp)|apply (Hdd p Hp)].
Qed.

End Sanitizer.

(** C1, as amended: every sanitised segment is non-empty and free of the
    separator and of the characters of [invalid_chars]; when no sanitised
    segment is [..] and at least one is not [.], the returned path is strictly
    beneath the base directory; and when the base itself holds none of the
    characters of [invalid_chars], neither does the returned path. *)
Theorem safe_path_join_confined (base rel_path : string) :
  Forall (fun p => plain p /\ legal_chars p = true)
         (clean_parts (strip_scheme rel_path))
  /\ (Forall (fun p => p <> "..") (clean_parts (strip_scheme rel_path)) ->
      Exists (fun p => p <> ".") (clean_parts (strip_scheme rel_path)) ->
      strictly_beneath base (safe_path_join base rel_path) = true)
  /\ (legal_chars base = true ->
      legal_chars (safe_path_join base rel_path) = true).
Proof.
  pose proof (clean_parts_plain (strip_scheme rel_path)) as Hpl.
  split; [exact Hpl|split].
  - intros Hdd Hex. unfold strictly_beneath.
    rewrite (safe_path_join_components base rel_path Hdd).
    set (b := components (Posix.normpath base)).
    set (s := filter (fun c => c <> ".") (clean_parts (strip_scheme rel_path))).
    assert (Hs : s <> []).
    { apply Exists_exists in Hex as (p & Hin & Hp). intros E.
      assert (Hps : p ∈ s).
      { apply list_elem_of_filter. split; [exact Hp|exact Hin]. }
      rewrite E in Hps. inversion Hps. }
    assert (Hall : Forall plain (clean_parts (strip_scheme rel_path))).
    { eapply Forall_impl; [exact Hpl|]. intros ? [? _]. assumption. }
    repeat (apply andb_true_intro; split).
    + apply Nat.eqb_eq. rewrite initial_slashes_normpath.
      unfold safe_path_join.
      rewrite initial_slashes_normpath, (initial_slashes_join _ base Hall).
      reflexivity.
    + apply list_startswith_app.
    + apply Nat.ltb_lt. rewrite length_app.
      destruct s; [congruence|]. simpl. lia.
    + rewrite drop_app_length. apply forallb_forall. intros c Hc.
      rewrite <- list_elem_of_In in Hc.
      apply list_elem_of_filter in Hc as [_ Hc].
      rewrite Forall_forall in Hdd.
      apply negb_true_iff, String.eqb_neq, Hdd, Hc.
  - intros Hb. unfold safe_path_join.
    apply legal_normpath, legal_join; [exact Hb|].
    eapply Forall_impl; [exact Hpl|]. intros ? [_ ?]. assumption.
Qed.

Lemma safe_path_join_confined_witness :
  strictly_beneath "mirror"
    (safe_path_join "mirror" "https://static.l2d.su/live2d/a*b/x:y.model3.json")
  = true
  /\ legal_chars
       (safe_path_join "mirror" "https://static.l2d.su/live2d/a*b/x:y.model3.json")
     = true.
Proof.
  destruct (safe_path_join_confined "mirror"
              "https://static.l2d.su/live2d/a*b/x:y.model3.json")
    as (_ & Hb & Hl).
  split.
  - apply Hb.
    + vm_compute. repeat constructor; discriminate.
    + vm_compute. constructor. discriminate.
  - apply Hl. reflexivity.
Defined.

(** C1, as stated, fails: a reference made of [..] segments leaves the base
    directory, and a base directory that itself holds a colon keeps it. *)
Lemma safe_path_join_escapes :
  safe_path_join "mirror" "../../etc/passwd" = "../etc/passwd"
  /\ strictly_beneath "mirror" (safe_path_join "mirror" "../../etc/passwd")
     = false
  /\ strictly_beneath "mirror" (safe_path_join "mirror" "") = false
  /\ legal_chars (safe_path_join "C:" "x") = false.
Proof. repeat split; reflexivity. Qed.

(** ** Worlds and traces *)


Section Traces.

Lemma extends_nil (w : world) : extends w [] = w.
Proof. destruct w. unfold extends. simpl. rewrite app_nil_r. reflexivity. Qed.

Lemma extends_app (w : world) (es1 es2 : list event) :
  extends (extends w es1) es2 = extends w (es1 ++ es2).
Proof.
  unfold extends, replay. simpl. rewrite fold_left_app, app_assoc.
  reflexivity.
Qed.

Lemma perform_extends (e : event) (w : world) : perform e w = extends w [e].
Proof. reflexivity. Qed.

Lemma emit_extends_makedirs (d : string) (w : world) :
  emit (EvMakedirs d) w = extends w [EvMakedirs d].
Proof. destruct w. reflexivity. Qed.

Lemma events_since_extends (w : world) (es : list event) :
  events_since w (extends w es) = es.
Proof. unfold events_since, extends. simpl. apply drop_app_length. Qed.

Lemma write_chunks_extends (b : bool) (p : string) (chunks : list string)
    (w : world) :
  write_chunks b p chunks w = extends w (write_events b p chunks).
Proof.
  revert w. induction chunks as [|c chunks IH]; intros w; simpl.
  - symmetry. apply extends_nil.
  - rewrite IH. unfold write_events. simpl.
    destruct (b && Str.is_empty c); simpl; [reflexivity|].
    rewrite perform_extends, extends_app. reflexivity.
Qed.

Lemma gets_app (es1 es2 : list event) :
  gets (es1 ++ es2) = gets es1 + gets es2.
Proof. unfold gets. rewrite List.filter_app, length_app. reflexivity. Qed.

Lemma sleeps_app (es1 es2 : list event) :
  sleeps (es1 ++ es2) = sleeps es1 ++ sleeps es2.
Proof.
  induction es1 as [|e es1 IH]; [reflexivity|].
  destruct e; simpl; rewrite ?IH; reflexivity.
Qed.

Lemma gets_write_events (b : bool) (p : string) (chunks : list string) :
  gets (write_events b p chunks) = 0.
Proof.
  unfold write_events, gets.
  induction (List.filter _ chunks) as [|c l IH]; [reflexivity|exact IH].
Qed.

Lemma sleeps_write_events (b : bool) (p : string) (chunks : list string) :
  sleeps (write_events b p chunks) = [].
Proof.
  unfold write_events.
  induction (List.filter _ chunks) as [|c l IH]; [reflexivity|exact IH].
Qed.

Lemma unwritable_extends (w : world) (es : list event) :
  unwritable (extends w es) = unwritable w.
Proof. reflexivity. Qed.

End Traces.

(** ** The retry loops *)

Section RetryFacts.

Lemma gets_failed_passes (u : string) (b : nat) (d : nat -> Z) (n k : nat) :
  gets (failed_passes u b d n k) = k.
Proof.
  revert n. induction k as [|k IH]; intros n; [reflexivity|].
  simpl. change (EvGet u :: ?l) with ([EvGet u] ++ l).
  rewrite !gets_app, IH. destruct (n <? b - 1)%nat; reflexivity.
Qed.

Lemma sleeps_failed_passes (u : string) (b : nat) (d : nat -> Z) (n k : nat) :
  n + k <= b - 1 ->
  sleeps (failed_passes u b d n k) = map d (seq n k).
Proof.
  revert n. induction k as [|k IH]; intros n Hk; [reflexivity|].
  simpl. rewrite sleeps_app, IH by lia.
  destruct (Nat.ltb_spec n (b - 1)); [reflexivity|lia].
Qed.

Lemma quiet_nil : quiet [].
Proof. constructor. Qed.

Lemma quiet_app (es1 es2 : list event) :
  quiet es1 -> quiet es2 -> quiet (es1 ++ es2).
Proof. intros H1 H2. apply Forall_app. split; assumption. Qed.

Lemma quiet_gets (es : list event) : quiet es -> gets es = 0.
Proof.
  induction 1 as [|e es He _ IH]; [reflexivity|].
  destruct e; try contradiction; exact IH.
Qed.

Lemma quiet_sleeps (es : list event) : quiet es -> sleeps es = [].
Proof.
  induction 1 as [|e es He _ IH]; [reflexivity|].
  destruct e; try contradiction; exact IH.
Qed.

Lemma quiet_replay (es : list event) (f : gmap string string) :
  quiet es -> replay es f = f.
Proof.
  induction 1 as [|e es He _ IH]; [reflexivity|].
  destruct e; try contradiction; exact IH.
Qed.

Lemma quiet_disciplined (p : string) (es : list event) :
  quiet es -> Forall (disciplined p) es.
Proof.
  intros H. eapply Forall_impl; [exact H|].
  intros e He. destruct e; try contradiction; exact I.
Qed.

Lemma quiet_leaves (q : string) (es : list event) :
  quiet es -> Forall (leaves q) es.
Proof.
  intros H. eapply Forall_impl; [exact H|].
  intros e He f. destruct e; try contradiction; reflexivity.
Qed.

Lemma makedirs_quiet (d : string) (w w1 : world) :
  makedirs d w = Some w1 -> exists pre, w1 = extends w pre /\ quiet pre.
Proof.
  unfold makedirs. destruct (Str.is_empty d).
  - intros [= <-]. exists []. split; [symmetry; apply extends_nil|apply quiet_nil].
  - destruct (unwritable w d); [discriminate|]. intros [= <-].
    exists [EvMakedirs d]. split; [apply emit_extends_makedirs|].
    repeat constructor.
Qed.

Lemma path_exists_quiet (w : world) (pre : list event) (p : string) :
  quiet pre -> path_exists (extends w pre) p = path_exists w p.
Proof.
  intros R. unfold path_exists, extends. simpl. rewrite (quiet_replay _ _ R).
  reflexivity.
Qed.

Lemma getsize_quiet (w : world) (pre : list event) (p : string) :
  quiet pre -> getsize (extends w pre) p = getsize w p.
Proof.
  intros R. unfold getsize, extends. simpl. rewrite (quiet_replay _ _ R).
  reflexivity.
Qed.

End RetryFacts.

(** ** The fetcher of [1model.new.py] *)

Section NewFetcherFacts.

Variable net : network.
Variable encode_url : string -> string.

Lemma new_attempt_transient (url p : string) (n : nat) (w : world) :
  transient (net_get net (encode_url url) n) ->
  New.attempt net encode_url url p n w
  = (Failed, extends w [EvGet (encode_url url)]).
Proof.
  intros H. unfold New.attempt.
  destruct (net_get net (encode_url url) n) as [e|status chunks broken].
  - reflexivity.
  - simpl in H. unfold raises_for_status.
    destruct (Z.eqb_spec status 404); [lia|].
    destruct (Z.leb_spec 400 status); [|lia].
    destruct (Z.ltb_spec status 600); [|lia]. reflexivity.
Qed.

(** A client-side status other than 404 goes through the same handler. *)
Lemma new_attempt_client_error (url p : string) (n : nat) (w : world)
    (status : Z) (chunks : list string) (broken : option net_error) :
  net_get net (encode_url url) n = GetResponse status chunks broken ->
  (400 <= status < 500)%Z -> status <> 404%Z ->
  New.attempt net encode_url url p n w
  = (Failed, extends w [EvGet (encode_url url)]).
Proof.
  intros E H Hne. unfold New.attempt. rewrite E. unfold raises_for_status.
  destruct (Z.eqb_spec status 404); [lia|].
  destruct (Z.leb_spec 400 status); [|lia].
  destruct (Z.ltb_spec status 600); [|lia]. reflexivity.
Qed.

Lemma new_attempt_404 (url p : string) (n : nat) (w : world)
    (chunks : list string) (broken : option net_error) :
  net_get net (encode_url url) n = GetResponse 404 chunks broken ->
  New.attempt net encode_url url p n w
  = (Returned false, extends w [EvGet (encode_url url)]).
Proof. intros E. unfold New.attempt. rewrite E. reflexivity. Qed.

(** [k] passes in a row that end in the handler. *)
Lemma new_retry_failed (url p : string) (k : nat) :
  forall (n rem : nat) (w : world),
  (forall j w0, n <= j < n + k ->
     New.attempt net encode_url url p j w0
     = (Failed, extends w0 [EvGet (encode_url url)])) ->
  New.retry net encode_url url p n (k + rem) w
  = New.retry net encode_url url p (n + k) rem
      (extends w (failed_passes (encode_url url) New.MAX_RETRIES
                    linear_delay n k)).
Proof.
  induction k as [|k IH]; intros n rem w H.
  - simpl. rewrite Nat.add_0_r, extends_nil. reflexivity.
  - change (S k + rem) with (S (k + rem)).
    cbn [New.retry failed_passes].
    rewrite (H n w) by lia.
    replace (n + S k) with (S n + k) by lia.
    destruct (n <? New.MAX_RETRIES - 1)%nat.
    + rewrite IH by (intros j w0 Hj; apply H; lia).
      rewrite perform_extends, !extends_app. reflexivity.
    + rewrite IH by (intros j w0 Hj; apply H; lia).
      rewrite !extends_app. reflexivity.
Qed.

End NewFetcherFacts.

Section NewDownloadFacts.

Variable net : network.
Variable encode_url : string -> string.

Lemma new_probe_spec (url : string) (force : bool) (w : world) :
  exists pre,
    quiet pre
    /\ snd (New.probe net url force w) = extends w pre
    /\ (force = false -> pre = [EvHead url])
    /\ (fst (New.probe net url force w) = (-1)%Z
        \/ (force = false
            /\ net_head net url
               = HeadResponse 200 (LengthInt (fst (New.probe net url force w))))).
Proof.
  unfold New.probe. destruct force.
  - exists []. simpl. rewrite extends_nil.
    split; [apply quiet_nil|]. split; [reflexivity|].
    split; [discriminate|left; reflexivity].
  - exists [EvHead url]. split; [repeat constructor|].
    destruct (net_head net url) as [|status len]; simpl.
    + split; [reflexivity|]. split; [reflexivity|left; reflexivity].
    + destruct (Z.eqb_spec status 200) as [->|Hs]; simpl.
      * destruct len; simpl; (split; [reflexivity|]);
          (split; [reflexivity|]); auto.
      * split; [reflexivity|]. split; [reflexivity|left; reflexivity].
Qed.

(** The fast path: nothing is transferred and no file changes. *)
Lemma new_download_fast (url local : string) (w : world) :
  is_Some (makedirs (Posix.dirname (Posix.normpath local)) w) ->
  size_match net url w (New.local_path_of w local) ->
  exists pre,
    quiet pre
    /\ New.download_file net encode_url url local false w
       = (true, extends w pre).
Proof.
  intros [w1 Hmk] (Hex & n & Hhead & Hn & Hsize).
  unfold New.download_file. rewrite Hmk.
  destruct (makedirs_quiet _ _ _ Hmk) as (pre0 & -> & Hq0).
  unfold New.probe. rewrite Hhead. simpl.
  set (w2 := perform (EvHead url) (extends w pre0)).
  assert (Hw2 : w2 = extends w (pre0 ++ [EvHead url])).
  { unfold w2. rewrite perform_extends, extends_app. reflexivity. }
  assert (Hq : quiet (pre0 ++ [EvHead url])).
  { apply quiet_app; [exact Hq0|repeat constructor]. }
  exists (pre0 ++ [EvHead url]). split; [exact Hq|].
  rewrite Hw2, (path_exists_quiet _ _ _ Hq), (getsize_quiet _ _ _ Hq).
  rewrite Hex, Hsize. simpl.
  destruct (Z.eqb_spec n (-1)); [contradiction|]. simpl.
  rewrite Z.eqb_refl. reflexivity.
Qed.

(** Otherwise the retry loop runs, after events that transfer nothing. *)
Lemma new_download_slow (url local : string) (force : bool) (w : world) :
  is_Some (makedirs (Posix.dirname (Posix.normpath local)) w) ->
  force = true \/ ~ size_match net url w (New.local_path_of w local) ->
  exists pre,
    quiet pre
    /\ New.download_file net encode_url url local force w
       = New.retry net encode_url url (New.local_path_of w local) 0
           New.MAX_RETRIES (extends w pre).
Proof.
  intros [w1 Hmk] Hslow.
  unfold New.download_file. rewrite Hmk.
  destruct (makedirs_quiet _ _ _ Hmk) as (pre0 & -> & Hq0).
  destruct (new_probe_spec url force (extends w pre0))
    as (pre1 & Hq1 & Hw & _ & Hrs).
  destruct (New.probe net url force (extends w pre0)) as [rs w2] eqn:Hprobe.
  simpl in Hw, Hrs. subst w2. rewrite extends_app.
  assert (Hq : quiet (pre0 ++ pre1)) by (apply quiet_app; assumption).
  exists (pre0 ++ pre1). split; [exact Hq|].
  rewrite (path_exists_quiet _ _ _ Hq), (getsize_quiet _ _ _ Hq).
  match goal with |- (if ?c then _ else _) = _ => destruct c eqn:Hc end;
    [|reflexivity].
  exfalso.
  apply andb_prop in Hc as [Hc Hsz]. apply andb_prop in Hc as [Hc Hne].
  apply andb_prop in Hc as [Hf Hex].
  apply negb_true_iff in Hf. apply negb_true_iff, Z.eqb_neq in Hne.
  apply Z.eqb_eq in Hsz.
  destruct Hslow as [->|Hno]; [discriminate|].
  apply Hno. split; [exact Hex|].
  destruct Hrs as [Hrs|[_ Hhead]]; [contradiction|].
  exists rs. auto.
Qed.

End NewDownloadFacts.

Section NewPolicy.

Variable net : network.
Variable encode_url : string -> string.

Lemma status_ok_branches (status : Z) :
  (status < 400)%Z ->
  (status =? 404)%Z = false /\ raises_for_status status = false.
Proof.
  intros H. unfold raises_for_status. split.
  - apply Z.eqb_neq. lia.
  - destruct (Z.leb_spec 400 status); [lia|reflexivity].
Qed.

(** Every pass starts exactly one transfer and never waits. *)
Lemma new_attempt_counts (url p : string) (n : nat) (w : world) :
  exists es,
    snd (New.attempt net encode_url url p n w) = extends w es
    /\ gets es = 1 /\ sleeps es = [].
Proof.
  unfold New.attempt. cbv zeta. set (u := encode_url url).
  destruct (net_get net u n) as [e|status chunks broken].
  { exists [EvGet u]. repeat split. }
  destruct (status =? 404)%Z. { exists [EvGet u]. repeat split. }
  destruct (raises_for_status status). { exists [EvGet u]. repeat split. }
  rewrite !perform_extends, unwritable_extends.
  destruct (unwritable w (p +:+ ".tmp")). { exists [EvGet u]. repeat split. }
  rewrite write_chunks_extends, !extends_app.
  set (es1 := [EvGet u] ++ [EvOpenW (p +:+ ".tmp")]
              ++ write_events true (p +:+ ".tmp") chunks).
  assert (G1 : gets es1 = 1).
  { unfold es1. rewrite !gets_app, gets_write_events. reflexivity. }
  assert (S1 : sleeps es1 = []).
  { unfold es1. rewrite !sleeps_app, sleeps_write_events. reflexivity. }
  destruct broken. { exists es1. auto. }
  rewrite unwritable_extends.
  destruct (unwritable w p). { exists es1. auto. }
  destruct (path_exists (extends w es1) p).
  - rewrite ?perform_extends, ?extends_app.
    eexists. split; [reflexivity|].
    rewrite !gets_app, !sleeps_app, G1, S1. split; reflexivity.
  - rewrite ?perform_extends, ?extends_app.
    eexists. split; [reflexivity|].
    rewrite !gets_app, !sleeps_app, G1, S1. split; reflexivity.
Qed.

Lemma new_attempt_success (url p : string) (n : nat) (w : world)
    (status : Z) (chunks : list string) :
  net_get net (encode_url url) n = GetResponse status chunks None ->
  (status < 400)%Z ->
  unwritable w (p +:+ ".tmp") = false -> unwritable w p = false ->
  fst (New.attempt net encode_url url p n w) = Returned true.
Proof.
  intros E Hs Ht Hp. unfold New.attempt. rewrite E.
  destruct (status_ok_branches status Hs) as [-> ->]. cbv zeta.
  rewrite !perform_extends, unwritable_extends, Ht.
  rewrite write_chunks_extends, !extends_app.
  rewrite unwritable_extends, Hp. reflexivity.
Qed.

(** C8 on [1model.new.py]: while the attempts end in network-level errors
    or server-side statuses the fetcher tries again, waiting 5 seconds
    times the number of the attempt that failed, up to five attempts;
    it reports failure only once the five attempts are used up. *)
Theorem new_retry_policy (url local : string) (force : bool) (w : world)
    (k : nat) :
  is_Some (makedirs (Posix.dirname (Posix.normpath local)) w) ->
  force = true \/ ~ size_match net url w (New.local_path_of w local) ->
  (forall n, n < k -> transient (net_get net (encode_url url) n)) ->
  let p := New.local_path_of w local in
  let r := New.download_file net encode_url url local force w in
  let es := events_since w (snd r) in
  (5 <= k ->
     fst r = false /\ gets es = 5 /\ sleeps es = [5; 10; 15; 20]%Z)
  /\ (k < 5 ->
      forall status chunks,
        net_get net (encode_url url) k = GetResponse status chunks None ->
        (status < 400)%Z ->
        unwritable w (p +:+ ".tmp") = false -> unwritable w p = false ->
        fst r = true /\ gets es = k + 1
        /\ sleeps es = map linear_delay (seq 0 k)).
Proof.
  intros Hmk Hslow Htr p r es.
  destruct (new_download_slow net encode_url url local force w Hmk Hslow)
    as (pre & Hq & Hd).
  pose proof (quiet_gets _ Hq) as Gp. pose proof (quiet_sleeps _ Hq) as Sp.
  fold p in Hd. split.
  - intros Hk.
    assert (Hr : r = (false,
              extends w (pre ++ failed_passes (encode_url url) New.MAX_RETRIES
                                  linear_delay 0 5))).
    { unfold r. rewrite Hd.
      change New.MAX_RETRIES with (5 + 0).
      rewrite new_retry_failed.
      - simpl New.retry. rewrite extends_app. reflexivity.
      - intros j w0 Hj. apply new_attempt_transient, Htr. lia. }
    unfold es. rewrite Hr. cbn [fst snd].
    rewrite events_since_extends, gets_app, sleeps_app, Gp, Sp.
    split; [reflexivity|]. split; reflexivity.
  - intros Hk status chunks E Hs Ht Hp.
    assert (H5 : New.MAX_RETRIES = k + S (4 - k)) by (unfold New.MAX_RETRIES; lia).
    unfold es, r. rewrite Hd, H5.
    rewrite new_retry_failed
      by (intros j w0 Hj; apply new_attempt_transient, Htr; lia).
    rewrite extends_app. cbn [New.retry]. simpl (0 + k).
    set (w1 := extends w _).
    pose proof (new_attempt_success url p k w1 status chunks E Hs Ht Hp) as Hok.
    destruct (new_attempt_counts url p k w1) as (ea & Hw & Ga & Sa).
    destruct (New.attempt net encode_url url p k w1) as [res w2].
    simpl in Hok, Hw. subst res w2. unfold w1.
    rewrite extends_app. cbn [fst snd].
    rewrite events_since_extends, !gets_app, !sleeps_app.
    rewrite Gp, Sp, Ga, Sa, gets_failed_passes, app_nil_r.
    rewrite sleeps_failed_passes by (unfold New.MAX_RETRIES; lia).
    split; [reflexivity|]. split; reflexivity.
Qed.

End NewPolicy.

(** ** What holds of the files throughout a trace *)

Section Always.

Lemma replay_app (es1 es2 : list event) (f : gmap string string) :
  replay (es1 ++ es2) f = replay es2 (replay es1 f).
Proof. apply fold_left_app. Qed.

Lemma always_nil (P : gmap string string -> Prop) (f : gmap string string) :
  P f -> always P [] f.
Proof. intros H k. rewrite take_nil. exact H. Qed.

Lemma always_start (P : gmap string string -> Prop) (es : list event)
    (f : gmap string string) :
  always P es f -> P f.
Proof. intros H. exact (H 0). Qed.

Lemma always_end (P : gmap string string -> Prop) (es : list event)
    (f : gmap string string) :
  always P es f -> P (replay es f).
Proof.
  intros H. specialize (H (List.length es)). rewrite firstn_all in H. exact H.
Qed.

Lemma always_app (P : gmap string string -> Prop) (es1 es2 : list event)
    (f : gmap string string) :
  always P es1 f -> always P es2 (replay es1 f) -> always P (es1 ++ es2) f.
Proof.
  intros H1 H2 k. rewrite take_app, replay_app.
  destruct (Nat.le_gt_cases (List.length es1) k) as [Hk|Hk].
  - rewrite (take_ge es1 k Hk). apply H2.
  - replace (k - List.length es1) with 0 by lia. simpl. apply H1.
Qed.

Lemma always_one (P : gmap string string -> Prop) (e : event)
    (f : gmap string string) :
  P f -> P (apply_event f e) -> always P [e] f.
Proof. intros H0 H1 [|k]; simpl; [exact H0|]. rewrite take_nil. exact H1. Qed.

Lemma always_impl (P Q : gmap string string -> Prop) (es : list event)
    (f : gmap string string) :
  (forall g, P g -> Q g) -> always P es f -> always Q es f.
Proof. intros H HP k. apply H, HP. Qed.

Lemma replay_leaves (q : string) (es : list event) :
  Forall (leaves q) es -> forall f, replay es f !! q = f !! q.
Proof.
  induction 1 as [|e es He _ IH]; intros f; [reflexivity|].
  simpl. rewrite IH. apply He.
Qed.

Lemma always_leaves (q : string) (es : list event) (f : gmap string string) :
  Forall (leaves q) es -> always (fun g => g !! q = f !! q) es f.
Proof.
  intros H k. apply replay_leaves, Forall_take, H.
Qed.

Lemma tmp_neq (p : string) : p +:+ ".tmp" <> p.
Proof.
  intros H. apply (f_equal String.length) in H.
  rewrite length_app_s in H. simpl in H. lia.
Qed.

(** A disciplined event leaves every file other than the destination and
    its temporary sibling alone. *)
Lemma disciplined_leaves (p q : string) (e : event) :
  disciplined p e -> q <> p -> q <> p +:+ ".tmp" -> leaves q e.
Proof.
  intros He Hp Ht f. destruct e; simpl in *; try reflexivity.
  - subst. apply lookup_insert_ne. congruence.
  - subst. destruct (f !! (p +:+ ".tmp")); [|reflexivity].
    apply lookup_insert_ne. congruence.
  - subst. apply lookup_delete_ne. congruence.
  - destruct He as [-> ->].
    destruct (f !! (p +:+ ".tmp")); [|reflexivity].
    rewrite lookup_insert_ne by congruence.
    apply lookup_delete_ne. congruence.
  - contradiction.
Qed.

Lemma write_events_disciplined (b : bool) (p : string) (chunks : list string) :
  Forall (disciplined p) (write_events b (p +:+ ".tmp") chunks).
Proof.
  unfold write_events. apply Forall_map, Forall_forall. intros; reflexivity.
Qed.

Lemma write_events_leave (b : bool) (p q : string) (chunks : list string) :
  q <> p -> Forall (leaves q) (write_events b p chunks).
Proof.
  intros Hq. unfold write_events. apply Forall_map, Forall_forall.
  intros c _ f. simpl. destruct (f !! p); [|reflexivity].
  apply lookup_insert_ne. congruence.
Qed.

(** The temporary file holds what was written to it. *)
Lemma replay_write_events (p : string) (chunks : list string) (c0 : string)
    (f : gmap string string) :
  f !! p = Some c0 ->
  replay (write_events true p chunks) f !! p = Some (c0 +:+ body_of chunks).
Proof.
  revert c0 f. induction chunks as [|c chunks IH]; intros c0 f Hf.
  - simpl. rewrite app_empty_r. exact Hf.
  - unfold write_events. simpl. destruct (Str.is_empty c) eqn:E; simpl.
    + destruct c; [|discriminate]. apply IH, Hf.
    + rewrite Hf. fold (write_events true p chunks).
      rewrite (IH (c0 +:+ c)) by apply lookup_insert_eq.
      rewrite app_assoc_s. reflexivity.
Qed.

End Always.

(** ** The temp-file discipline of [1model.new.py] *)

Section NewAtomic.

Variable net : network.
Variable encode_url : string -> string.

Lemma never_partial_lookup (u : string) (f0 : gmap string string) (p : string)
    (f g : gmap string string) :
  g !! p = f !! p -> never_partial net u f0 p f -> never_partial net u f0 p g.
Proof. unfold never_partial. intros ->. exact id. Qed.

Lemma always_never_partial_leaves (u : string) (f0 : gmap string string)
    (p : string) (es : list event) (f : gmap string string) :
  Forall (leaves p) es -> never_partial net u f0 p f ->
  always (never_partial net u f0 p) es f.
Proof.
  intros Hl Hf k. eapply never_partial_lookup; [|exact Hf].
  apply replay_leaves, Forall_take, Hl.
Qed.

Lemma get_leaves (u q : string) : leaves q (EvGet u).
Proof. intros f. reflexivity. Qed.

Lemma openw_leaves (p q : string) : q <> p -> leaves q (EvOpenW p).
Proof. intros H f. simpl. apply lookup_insert_ne. congruence. Qed.

(** One pass of the loop keeps the discipline, never leaves a partial
    destination, and when it returns [True] the destination holds a body
    that arrived in full. *)
Lemma new_attempt_tidy (url p : string) (n : nat) (w : world)
    (f0 : gmap string string) :
  never_partial net (encode_url url) f0 p (fs w) ->
  exists es,
    snd (New.attempt net encode_url url p n w) = extends w es
    /\ Forall (disciplined p) es
    /\ always (never_partial net (encode_url url) f0 p) es (fs w)
    /\ (fst (New.attempt net encode_url url p n w) = Returned true ->
        exists c, replay es (fs w) !! p = Some c
                  /\ complete_body net (encode_url url) c).
Proof.
  intros Hinv. unfold New.attempt. cbv zeta. set (u := encode_url url).
  assert (Hget : exists es,
            extends w [EvGet u] = extends w es
            /\ Forall (disciplined p) es
            /\ always (never_partial net u f0 p) es (fs w)).
  { exists [EvGet u]. split; [reflexivity|]. split; [repeat constructor|].
    apply always_never_partial_leaves; [|exact Hinv].
    constructor; [apply get_leaves|constructor]. }
  destruct (net_get net u n) as [e|status chunks broken] eqn:Enet.
  { destruct Hget as (es & ? & ? & ?). exists es. simpl.
    repeat split; auto. discriminate. }
  destruct (status =? 404)%Z.
  { destruct Hget as (es & ? & ? & ?). exists es. simpl.
    repeat split; auto. discriminate. }
  destruct (raises_for_status status).
  { destruct Hget as (es & ? & ? & ?). exists es. simpl.
    repeat split; auto. discriminate. }
  rewrite !perform_extends, unwritable_extends.
  destruct (unwritable w (p +:+ ".tmp")).
  { destruct Hget as (es & ? & ? & ?). exists es. simpl.
    repeat split; auto. discriminate. }
  clear Hget.
  rewrite write_chunks_extends, !extends_app.
  set (tmp := p +:+ ".tmp").
  set (es1 := [EvGet u] ++ [EvOpenW tmp] ++ write_events true tmp chunks).
  assert (Hd1 : Forall (disciplined p) es1).
  { unfold es1. repeat (apply Forall_app; split).
    - repeat constructor.
    - repeat constructor.
    - apply write_events_disciplined. }
  assert (Hl1 : Forall (leaves p) es1).
  { unfold es1. repeat (apply Forall_app; split).
    - constructor; [apply get_leaves|constructor].
    - constructor; [|constructor].
      apply openw_leaves. symmetry. apply tmp_neq.
    - apply write_events_leave. symmetry. apply tmp_neq. }
  assert (Ha1 : always (never_partial net u f0 p) es1 (fs w)).
  { apply always_never_partial_leaves; assumption. }
  destruct broken as [e|].
  { exists es1. simpl. repeat split; auto. discriminate. }
  rewrite unwritable_extends.
  destruct (unwritable w p).
  { exists es1. simpl. repeat split; auto. discriminate. }
  assert (Htmp : replay es1 (fs w) !! tmp = Some (body_of chunks)).
  { unfold es1. rewrite !replay_app.
    apply (replay_write_events tmp chunks EmptyString).
    simpl. apply lookup_insert_eq. }
  assert (Hcomplete : complete_body net u (body_of chunks)).
  { exists n, status, chunks. split; [exact Enet|reflexivity]. }
  set (rm := if path_exists (extends w es1) p then [EvRemove p] else []).
  assert (Hw : (if path_exists (extends w es1) p
                then extends w (es1 ++ [EvRemove p])
                else extends w es1) = extends w (es1 ++ rm)).
  { unfold rm. destruct (path_exists (extends w es1) p).
    - reflexivity.
    - rewrite app_nil_r. reflexivity. }
  rewrite Hw, extends_app. clear Hw.
  assert (Hrm : always (never_partial net u f0 p) rm (replay es1 (fs w))
                /\ replay rm (replay es1 (fs w)) !! tmp = Some (body_of chunks)
                /\ Forall (disciplined p) rm).
  { unfold rm. destruct (path_exists (extends w es1) p).
    - split; [|split].
      + apply always_one; [apply (always_end _ _ _ Ha1)|].
        right; left. simpl. apply lookup_delete_eq.
      + simpl. rewrite lookup_delete_ne by (symmetry; apply tmp_neq).
        exact Htmp.
      + repeat constructor.
    - split; [|split].
      + apply always_nil, (always_end _ _ _ Ha1).
      + exact Htmp.
      + constructor. }
  destruct Hrm as (Ha2 & Htmp2 & Hd2).
  assert (Hfinal : replay ((es1 ++ rm) ++ [EvRename tmp p]) (fs w) !! p
                   = Some (body_of chunks)).
  { rewrite replay_app. change (replay [EvRename tmp p] ?f)
      with (apply_event f (EvRename tmp p)).
    cbn [apply_event]. rewrite replay_app, Htmp2. apply lookup_insert_eq. }
  exists ((es1 ++ rm) ++ [EvRename tmp p]). cbn [fst snd].
  split; [reflexivity|]. split; [|split].
  - apply Forall_app; split; [apply Forall_app; split; assumption|].
    repeat constructor.
  - apply always_app; [apply always_app; assumption|].
    rewrite replay_app. apply always_one.
    + apply (always_end _ _ _ Ha2).
    + right; right. exists (body_of chunks). split; [|exact Hcomplete].
      cbn [apply_event]. rewrite Htmp2. apply lookup_insert_eq.
  - intros _. exists (body_of chunks). split; [exact Hfinal|exact Hcomplete].
Qed.

End NewAtomic.

Section NewAtomicDownload.

Variable net : network.
Variable encode_url : string -> string.

Lemma sleep_leaves (d : Z) (q : string) : leaves q (EvSleep d).
Proof. intros f. reflexivity. Qed.

Lemma new_retry_tidy (url p : string) (f0 : gmap string string) (rem : nat) :
  forall (n : nat) (w : world),
  never_partial net (encode_url url) f0 p (fs w) ->
  exists es,
    snd (New.retry net encode_url url p n rem w) = extends w es
    /\ Forall (disciplined p) es
    /\ always (never_partial net (encode_url url) f0 p) es (fs w)
    /\ (fst (New.retry net encode_url url p n rem w) = true ->
        exists c, replay es (fs w) !! p = Some c
                  /\ complete_body net (encode_url url) c).
Proof.
  induction rem as [|rem IH]; intros n w Hinv.
  - exists []. simpl. rewrite extends_nil.
    split; [reflexivity|]. split; [constructor|].
    split; [apply always_nil, Hinv|discriminate].
  - cbn [New.retry].
    destruct (new_attempt_tidy net encode_url url p n w f0 Hinv)
      as (ea & Hw & Hd & Ha & Hok).
    destruct (New.attempt net encode_url url p n w) as [[ok|] w1];
      cbn [fst snd] in *; subst w1.
    + exists ea. cbn [fst snd]. split; [reflexivity|].
      split; [exact Hd|]. split; [exact Ha|].
      intros ->. apply Hok. reflexivity.
    + set (sl := if (n <? New.MAX_RETRIES - 1)%nat
                 then [EvSleep (New.RETRY_DELAY * (Z.of_nat n + 1))] else []).
      assert (Hsl : (if (n <? New.MAX_RETRIES - 1)%nat
                     then New.retry net encode_url url p (S n) rem
                            (perform (EvSleep (New.RETRY_DELAY * (Z.of_nat n + 1)))
                               (extends w ea))
                     else New.retry net encode_url url p (S n) rem (extends w ea))
                    = New.retry net encode_url url p (S n) rem
                        (extends w (ea ++ sl))).
      { unfold sl. destruct (n <? New.MAX_RETRIES - 1)%nat.
        - rewrite perform_extends, extends_app. reflexivity.
        - rewrite app_nil_r. reflexivity. }
      rewrite Hsl. clear Hsl.
      assert (Hlsl : Forall (leaves p) sl).
      { unfold sl. destruct (n <? New.MAX_RETRIES - 1)%nat;
          repeat constructor. }
      assert (Hdsl : Forall (disciplined p) sl).
      { unfold sl. destruct (n <? New.MAX_RETRIES - 1)%nat;
          repeat constructor. }
      assert (Ha2 : always (never_partial net (encode_url url) f0 p)
                      (ea ++ sl) (fs w)).
      { apply always_app; [exact Ha|].
        apply always_never_partial_leaves; [exact Hlsl|].
        apply (always_end _ _ _ Ha). }
      destruct (IH (S n) (extends w (ea ++ sl)) (always_end _ _ _ Ha2))
        as (er & Hw & Hdr & Har & Hokr).
      exists ((ea ++ sl) ++ er). rewrite Hw, extends_app.
      split; [reflexivity|]. split; [|split].
      * apply Forall_app; split; [apply Forall_app; split; assumption|exact Hdr].
      * apply always_app; assumption.
      * intros Hret. rewrite replay_app. apply Hokr, Hret.
Qed.

End NewAtomicDownload.

(** The whole call keeps the discipline. *)
Lemma new_download_tidy (net : network) (encode_url : string -> string)
    (url local : string) (force : bool) (w : world) :
  let p := New.local_path_of w local in
  let r := New.download_file net encode_url url local force w in
  exists es,
    snd r = extends w es
    /\ Forall (disciplined p) es
    /\ always (never_partial net (encode_url url) (fs w) p) es (fs w)
    /\ (fst r = true ->
        gets es = 0
        \/ exists c, fs (snd r) !! p = Some c
                     /\ complete_body net (encode_url url) c).
Proof.
  intros p r. unfold r, New.download_file. fold p.
  destruct (makedirs (Posix.dirname (Posix.normpath local)) w) as [w1|] eqn:Hmk.
  2: { exists []. cbn [fst snd]. rewrite extends_nil.
       split; [reflexivity|]. split; [constructor|].
       split; [apply always_nil; left; reflexivity|discriminate]. }
  destruct (makedirs_quiet _ _ _ Hmk) as (pre0 & -> & Hq0).
  destruct (new_probe_spec net url force (extends w pre0))
    as (pre1 & Hq1 & Hw & _ & _).
  destruct (New.probe net url force (extends w pre0)) as [rs w2].
  cbn [snd] in Hw. subst w2. rewrite extends_app.
  assert (Hq : quiet (pre0 ++ pre1)) by (apply quiet_app; assumption).
  set (pre := pre0 ++ pre1) in *.
  assert (Hinv : never_partial net (encode_url url) (fs w) p
                   (fs (extends w pre))).
  { left. cbn [fs extends]. rewrite (quiet_replay _ _ Hq). reflexivity. }
  assert (Hapre : always (never_partial net (encode_url url) (fs w) p)
                    pre (fs w)).
  { apply always_never_partial_leaves;
      [apply quiet_leaves, Hq|left; reflexivity]. }
  match goal with |- context [if ?c then _ else _] => destruct c end.
  - exists pre. cbn [fst snd]. split; [reflexivity|].
    split; [apply quiet_disciplined, Hq|]. split; [exact Hapre|].
    intros _. left. apply quiet_gets, Hq.
  - destruct (new_retry_tidy net encode_url url p (fs w) New.MAX_RETRIES 0
                (extends w pre) Hinv) as (er & Hw & Hd & Ha & Hok).
    exists (pre ++ er). rewrite Hw, extends_app.
    split; [reflexivity|].
    split; [apply Forall_app; split; [apply quiet_disciplined, Hq|exact Hd]|].
    split; [apply always_app; [exact Hapre|exact Ha]|].
    intros Hret. right. cbn [fs extends].
    rewrite replay_app. apply Hok, Hret.
Qed.

(** C3 on [1model.new.py]: all the fetcher does to files is to write the
    body to the sibling [.tmp] file and to remove the destination and
    rename the [.tmp] file over it; at every moment of the call the
    destination is as it was before, or absent, or holds a body that was
    received in full; no other file changes; and a call that reports
    success without having skipped the transfer leaves such a full body at
    the destination. *)
Theorem new_download_atomic (net : network) (encode_url : string -> string)
    (url local : string) (force : bool) (w : world) :
  let p := New.local_path_of w local in
  let r := New.download_file net encode_url url local force w in
  exists es,
    snd r = extends w es
    /\ Forall (disciplined p) es
    /\ always (never_partial net (encode_url url) (fs w) p) es (fs w)
    /\ always (fun f => forall q, q <> p -> q <> p +:+ ".tmp" ->
                 f !! q = fs w !! q) es (fs w)
    /\ (fst r = true ->
        gets es = 0
        \/ exists c, fs (snd r) !! p = Some c
                     /\ complete_body net (encode_url url) c).
Proof.
  intros p r.
  destruct (new_download_tidy net encode_url url local force w)
    as (es & Hw & Hd & Ha & Hok).
  exists es. split; [exact Hw|]. split; [exact Hd|]. split; [exact Ha|].
  split; [|exact Hok].
  intros k q Hq Hqt.
  apply replay_leaves, Forall_take.
  eapply Forall_impl; [exact Hd|].
  intros e He. apply (disciplined_leaves p q e He Hq Hqt).
Qed.

(** ** The fast path of [1model.new.py] *)

Section NewFastPath.

Variable net : network.
Variable encode_url : string -> string.

Lemma size_match_dec (url : string) (w : world) (p : string) :
  size_match net url w p \/ ~ size_match net url w p.
Proof.
  unfold size_match.
  destruct (path_exists w p); [|right; intros [? _]; discriminate].
  destruct (net_head net url) as [|status len];
    [right; intros (_ & n & ? & _); discriminate|].
  destruct (Z.eq_dec status 200) as [->|Hs];
    [|right; intros (_ & n & [= ? ?] & _); contradiction].
  destruct len as [| |n];
    try (right; intros (_ & n & ? & _); discriminate).
  destruct (Z.eq_dec n (-1)) as [->|Hn];
    [right; intros (_ & n & [= <-] & ? & _); contradiction|].
  destruct (Z.eq_dec (getsize w p) n) as [Hg|Hg].
  - left. split; [reflexivity|]. exists n. auto.
  - right. intros (_ & m & [= <-] & _ & ?). contradiction.
Qed.

(** A loop with at least one pass to go starts at least one transfer. *)
Lemma new_retry_gets (url p : string) (n rem : nat) (w : world) :
  exists es,
    snd (New.retry net encode_url url p n (S rem) w) = extends w es
    /\ 1 <= gets es.
Proof.
  cbn [New.retry].
  destruct (new_attempt_counts net encode_url url p n w) as (ea & Hw & Ga & _).
  destruct (New.attempt net encode_url url p n w) as [[ok|] w1];
    cbn [snd] in *; subst w1.
  - exists ea. split; [reflexivity|lia].
  - assert (Hany : forall w2, exists er,
              snd (New.retry net encode_url url p (S n) rem w2) = extends w2 er).
    { intros w2.
      destruct (new_retry_tidy net encode_url url p (fs w2) rem (S n) w2)
        as (er & Hr & _); [left; reflexivity|].
      exists er. exact Hr. }
    destruct (n <? New.MAX_RETRIES - 1)%nat.
    + destruct (Hany (perform (EvSleep (New.RETRY_DELAY * (Z.of_nat n + 1)))
                        (extends w ea))) as (er & ->).
      rewrite perform_extends, !extends_app.
      eexists. split; [reflexivity|]. rewrite !gets_app. lia.
    + destruct (Hany (extends w ea)) as (er & ->).
      rewrite !extends_app.
      eexists. split; [reflexivity|]. rewrite !gets_app. lia.
Qed.

End NewFastPath.

(** C4: without [force] and once the directory is there, the fetcher
    reports success without any transfer exactly when the local file exists
    and the probe answered 200 with a Content-Length other than -1 that
    equals the size of the file; then no file changes.  In every other
    case (the probe fails, the length is absent, malformed or -1, the sizes
    differ, the file is missing) a transfer is started. *)
Theorem new_fast_path (net : network) (encode_url : string -> string)
    (url local : string) (w : world) :
  is_Some (makedirs (Posix.dirname (Posix.normpath local)) w) ->
  let p := New.local_path_of w local in
  let r := New.download_file net encode_url url local false w in
  let es := events_since w (snd r) in
  (size_match net url w p <-> fst r = true /\ gets es = 0)
  /\ (size_match net url w p -> fs (snd r) = fs w)
  /\ (~ size_match net url w p -> 1 <= gets es).
Proof.
  intros Hmk p r es.
  assert (Hfast : size_match net url w p ->
                  fst r = true /\ gets es = 0 /\ fs (snd r) = fs w).
  { intros Hm.
    destruct (new_download_fast net encode_url url local w Hmk Hm)
      as (pre & Hq & Hd).
    unfold es, r. rewrite Hd. cbn [fst snd].
    rewrite events_since_extends. split; [reflexivity|].
    split; [apply quiet_gets, Hq|].
    cbn [fs extends]. apply quiet_replay, Hq. }
  assert (Hslow : ~ size_match net url w p -> 1 <= gets es).
  { intros Hm.
    destruct (new_download_slow net encode_url url local false w Hmk
                (or_intror Hm)) as (pre & Hq & Hd).
    unfold es, r. rewrite Hd. fold p.
    destruct (new_retry_gets net encode_url url p 0 4 (extends w pre))
      as (er & Hr & Hg).
    change New.MAX_RETRIES with 5. rewrite Hr, extends_app.
    rewrite events_since_extends, gets_app. lia. }
  split; [split|split].
  - intros Hm. destruct (Hfast Hm) as (? & ? & _). auto.
  - intros [_ Hg].
    destruct (size_match_dec net url w p) as [Hm|Hm]; [exact Hm|].
    specialize (Hslow Hm). lia.
  - intros Hm. apply (Hfast Hm).
  - exact Hslow.
Qed.

Lemma new_fast_path_witness :
  let r := New.download_file (net_sized 5) id "https://static.l2d.su/a.png"
             "a.png" false mirrored_world in
  fst r = true /\ gets (events_since mirrored_world (snd r)) = 0.
Proof.
  apply (new_fast_path (net_sized 5) id "https://static.l2d.su/a.png" "a.png"
           mirrored_world).
  - eexists. reflexivity.
  - split; [reflexivity|]. exists 5%Z.
    split; [reflexivity|]. split; [discriminate|reflexivity].
Defined.

Lemma new_retry_policy_witness :
  let r := New.download_file net_down id "https://static.l2d.su/a.png"
             "a.png" true empty_world in
  fst r = false
  /\ gets (events_since empty_world (snd r)) = 5
  /\ sleeps (events_since empty_world (snd r)) = [5; 10; 15; 20]%Z.
Proof.
  apply (new_retry_policy net_down id "https://static.l2d.su/a.png" "a.png"
           true empty_world 5).
  - eexists. reflexivity.
  - left. reflexivity.
  - intros n _. exact I.
  - lia.
Defined.

(** The other half of the policy on an example: two transient failures,
    then success at the third attempt after waits of 5 and 10 seconds. *)
Example new_retry_then_success :
  let r := New.download_file net_flaky id "https://static.l2d.su/a.png"
             "a.png" true empty_world in
  fst r = true
  /\ gets (events_since empty_world (snd r)) = 3
  /\ sleeps (events_since empty_world (snd r)) = [5; 10]%Z
  /\ fs (snd r) !! "a.png" = Some "abcdef"
  /\ fs (snd r) !! "a.png.tmp" = None.
Proof. vm_compute. repeat split. Qed.

(** ** The fetcher of [1model.py] *)

Section OldFetcherFacts.

Variable net : network.

Lemma old_attempt_transient (url p : string) (n : nat) (w : world) :
  transient (net_get net url n) ->
  Old.attempt net url p n w = (Failed, extends w [EvGet url]).
Proof.
  intros H. unfold Old.attempt.
  destruct (net_get net url n) as [[| |]|status chunks broken];
    try reflexivity; simpl in H; [contradiction|].
  unfold raises_for_status.
  destruct (Z.leb_spec 400 status); [|lia].
  destruct (Z.ltb_spec status 600); [|lia].
  destruct (Z.ltb_spec status 500); [lia|]. reflexivity.
Qed.

Lemma old_attempt_client_error (url p : string) (n : nat) (w : world) :
  client_error (net_get net url n) ->
  Old.attempt net url p n w = (Returned false, extends w [EvGet url]).
Proof.
  intros H. unfold Old.attempt.
  destruct (net_get net url n) as [e|status chunks broken]; simpl in H;
    [contradiction|].
  unfold raises_for_status.
  destruct (Z.leb_spec 400 status); [|lia].
  destruct (Z.ltb_spec status 600); [|lia].
  destruct (Z.ltb_spec status 500); [|lia]. reflexivity.
Qed.

Lemma old_retry_failed (url p : string) (k : nat) :
  forall (n rem : nat) (w : world),
  (forall j, n <= j < n + k -> transient (net_get net url j)) ->
  Old.retry net url p n (k + rem) w
  = Old.retry net url p (n + k) rem
      (extends w (failed_passes url Old.MAX_RETRIES constant_delay n k)).
Proof.
  induction k as [|k IH]; intros n rem w H.
  - simpl. rewrite Nat.add_0_r, extends_nil. reflexivity.
  - change (S k + rem) with (S (k + rem)).
    cbn [Old.retry failed_passes].
    rewrite (old_attempt_transient url p n w) by (apply H; lia).
    replace (n + S k) with (S n + k) by lia.
    destruct (n <? Old.MAX_RETRIES - 1)%nat.
    + rewrite IH by (intros j Hj; apply H; lia).
      rewrite perform_extends, !extends_app. reflexivity.
    + rewrite IH by (intros j Hj; apply H; lia).
      rewrite !extends_app. reflexivity.
Qed.

(** The older fetcher gives up at once on any client-side status. *)
Lemma old_client_error_no_retry (url local : string) (w : world) :
  is_Some (makedirs (Posix.dirname local) w) ->
  client_error (net_get net url 0) ->
  let r := Old.download_file net url local w in
  fst r = false
  /\ gets (events_since w (snd r)) = 1
  /\ sleeps (events_since w (snd r)) = [].
Proof.
  intros [w1 Hmk] Hc r. unfold r, Old.download_file. rewrite Hmk.
  destruct (makedirs_quiet _ _ _ Hmk) as (pre & -> & Hq).
  change Old.MAX_RETRIES with 5. cbn [Old.retry].
  rewrite (old_attempt_client_error url local 0 _ Hc), extends_app.
  cbn [fst snd]. rewrite events_since_extends, gets_app, sleeps_app.
  rewrite (quiet_gets _ Hq), (quiet_sleeps _ Hq). repeat split.
Qed.

(** The older fetcher waits the same 10 seconds before every retry. *)
Lemma old_constant_delay (url local : string) (w : world) :
  is_Some (makedirs (Posix.dirname local) w) ->
  (forall n, n < 5 -> transient (net_get net url n)) ->
  let r := Old.download_file net url local w in
  fst r = false
  /\ gets (events_since w (snd r)) = 5
  /\ sleeps (events_since w (snd r)) = [10; 10; 10; 10]%Z.
Proof.
  intros [w1 Hmk] Ht r. unfold r, Old.download_file. rewrite Hmk.
  destruct (makedirs_quiet _ _ _ Hmk) as (pre & -> & Hq).
  change Old.MAX_RETRIES with (5 + 0).
  rewrite old_retry_failed by (intros j Hj; apply Ht; lia).
  cbn [Old.retry fst snd]. rewrite extends_app.
  rewrite events_since_extends, gets_app, sleeps_app.
  rewrite (quiet_gets _ Hq), (quiet_sleeps _ Hq). repeat split.
Qed.

End OldFetcherFacts.

Section NewClientErrors.

Variable net : network.
Variable encode_url : string -> string.

(** The newer fetcher gives up at once on a 404. *)
Lemma new_404_no_retry (url local : string) (force : bool) (w : world)
    (chunks : list string) (broken : option net_error) :
  is_Some (makedirs (Posix.dirname (Posix.normpath local)) w) ->
  force = true \/ ~ size_match net url w (New.local_path_of w local) ->
  net_get net (encode_url url) 0 = GetResponse 404 chunks broken ->
  let r := New.download_file net encode_url url local force w in
  fst r = false
  /\ gets (events_since w (snd r)) = 1
  /\ sleeps (events_since w (snd r)) = [].
Proof.
  intros Hmk Hslow E r.
  destruct (new_download_slow net encode_url url local force w Hmk Hslow)
    as (pre & Hq & Hd).
  unfold r. rewrite Hd. change New.MAX_RETRIES with 5. cbn [New.retry].
  rewrite (new_attempt_404 net encode_url url _ 0 _ chunks broken E).
  rewrite extends_app. cbn [fst snd].
  rewrite events_since_extends, gets_app, sleeps_app.
  rewrite (quiet_gets _ Hq), (quiet_sleeps _ Hq). repeat split.
Qed.

(** Any other client-side status uses up the whole budget. *)
Lemma new_client_error_retried (url local : string) (force : bool) (w : world) :
  is_Some (makedirs (Posix.dirname (Posix.normpath local)) w) ->
  force = true \/ ~ size_match net url w (New.local_path_of w local) ->
  (forall n, n < 5 ->
     exists status chunks broken,
       net_get net (encode_url url) n = GetResponse status chunks broken
       /\ (400 <= status < 500)%Z /\ status <> 404%Z) ->
  let r := New.download_file net encode_url url local force w in
  fst r = false
  /\ gets (events_since w (snd r)) = 5
  /\ sleeps (events_since w (snd r)) = [5; 10; 15; 20]%Z.
Proof.
  intros Hmk Hslow H r.
  destruct (new_download_slow net encode_url url local force w Hmk Hslow)
    as (pre & Hq & Hd).
  unfold r. rewrite Hd. change New.MAX_RETRIES with (5 + 0).
  rewrite new_retry_failed.
  - cbn [New.retry fst snd]. rewrite extends_app.
    rewrite events_since_extends, gets_app, sleeps_app.
    rewrite (quiet_gets _ Hq), (quiet_sleeps _ Hq). repeat split.
  - intros j w0 Hj.
    destruct (H j) as (status & chunks & broken & E & Hs & Hne); [lia|].
    apply (new_attempt_client_error net encode_url url _ j w0 status chunks
             broken E Hs Hne).
Qed.

End NewClientErrors.

(** C2 at the failing input: [download_file] of [1model.new.py], every
    transfer answered 403.  The call makes five transfers and waits 5, 10,
    15 and 20 seconds before it reports failure. *)
Theorem new_403_is_retried :
  let r := New.download_file net_403 id "https://static.l2d.su/m/x.model3.json"
             "m/x.model3.json" true empty_world in
  fst r = false
  /\ gets (events_since empty_world (snd r)) = 5
  /\ sleeps (events_since empty_world (snd r)) = [5; 10; 15; 20]%Z.
Proof. vm_compute. repeat split. Qed.

(** C3, as stated, fails on [1model.py]: its fetcher writes the body
    straight to the destination, so a body that breaks leaves the part
    that arrived at the destination itself. *)
Lemma old_download_leaves_partial :
  let r := Old.download_file (net_broken OtherRequest)
             "https://static.l2d.su/a.png" "a.png" empty_world in
  fst r = false
  /\ fs (snd r) !! "a.png" = Some "abc"
  /\ ~ never_partial (net_broken OtherRequest) "https://static.l2d.su/a.png"
         (fs empty_world) "a.png" (fs (snd r)).
Proof.
  split; [reflexivity|]. split; [reflexivity|].
  intros [H|[H|(c & _ & n & status & chunks & H & _)]]; discriminate.
Qed.

(** C8, as stated, fails on [1model.py]: the waits before its retries are
    10, 10, 10 and 10 seconds, not the delay times the attempt number. *)
Lemma old_backoff_not_linear :
  let r := Old.download_file net_down "https://static.l2d.su/a.png" "a.png"
             empty_world in
  fst r = false
  /\ gets (events_since empty_world (snd r)) = 5
  /\ sleeps (events_since empty_world (snd r)) = [10; 10; 10; 10]%Z
  /\ sleeps (events_since empty_world (snd r))
     <> map (fun n => (Old.RETRY_DELAY * (Z.of_nat n + 1))%Z) (seq 0 4).
Proof. vm_compute. repeat split. discriminate. Qed.

(** ** The generic asset extractor *)

Section JsonInduction.

Variable P : json -> Prop.
Hypothesis Hnull : P JNull.
Hypothesis Hbool : forall b, P (JBool b).
Hypothesis Hnum : forall n, P (JNum n).
Hypothesis Hstr : forall s, P (JStr s).
Hypothesis Harr : forall l, Forall P l -> P (JArr l).
Hypothesis Hobj : forall kvs, Forall (fun kv => P (snd kv)) kvs -> P (JObj kvs).

Fixpoint json_induction (j : json) : P j :=
  match j with
  | JNull => Hnull
  | JBool b => Hbool b
  | JNum n => Hnum n
  | JStr s => Hstr s
  | JArr l =>
      Harr l ((fix go (l : list json) : Forall P l :=
                 match l with
                 | [] => ListDef.Forall_nil P
                 | x :: r => ListDef.Forall_cons P x r (json_induction x) (go r)
                 end) l)
  | JObj kvs =>
      Hobj kvs ((fix go (kvs : list (string * json))
                   : Forall (fun kv => P (snd kv)) kvs :=
                   match kvs with
                   | [] => ListDef.Forall_nil _
                   | kv :: r =>
                       ListDef.Forall_cons _ kv r (json_induction (snd kv)) (go r)
                   end) kvs)
  end.

End JsonInduction.

Section ExtractFacts.

Lemma walk_items (l : list json) :
  Forall walk_adds l ->
  forall (found : gset string) (s : string),
    s ∈ (fix items (l : list json) (found : gset string) :=
           match l with
           | [] => found
           | i :: rest => items rest (_walk i found)
           end) l found
    <-> s ∈ found \/ exists v, In v l /\ string_leaf v s /\ is_asset s = true.
Proof.
  induction 1 as [|x l Hx _ IH]; intros found s.
  - split; [auto|]. intros [H|(v & [] & _)]. exact H.
  - rewrite IH, (Hx found s). split.
    + intros [[H|[H1 H2]]|(v & Hv & H1 & H2)].
      * left. exact H.
      * right. exists x. split; [left; reflexivity|auto].
      * right. exists v. split; [right; exact Hv|auto].
    + intros [H|(v & [->|Hv] & H1 & H2)].
      * left; left. exact H.
      * left; right. auto.
      * right. exists v. auto.
Qed.

Lemma walk_values (kvs : list (string * json)) :
  Forall (fun kv => walk_adds (snd kv)) kvs ->
  forall (found : gset string) (s : string),
    s ∈ (fix values (kvs : list (string * json)) (found : gset string) :=
           match kvs with
           | [] => found
           | (_, v) :: rest => values rest (_walk v found)
           end) kvs found
    <-> s ∈ found
        \/ exists k v, In (k, v) kvs /\ string_leaf v s /\ is_asset s = true.
Proof.
  induction 1 as [|[k x] kvs Hx _ IH]; intros found s.
  - split; [auto|]. intros [H|(k & v & [] & _)]. exact H.
  - rewrite IH, (Hx found s). simpl. split.
    + intros [[H|[H1 H2]]|(k' & v & Hv & H1 & H2)].
      * left. exact H.
      * right. exists k, x. split; [left; reflexivity|auto].
      * right. exists k', v. split; [right; exact Hv|auto].
    + intros [H|(k' & v & [[= -> ->]|Hv] & H1 & H2)].
      * left; left. exact H.
      * left; right. auto.
      * right. exists k', v. auto.
Qed.

Lemma walk_spec (obj : json) : walk_adds obj.
Proof.
  induction obj as [|b|n|s0|l H|kvs H] using json_induction; intros found s.
  - simpl. split; [auto|]. intros [H|[H _]]; [exact H|inversion H].
  - simpl. split; [auto|]. intros [H|[H _]]; [exact H|inversion H].
  - simpl. split; [auto|]. intros [H|[H _]]; [exact H|inversion H].
  - simpl. destruct (is_asset s0) eqn:E.
    + rewrite elem_of_union, elem_of_singleton. split.
      * intros [->|H]; [right; split; [constructor|exact E]|left; exact H].
      * intros [H|[H _]]; [right; exact H|]. inversion H; subst. left; reflexivity.
    + split; [auto|]. intros [H|[H Ha]]; [exact H|].
      inversion H; subst. congruence.
  - cbn [_walk]. rewrite (walk_items l H found s). split.
    + intros [Hf|(v & Hv & H1 & H2)]; [left; exact Hf|].
      right. split; [|exact H2]. econstructor; eassumption.
    + intros [Hf|[Hl Ha]]; [left; exact Hf|].
      inversion Hl; subst. right. eauto.
  - cbn [_walk]. rewrite (walk_values kvs H found s). split.
    + intros [Hf|(k & v & Hv & H1 & H2)]; [left; exact Hf|].
      right. split; [|exact H2]. econstructor; eassumption.
    + intros [Hf|[Hl Ha]]; [left; exact Hf|].
      inversion Hl; subst. right. eauto.
Qed.

End ExtractFacts.

Section TaskFacts.

Variable urljoin : string -> string -> string.

Lemma model_tasks_rels (data : json) (local_path url : string) :
  map task_rel (model_tasks urljoin data local_path url)
  = filter (fun rel => Posix.basename rel <> Posix.basename local_path)
           (elements (extract_assets data)).
Proof.
  unfold model_tasks. rewrite map_map. simpl. apply map_id.
Qed.

End TaskFacts.


(** ** The pieces of the matcher *)

Section ReFacts.

Context {R : Type}.

Lemma drop_app_length_s (p r : string) : Str.drop (String.length p) (p +:+ r) = r.
Proof. induction p as [|a p IH]; [destruct r; reflexivity|exact IH]. Qed.

Lemma take_app_length_s (p r : string) : Str.take (String.length p) (p +:+ r) = p.
Proof.
  induction p as [|a p IH]; [destruct r; reflexivity|].
  simpl. rewrite IH. reflexivity.
Qed.

Lemma between_app (a b : string) : Re.between (a +:+ b) b = a.
Proof.
  unfold Re.between. rewrite length_app_s.
  replace (String.length a + String.length b - String.length b)
    with (String.length a) by lia.
  apply take_app_length_s.
Qed.

Lemma lit_app (p rest : string) (k : string -> option R) :
  Re.lit p (p +:+ rest) k = k rest.
Proof. unfold Re.lit. rewrite startswith_app, drop_app_length_s. reflexivity. Qed.

Lemma lit_some (p s : string) (k : string -> option R) (r : R) :
  Re.lit p s k = Some r -> exists rest, s = p +:+ rest /\ k rest = Some r.
Proof.
  unfold Re.lit. destruct (Str.startswith s p) eqn:E; [|discriminate].
  apply startswith_inv in E as [rest ->]. rewrite drop_app_length_s.
  intros H. exists rest. auto.
Qed.

Lemma any_char_some (s : string) (k : string -> option R) (r : R) :
  Re.any_char s k = Some r ->
  exists c rest, s = String c rest /\ c <> newline /\ k rest = Some r.
Proof.
  destruct s as [|a s]; [discriminate|]. simpl.
  destruct (Ascii.eqb_spec a (ascii_of_nat 10)); [discriminate|].
  intros H. exists a, s. auto.
Qed.

Lemma lazy_any_some (s : string) (k : string -> option R) (r : R) :
  Re.lazy_any s k = Some r ->
  exists name rest,
    s = name +:+ rest /\ no_newline name = true /\ k rest = Some r.
Proof.
  induction s as [|a s IH]; simpl.
  - destruct (k "") eqn:E; [|discriminate]. intros [= ->].
    exists "", "". auto.
  - destruct (k (String a s)) eqn:E.
    + intros [= ->]. exists "", (String a s). auto.
    + destruct (Ascii.eqb a (ascii_of_nat 10)) eqn:Ea; [discriminate|].
      intros H. destruct (IH H) as (name & rest & -> & Hn & Hk).
      exists (String a name), rest. split; [reflexivity|]. split; [|exact Hk].
      unfold no_newline, newline in *. simpl. rewrite Ea, Hn. reflexivity.
Qed.

Lemma lazy_any_complete (name rest : string) (k : string -> option R) :
  no_newline name = true -> is_Some (k rest) ->
  is_Some (Re.lazy_any (name +:+ rest) k).
Proof.
  intros Hn Hk. induction name as [|a name IH].
  - simpl. destruct rest; simpl; destruct Hk as [r ->]; eauto.
  - unfold no_newline, newline in Hn. simpl in Hn.
    apply andb_prop in Hn as [Ha Hn]. apply negb_true_iff in Ha.
    simpl. destruct (k (String a (name +:+ rest))); [eauto|].
    rewrite Ha. apply IH, Hn.
Qed.

Lemma star_greedy_some (cls : ascii -> bool) (s : string)
    (k : string -> option R) (r : R) :
  Re.star_greedy cls s k = Some r ->
  exists run rest,
    s = run +:+ rest /\ Str.all_chars cls run = true /\ k rest = Some r.
Proof.
  induction s as [|a s IH]; simpl.
  - intros H. exists "", "". auto.
  - destruct (cls a) eqn:Ea.
    + destruct (Re.star_greedy cls s k) eqn:E.
      * intros [= ->]. destruct (IH eq_refl) as (run & rest & -> & Hr & Hk).
        exists (String a run), rest. simpl. rewrite Ea, Hr. auto.
      * intros H. exists "", (String a s). auto.
    + intros H. exists "", (String a s). auto.
Qed.

Lemma star_greedy_complete (cls : ascii -> bool) (run rest : string)
    (k : string -> option R) :
  Str.all_chars cls run = true -> is_Some (k rest) ->
  is_Some (Re.star_greedy cls (run +:+ rest) k).
Proof.
  intros Hr Hk. induction run as [|a run IH].
  - simpl. destruct rest as [|b rest]; simpl; [exact Hk|].
    destruct (cls b); [|exact Hk].
    destruct (Re.star_greedy cls rest k); [eauto|exact Hk].
  - simpl in Hr. apply andb_prop in Hr as [Ha Hr].
    simpl. rewrite Ha. destruct (IH Hr) as [r ->]. eauto.
Qed.

Lemma plus_greedy_some (cls : ascii -> bool) (s : string)
    (k : string -> option R) (r : R) :
  Re.plus_greedy cls s k = Some r ->
  exists run rest,
    s = run +:+ rest /\ run <> "" /\ Str.all_chars cls run = true
    /\ k rest = Some r.
Proof.
  destruct s as [|a s]; [discriminate|]. simpl.
  destruct (cls a) eqn:Ea; [|discriminate]. intros H.
  destruct (star_greedy_some cls s k r H) as (run & rest & -> & Hr & Hk).
  exists (String a run), rest. simpl. rewrite Ea, Hr.
  repeat split; auto.
Qed.

Lemma plus_greedy_complete (cls : ascii -> bool) (run rest : string)
    (k : string -> option R) :
  run <> "" -> Str.all_chars cls run = true -> is_Some (k rest) ->
  is_Some (Re.plus_greedy cls (run +:+ rest) k).
Proof.
  intros Hne Hr Hk. destruct run as [|a run]; [congruence|].
  simpl in Hr. apply andb_prop in Hr as [Ha Hr].
  simpl. rewrite Ha. apply star_greedy_complete; assumption.
Qed.

End ReFacts.

(** ** The manifest pattern: matches are sound, complete and leftmost *)

Section PatternFacts.

Lemma frag_assoc (g1 name ver rest : string) :
  ("'" +:+ g1 +:+ "live2dMaster" +:+ name +:+ ".json" +:+ "?"
   +:+ ver +:+ "'") +:+ rest
  = "'" +:+ (g1 +:+ ("live2dMaster" +:+ (name +:+ (".json" +:+ ("?"
      +:+ (ver +:+ ("'" +:+ rest))))))).
Proof. rewrite !app_assoc_s. reflexivity. Qed.

Lemma name_assoc (name rest : string) :
  ("live2dMaster" +:+ name +:+ ".json") +:+ rest
  = "live2dMaster" +:+ (name +:+ (".json" +:+ rest)).
Proof. rewrite !app_assoc_s. reflexivity. Qed.

Lemma match_at_sound (n : nat) (s : string) (m : Re.re_match) :
  Re.match_at n s = Some m ->
  exists g1 name rest,
    s = Re.group0 m +:+ rest
    /\ shaped (Re.group0 m) g1 name (Re.group3 m)
    /\ Re.group2 m = "live2dMaster" +:+ name +:+ ".json"
    /\ Re.m_start m = n.
Proof.
  unfold Re.match_at. intros H.
  apply lit_some in H as (s1 & E0 & H).
  assert (Hg : exists g1 s2,
            s1 = g1 +:+ s2 /\ is_prefix_group g1
            /\ Re.lit "live2dMaster" s2 (fun s3 =>
               Re.lazy_any s3 (fun s4 =>
               Re.lit ".json" s4 (fun s5 =>
               Re.lit "?" s5 (fun s6 =>
               Re.plus_greedy Re.alnum s6 (fun s7 =>
               Re.lit "'" s7 (fun s8 =>
                 Some (Re.Match n (Re.between s s8)
                         (if (String.length s1 =? String.length s2)%nat
                          then None else Some (Re.between s1 s2))
                         (Re.between s2 s5) (Re.between s6 s7)))))))) = Some m).
  { unfold Re.opt_greedy in H.
    match type of H with match ?x with _ => _ end = _ =>
      destruct x as [m'|] eqn:E end.
    - injection H as ->.
      apply any_char_some in E as (c & s' & Es & Hc & E).
      apply lit_some in E as (s2 & Es' & E).
      exists (String c "/json/"), s2. split; [subst; reflexivity|].
      split; [right; exists c; auto|exact E].
    - exists "", s1. split; [reflexivity|]. split; [left; reflexivity|exact H]. }
  clear H. destruct Hg as (g1 & s2 & E1 & Hg1 & H).
  apply lit_some in H as (s3 & E2 & H).
  apply lazy_any_some in H as (name & s4 & E3 & Hname & H).
  apply lit_some in H as (s5 & E4 & H).
  apply lit_some in H as (s6 & E5 & H).
  apply plus_greedy_some in H as (ver & s7 & E6 & Hne & Hver & H).
  apply lit_some in H as (s8 & E7 & H).
  injection H as <-. cbn [Re.group0 Re.group2 Re.group3 Re.m_start].
  assert (Hs : s = ("'" +:+ g1 +:+ "live2dMaster" +:+ name +:+ ".json" +:+ "?"
                    +:+ ver +:+ "'") +:+ s8).
  { rewrite frag_assoc. congruence. }
  assert (Hs2 : s2 = ("live2dMaster" +:+ name +:+ ".json") +:+ s5).
  { rewrite name_assoc. congruence. }
  assert (B0 : Re.between s s8
               = "'" +:+ g1 +:+ "live2dMaster" +:+ name +:+ ".json" +:+ "?"
                 +:+ ver +:+ "'").
  { rewrite Hs. apply between_app. }
  assert (B2 : Re.between s2 s5 = "live2dMaster" +:+ name +:+ ".json").
  { rewrite Hs2. apply between_app. }
  assert (B3 : Re.between s6 s7 = ver).
  { rewrite E6. apply between_app. }
  rewrite B0, B2, B3.
  exists g1, name, s8. split; [exact Hs|]. repeat split; auto.
Qed.

Lemma match_at_complete (n : nat) (s : string) :
  matches_at s -> is_Some (Re.match_at n s).
Proof.
  intros (frag & g1 & name & ver & rest & -> & -> & Hg1 & Hname & Hne & Hver).
  rewrite frag_assoc. unfold Re.match_at. rewrite lit_app.
  set (s1 := g1 +:+ _).
  assert (Htail : forall s2 : string,
            s2 = "live2dMaster" +:+ (name +:+ (".json" +:+ ("?"
                   +:+ (ver +:+ ("'" +:+ rest))))) ->
            is_Some
              (Re.lit "live2dMaster" s2 (fun s3 =>
               Re.lazy_any s3 (fun s4 =>
               Re.lit ".json" s4 (fun s5 =>
               Re.lit "?" s5 (fun s6 =>
               Re.plus_greedy Re.alnum s6 (fun s7 =>
               Re.lit "'" s7 (fun s8 =>
                 Some (Re.Match n (Re.between ("'" +:+ s1) s8)
                         (if (String.length s1 =? String.length s2)%nat
                          then None else Some (Re.between s1 s2))
                         (Re.between s2 s5) (Re.between s6 s7)))))))))).
  { intros s2 ->. rewrite lit_app.
    apply lazy_any_complete; [exact Hname|].
    rewrite !lit_app.
    apply plus_greedy_complete; [exact Hne|exact Hver|].
    rewrite lit_app. eauto. }
  unfold Re.opt_greedy.
  match goal with |- is_Some (match ?x with _ => _ end) =>
    destruct x as [m'|] eqn:E end; [eauto|].
  destruct Hg1 as [->|(c & Hc & ->)].
  - apply Htail. reflexivity.
  - exfalso. unfold s1 in E.
    change (String c "/json/" +:+ ?x) with (String c ("/json/" +:+ x)) in E.
    cbn [Re.any_char] in E.
    apply Ascii.eqb_neq in Hc. unfold newline in Hc. rewrite Hc in E.
    rewrite lit_app in E.
    destruct (Htail _ eq_refl) as [m' Hm].
    unfold s1 in Hm.
    change (String c "/json/" +:+ ?x) with (String c ("/json/" +:+ x)) in Hm.
    rewrite Hm in E. discriminate.
Qed.

Lemma match_at_matches (n : nat) (s : string) (m : Re.re_match) :
  Re.match_at n s = Some m -> matches_at s.
Proof.
  intros H. destruct (match_at_sound n s m H) as (g1 & name & rest & E & Hs & _).
  exists (Re.group0 m), g1, name, (Re.group3 m), rest. auto.
Qed.

(** [search] returns the match at the leftmost position that has one. *)
Lemma search_from_sound (s : string) :
  forall (n : nat) (m : Re.re_match),
  Re.search_from n s = Some m ->
  exists q,
    Re.match_at (n + q) (Str.drop q s) = Some m
    /\ forall q', q' < q -> ~ matches_at (Str.drop q' s).
Proof.
  induction s as [|a s IH]; intros n m H; cbn [Re.search_from] in H.
  - destruct (Re.match_at n "") eqn:E; [|discriminate]. injection H as ->.
    exists 0. rewrite Nat.add_0_r. split; [exact E|]. intros q' Hq. lia.
  - destruct (Re.match_at n (String a s)) eqn:E.
    + injection H as ->. exists 0. rewrite Nat.add_0_r.
      split; [exact E|]. intros q' Hq. lia.
    + destruct (IH (S n) m H) as (q & Hq & Hleft).
      exists (S q). replace (n + S q) with (S n + q) by lia.
      split; [exact Hq|].
      intros [|q'] Hlt Hm.
      * destruct (match_at_complete n _ Hm) as [m' Hm']. simpl in Hm'.
        congruence.
      * apply (Hleft q'); [lia|exact Hm].
Qed.

Lemma search_from_complete (s : string) :
  forall (n q : nat),
  matches_at (Str.drop q s) -> is_Some (Re.search_from n s).
Proof.
  induction s as [|a s IH]; intros n q Hm; cbn [Re.search_from].
  - assert (Hd : Str.drop q "" = "") by (destruct q; reflexivity).
    rewrite Hd in Hm. destruct (match_at_complete n _ Hm) as [m ->]. eauto.
  - destruct (Re.match_at n (String a s)) eqn:E; [eauto|].
    destruct q as [|q].
    + destruct (match_at_complete n _ Hm) as [m Hm']. simpl in Hm'. congruence.
    + apply (IH (S n) q). exact Hm.
Qed.

End PatternFacts.

(** ** [str.replace] with a single occurrence *)

Section ReplaceFacts.

Lemma drop_nil_s (k : nat) : Str.drop k "" = "".
Proof. destruct k; reflexivity. Qed.

Lemma drop_drop_s (a b : nat) (s : string) :
  Str.drop a (Str.drop b s) = Str.drop (b + a) s.
Proof.
  revert s. induction b as [|b IH]; intros s; [reflexivity|].
  destruct s as [|c s]; simpl; [apply drop_nil_s|apply IH].
Qed.

Lemma take_drop_s (n : nat) (s : string) : Str.take n s +:+ Str.drop n s = s.
Proof.
  revert s. induction n as [|n IH]; intros s; [reflexivity|].
  destruct s as [|c s]; simpl; [reflexivity|]. rewrite IH. reflexivity.
Qed.

Lemma replace_aux_skip (old new : string) (s : string) :
  forall k, Str.replace_aux old new k s = Str.replace_aux old new 0 (Str.drop k s).
Proof.
  induction s as [|a s IH]; intros k.
  - rewrite drop_nil_s. reflexivity.
  - destruct k as [|k]; [reflexivity|]. simpl. apply IH.
Qed.

Lemma replace_aux_none (old new : string) (s : string) :
  (forall q, Str.startswith (Str.drop q s) old = false) ->
  Str.replace_aux old new 0 s = s.
Proof.
  induction s as [|a s IH]; intros H; [reflexivity|].
  pose proof (H 0) as H0. cbn [Str.drop] in H0.
  cbn [Str.replace_aux]. rewrite H0. f_equal.
  apply IH. intros q. apply (H (S q)).
Qed.

Lemma replace_aux_unique (old new : string) :
  old <> "" ->
  forall (n : nat) (s : string),
  Str.startswith (Str.drop n s) old = true ->
  (forall q, Str.startswith (Str.drop q s) old = true -> q = n) ->
  Str.replace_aux old new 0 s
  = Str.take n s +:+ new +:+ Str.drop (n + String.length old) s.
Proof.
  intros Hold. induction n as [|n IH]; intros s Hn Huniq.
  - simpl in Hn. destruct s as [|a s].
    + destruct old; [congruence|discriminate].
    + cbn [Str.replace_aux Str.take]. rewrite Hn. simpl. f_equal.
      rewrite replace_aux_skip.
      assert (Hlen : String.length old = S (String.length old - 1)).
      { destruct old; [congruence|]. simpl. lia. }
      rewrite Hlen at 2. cbn [Str.drop].
      apply replace_aux_none. intros q.
      destruct (Str.startswith
                  (Str.drop q (Str.drop (String.length old - 1) s)) old) eqn:E;
        [|reflexivity].
      exfalso. rewrite drop_drop_s in E.
      specialize (Huniq (S (String.length old - 1 + q)) E). lia.
  - destruct s as [|a s].
    + rewrite drop_nil_s in Hn. destruct old; [congruence|discriminate].
    + cbn [Str.replace_aux Str.take].
      destruct (Str.startswith (String a s) old) eqn:E.
      * specialize (Huniq 0 E). lia.
      * simpl. f_equal. apply IH; [exact Hn|].
        intros q Hq. specialize (Huniq (S q) Hq). lia.
Qed.

End ReplaceFacts.


Lemma match_offsets_spec (s : string) :
  forall n q, matches_at (Str.drop q s) <-> In (n + q) (match_offsets n s).
Proof.
  induction s as [|a s IH]; intros n q.
  - rewrite drop_nil_s. split; [|intros []].
    intros H. destruct (match_at_complete 0 _ H) as [m Hm]. discriminate.
  - cbn [match_offsets]. rewrite in_app_iff. destruct q as [|q].
    + cbn [Str.drop]. rewrite Nat.add_0_r. split.
      * intros H. left. destruct (match_at_complete n _ H) as [m ->].
        left. reflexivity.
      * intros [H|H].
        -- destruct (Re.match_at n (String a s)) eqn:E; [|destruct H].
           eapply match_at_matches, E.
        -- exfalso. clear -H. revert H.
           assert (Hge : forall s k j, In j (match_offsets k s) -> k <= j).
           { clear. induction s as [|b s IHs]; intros k j; cbn [match_offsets];
               rewrite in_app_iff; intros [H|H].
             - destruct (Re.match_at k ""); [destruct H as [<-|[]]; lia|destruct H].
             - destruct H.
             - destruct (Re.match_at k (String b s));
                 [destruct H as [<-|[]]; lia|destruct H].
             - specialize (IHs _ _ H). lia. }
           intros H. specialize (Hge _ _ _ H). lia.
    + cbn [Str.drop]. rewrite (IH (S n) q).
      replace (n + S q) with (S n + q) by lia. split; [auto|].
      intros [H|H]; [|exact H]. exfalso.
      destruct (Re.match_at n (String a s)); [|destruct H].
      destruct H as [H|[]]. lia.
Qed.

(** A check by computation for the hypothesis of C6. *)
Lemma only_match_at_check (js : string) (n : nat) :
  match_offsets 0 js = [n] -> only_match_at js n.
Proof.
  intros H. split.
  - apply (match_offsets_spec js 0 n). rewrite H. left. reflexivity.
  - intros q Hq. apply (match_offsets_spec js 0 q) in Hq.
    rewrite H in Hq. destruct Hq as [Hq|[]]. simpl in Hq. lia.
Qed.


(** ** References into the manifest *)

Section EntryFacts.

Lemma dict_get_alter (k : string) (f : json -> json) (d : Dict.t) :
  Dict.get k (dict_alter k f d) = f <$> Dict.get k d.
Proof.
  induction d as [|[k' v] d IH]; [reflexivity|]. simpl.
  destruct (String.eqb k k') eqn:E; simpl; rewrite E; [reflexivity|exact IH].
Qed.

Lemma obj_get_alter (k : string) (f : json -> json) (o : json) :
  obj_get k (obj_alter k f o) = f <$> obj_get k o.
Proof. destruct o; try reflexivity. apply dict_get_alter. Qed.

Lemma arr_get_alter (i : nat) (f : json -> json) (o : json) :
  arr_get i (arr_alter i f o) = f <$> arr_get i o.
Proof. destruct o; try reflexivity. simpl. apply list_lookup_alter_eq. Qed.

Lemma arr_get_alter_ne (i j : nat) (f : json -> json) (o : json) :
  i <> j -> arr_get i (arr_alter j f o) = arr_get i o.
Proof.
  intros H. destruct o; try reflexivity. simpl.
  apply list_lookup_alter_ne. congruence.
Qed.

(** What is read through a reference after a change through the same
    reference. *)
Lemma get_alter_entry (f : json -> json) (a : addr) (data : json) :
  get_entry a (alter_entry f a data) = f <$> get_entry a data.
Proof.
  unfold get_entry, alter_entry.
  rewrite obj_get_alter. destruct (obj_get "Master" data) as [m|]; [|reflexivity].
  simpl. rewrite arr_get_alter.
  destruct (arr_get (a_game a) m) as [g|]; [|reflexivity].
  simpl. rewrite obj_get_alter.
  destruct (obj_get "character" g) as [c|]; [|reflexivity].
  simpl. rewrite arr_get_alter.
  destruct (arr_get (a_char a) c) as [ch|]; [|reflexivity].
  simpl. rewrite obj_get_alter.
  destruct (obj_get "live2d" ch) as [l|]; [|reflexivity].
  simpl. apply arr_get_alter.
Qed.

(** A change through one reference does not show through another. *)
Lemma get_alter_entry_ne (f : json -> json) (a b : addr) (data : json) :
  a <> b -> get_entry a (alter_entry f b data) = get_entry a data.
Proof.
  intros Hne. destruct a as [gi ci li], b as [gj cj lj].
  unfold get_entry, alter_entry. simpl.
  rewrite obj_get_alter. destruct (obj_get "Master" data) as [m|]; [|reflexivity].
  simpl. destruct (Nat.eq_dec gi gj) as [->|Hg];
    [|rewrite arr_get_alter_ne by exact Hg; reflexivity].
  rewrite arr_get_alter.
  destruct (arr_get gj m) as [g|]; [|reflexivity].
  simpl. rewrite obj_get_alter.
  destruct (obj_get "character" g) as [c|]; [|reflexivity].
  simpl. destruct (Nat.eq_dec ci cj) as [->|Hc];
    [|rewrite arr_get_alter_ne by exact Hc; reflexivity].
  rewrite arr_get_alter.
  destruct (arr_get cj c) as [ch|]; [|reflexivity].
  simpl. rewrite obj_get_alter.
  destruct (obj_get "live2d" ch) as [l|]; [|reflexivity].
  simpl. apply arr_get_alter_ne. congruence.
Qed.

Lemma dict_get_set (k : string) (v : json) (d : Dict.t) :
  Dict.get k (Dict.set k v d) = Some v.
Proof.
  induction d as [|[k' v'] d IH]; simpl.
  - rewrite String.eqb_refl. reflexivity.
  - destruct (String.eqb k k') eqn:E; simpl; rewrite E; [reflexivity|exact IH].
Qed.

Lemma dict_get_set_ne (k k' : string) (v : json) (d : Dict.t) :
  k <> k' -> Dict.get k (Dict.set k' v d) = Dict.get k d.
Proof.
  intros Hne. induction d as [|[k2 v2] d IH]; simpl.
  - apply String.eqb_neq in Hne. rewrite Hne. reflexivity.
  - destruct (String.eqb_spec k' k2) as [->|Hk]; simpl.
    + apply String.eqb_neq in Hne. rewrite Hne. reflexivity.
    + destruct (String.eqb k k2); [reflexivity|exact IH].
Qed.

End EntryFacts.

(** ** The collected models are distinct *)

Section CollectFacts.

Lemma collect_items_bounds (gi ci : nat) (items : list json) :
  forall (li : nat) (refs : list addr),
  collect_items gi ci li items = Some refs ->
  NoDup refs
  /\ Forall (fun a => a_game a = gi /\ a_char a = ci /\ li <= a_item a) refs.
Proof.
  induction items as [|l items IH]; intros li refs H; simpl in H.
  - injection H as <-. split; constructor.
  - destruct (Py.contains "path" l) as [b|]; [|discriminate]. simpl in H.
    destruct (collect_items gi ci (S li) items) as [more|] eqn:E;
      [|discriminate]. simpl in H. injection H as <-.
    destruct (IH _ _ E) as [Hnd Hall].
    assert (Hall' : Forall (fun a => a_game a = gi /\ a_char a = ci
                                     /\ li <= a_item a) more).
    { eapply Forall_impl; [exact Hall|]. intros a (? & ? & ?).
      repeat split; auto. lia. }
    destruct b; [|auto]. split.
    + constructor; [|exact Hnd]. intros Hin.
      rewrite Forall_forall in Hall. specialize (Hall _ Hin). simpl in Hall. lia.
    + constructor; [simpl; auto|exact Hall'].
Qed.

Lemma NoDup_app_disjoint {A : Type} (l1 l2 : list A) :
  NoDup l1 -> NoDup l2 -> (forall x, x ∈ l1 -> x ∈ l2 -> False) ->
  NoDup (l1 ++ l2).
Proof. intros H1 H2 H. apply NoDup_app. auto. Qed.

Lemma collect_chars_bounds (gi : nat) (chars : list json) :
  forall (ci : nat) (refs : list addr),
  collect_chars gi ci chars = Some refs ->
  NoDup refs /\ Forall (fun a => a_game a = gi /\ ci <= a_char a) refs.
Proof.
  induction chars as [|c chars IH]; intros ci refs H; simpl in H.
  - injection H as <-. split; constructor.
  - destruct (Py.get c "live2d" (JArr [])) as [live2d|]; [|discriminate].
    simpl in H. destruct (Py.iter live2d) as [items|]; [|discriminate].
    simpl in H.
    destruct (collect_items gi ci 0 items) as [here|] eqn:E1; [|discriminate].
    simpl in H.
    destruct (collect_chars gi (S ci) chars) as [more|] eqn:E2; [|discriminate].
    simpl in H. injection H as <-.
    destruct (collect_items_bounds _ _ _ _ _ E1) as [Hnd1 Hall1].
    destruct (IH _ _ E2) as [Hnd2 Hall2].
    rewrite Forall_forall in Hall1, Hall2. split.
    + apply NoDup_app_disjoint; [assumption|assumption|].
      intros a H1 H2. specialize (Hall1 _ H1). specialize (Hall2 _ H2). lia.
    + apply Forall_app. split; apply Forall_forall; intros a Ha.
      * specialize (Hall1 _ Ha). split; [tauto|lia].
      * specialize (Hall2 _ Ha). split; [tauto|lia].
Qed.

Lemma collect_games_bounds (games : list json) :
  forall (gi : nat) (refs : list addr),
  collect_games gi games = Some refs ->
  NoDup refs /\ Forall (fun a => gi <= a_game a) refs.
Proof.
  induction games as [|g games IH]; intros gi refs H; simpl in H.
  - injection H as <-. split; constructor.
  - destruct (Py.get g "character" (JArr [])) as [character|]; [|discriminate].
    simpl in H. destruct (Py.iter character) as [chars|]; [|discriminate].
    simpl in H.
    destruct (collect_chars gi 0 chars) as [here|] eqn:E1; [|discriminate].
    simpl in H.
    destruct (collect_games (S gi) games) as [more|] eqn:E2; [|discriminate].
    simpl in H. injection H as <-.
    destruct (collect_chars_bounds _ _ _ _ E1) as [Hnd1 Hall1].
    destruct (IH _ _ E2) as [Hnd2 Hall2].
    rewrite Forall_forall in Hall1, Hall2. split.
    + apply NoDup_app_disjoint; [assumption|assumption|].
      intros a H1 H2. specialize (Hall1 _ H1). specialize (Hall2 _ H2). lia.
    + apply Forall_app. split; apply Forall_forall; intros a Ha.
      * specialize (Hall1 _ Ha). lia.
      * specialize (Hall2 _ Ha). lia.
Qed.

Lemma collect_models_NoDup (data : json) (models : list addr) :
  collect_models data = Some models -> NoDup models.
Proof.
  unfold collect_models. intros H.
  destruct (Py.get data "Master" (JArr [])) as [master|]; [|discriminate].
  simpl in H. destruct (Py.iter master) as [games|]; [|discriminate].
  simpl in H. apply (collect_games_bounds _ _ _ H).
Qed.

End CollectFacts.

(** ** The loop over the models of [1model.new.py] *)

Section NewLoopFacts.

Variable net : network.
Variable encode_url : string -> string.
Variable urljoin : string -> string -> string.
Variable json_loads : string -> option json.
Variable json_dumps : json -> string.

Local Abbreviation step := (NewMain.step net encode_url urljoin json_loads).
Local Abbreviation loop := (NewMain.loop net encode_url urljoin json_loads).
Local Abbreviation effects_of := (NewMain.effects_of net encode_url).
Local Abbreviation final_world := (NewMain.final_world net encode_url).
Local Abbreviation truthful := (NewMain.truthful net encode_url).

(** A descriptor that could not be fetched: nothing else happens. *)
Lemma new_step_failed (a : addr) (data : json) (reports : list report)
    (w : world) (d : Dict.t) (url : string) :
  get_entry a data = Some (JObj d) ->
  Dict.get "path" d = Some (JStr url) ->
  let local := safe_path_join "" (NewMain.rel_of url) in
  let r := New.download_file net encode_url url local false w in
  fst r = false ->
  step a (data, reports) w
  = (Some (data, reports ++ [Report a url local false []]), snd r).
Proof.
  intros Hm Hp local r Hfail. unfold NewMain.step, io_bind, io_must.
  rewrite Hm. cbn [io_ret Py.index]. rewrite Hp. cbn [io_ret as_str].
  unfold NewMain.download_file, io_total. fold local. fold r.
  destruct r as [ok w1]. simpl in Hfail. subst ok. reflexivity.
Qed.

(** A descriptor that was fetched: the path is rewritten and the
    dependent tasks run. *)
Lemma new_step_fetched (a : addr) (data : json) (reports : list report)
    (w : world) (d : Dict.t) (url : string) :
  get_entry a data = Some (JObj d) ->
  Dict.get "path" d = Some (JStr url) ->
  let rel := NewMain.rel_of url in
  let local := safe_path_join "" rel in
  let r := New.download_file net encode_url url local false w in
  fst r = true ->
  exists tasks,
    step a (data, reports) w
    = (Some (alter_entry (set_field "path" (JStr (Str.replace rel "\" "/")))
               a data,
             reports ++ [Report a url local true tasks]),
       NewMain.run_tasks net encode_url tasks (snd r)).
Proof.
  intros Hm Hp rel local r Hok. unfold NewMain.step, io_bind, io_must.
  rewrite Hm. cbn [io_ret Py.index]. rewrite Hp. cbn [io_ret as_str].
  unfold NewMain.download_file, io_total. fold rel. fold local. fold r.
  destruct r as [ok w1]. simpl in Hok. subst ok.
  unfold NewMain.process_model.
  destruct (fs w1 !! local ≫= json_loads) as [doc|].
  - eexists. reflexivity.
  - exists []. reflexivity.
Qed.

Lemma has_url_after (data : json) (a b : addr) (v : string) :
  has_url data b ->
  has_url (alter_entry (set_field "path" (JStr v)) a data) b.
Proof.
  intros (d & url & Hm & Hp). destruct (decide (b = a)) as [->|Hne].
  - exists (Dict.set "path" (JStr v) d), v.
    rewrite get_alter_entry, Hm. split; [reflexivity|apply dict_get_set].
  - exists d, url. rewrite get_alter_entry_ne by exact Hne. auto.
Qed.

Lemma new_loop_spec (models : list addr) :
  forall (data : json) (reports : list report) (w : world),
  Forall (has_url data) models ->
  exists data' rs,
    loop models (data, reports) w = (Some (data', reports ++ rs), final_world rs w)
    /\ map r_addr rs = models
    /\ truthful rs w
    /\ forall a, (forall rep, In rep rs -> r_addr rep = a -> r_ok rep = false) ->
                 get_entry a data' = get_entry a data.
Proof.
  induction models as [|a models IH]; intros data reports w Hall.
  - exists data, []. rewrite app_nil_r. repeat split.
  - inversion Hall as [|? ? (d & url & Hm & Hp) Hrest]; subst.
    set (local := safe_path_join "" (NewMain.rel_of url)).
    destruct (New.download_file net encode_url url local false w) as [ok w1] eqn:Ed.
    destruct ok.
    + destruct (new_step_fetched a data reports w d url Hm Hp) as (tasks & Hstep).
      { fold local. rewrite Ed. reflexivity. }
      fold local in Hstep. rewrite Ed in Hstep. cbn [snd] in Hstep.
      set (data1 := alter_entry _ a data) in *.
      set (rep := Report a url local true tasks) in *.
      destruct (IH data1 (reports ++ [rep])
                  (NewMain.run_tasks net encode_url tasks w1))
        as (data' & rs & Hloop & Hmap & Htruth & Hframe).
      { eapply Forall_impl; [exact Hrest|].
        intros b Hb. apply has_url_after, Hb. }
      exists data', (rep :: rs).
      assert (Heff : effects_of rep w = NewMain.run_tasks net encode_url tasks w1).
      { unfold NewMain.effects_of, rep. cbn [r_tasks r_url r_local].
        fold local. rewrite Ed. reflexivity. }
      split; [|split; [|split]].
      * cbn [NewMain.loop]. unfold io_bind at 1. rewrite Hstep, Hloop.
        rewrite <- app_assoc. cbn [NewMain.final_world fold_left].
        rewrite Heff. reflexivity.
      * simpl. rewrite Hmap. reflexivity.
      * cbn [NewMain.truthful]. rewrite Heff.
        split; [unfold rep; cbn [r_ok r_url r_local]; fold local; rewrite Ed;
                reflexivity|].
        split; [discriminate|exact Htruth].
      * intros b Hb. rewrite Hframe by (intros r Hr; apply Hb; right; exact Hr).
        apply get_alter_entry_ne. intros ->.
        specialize (Hb rep (or_introl eq_refl) eq_refl). discriminate.
    + pose proof (new_step_failed a data reports w d url Hm Hp) as Hstep.
      cbv zeta in Hstep. fold local in Hstep. rewrite Ed in Hstep.
      specialize (Hstep eq_refl).
      cbn [snd] in Hstep.
      set (rep := Report a url local false []) in *.
      destruct (IH data (reports ++ [rep]) w1 Hrest)
        as (data' & rs & Hloop & Hmap & Htruth & Hframe).
      exists data', (rep :: rs).
      assert (Heff : effects_of rep w = w1).
      { unfold NewMain.effects_of, rep. cbn [r_tasks r_url r_local].
        fold local. rewrite Ed. reflexivity. }
      split; [|split; [|split]].
      * cbn [NewMain.loop]. unfold io_bind at 1. rewrite Hstep, Hloop.
        rewrite <- app_assoc. cbn [NewMain.final_world fold_left].
        rewrite Heff. reflexivity.
      * simpl. rewrite Hmap. reflexivity.
      * cbn [NewMain.truthful]. rewrite Heff.
        split; [unfold rep; cbn [r_ok r_url r_local]; fold local; rewrite Ed;
                reflexivity|].
        split; [reflexivity|exact Htruth].
      * intros b Hb. apply Hframe. intros r Hr. apply Hb. right. exact Hr.
Qed.

End NewLoopFacts.

Section NewSyncFacts.

Variable net : network.
Variable encode_url : string -> string.
Variable urljoin : string -> string -> string.
Variable json_loads : string -> option json.
Variable json_dumps : json -> string.

Lemma new_download_unwritable (url local : string) (force : bool) (w : world) :
  unwritable (snd (New.download_file net encode_url url local force w))
  = unwritable w.
Proof.
  destruct (new_download_tidy net encode_url url local force w)
    as (es & -> & _). reflexivity.
Qed.

Lemma run_tasks_unwritable (tasks : list task) (w : world) :
  unwritable (NewMain.run_tasks net encode_url tasks w) = unwritable w.
Proof.
  revert w. induction tasks as [|t tasks IH]; intros w; [reflexivity|].
  simpl. rewrite IH. apply new_download_unwritable.
Qed.

Lemma final_world_unwritable (reports : list report) (w : world) :
  unwritable (NewMain.final_world net encode_url reports w) = unwritable w.
Proof.
  revert w. induction reports as [|rep reports IH]; intros w; [reflexivity|].
  change (NewMain.final_world net encode_url (rep :: reports) w)
    with (NewMain.final_world net encode_url reports
            (NewMain.effects_of net encode_url rep w)).
  rewrite IH. unfold NewMain.effects_of.
  rewrite run_tasks_unwritable. apply new_download_unwritable.
Qed.

Lemma write_text_content (path text : string) (w : world) :
  unwritable w path = false ->
  exists w', write_text path text w = (Some tt, w')
             /\ fs w' !! path = Some text.
Proof.
  intros H. unfold write_text. rewrite H. eexists. split; [reflexivity|].
  simpl. rewrite lookup_insert_eq. simpl. apply lookup_insert_eq.
Qed.

Lemma makedirs_is_Some (d : string) (w : world) :
  unwritable w d = false -> is_Some (makedirs d w).
Proof.
  intros H. unfold makedirs. rewrite H.
  destruct (Str.is_empty d); eexists; reflexivity.
Qed.

Lemma effects_of_unwritable (rep : report) (w : world) :
  unwritable (NewMain.effects_of net encode_url rep w) = unwritable w.
Proof.
  unfold NewMain.effects_of. rewrite run_tasks_unwritable.
  apply new_download_unwritable.
Qed.

Lemma same_addr_same_report (reports : list report) (r1 r2 : report) :
  NoDup (map r_addr reports) -> In r1 reports -> In r2 reports ->
  r_addr r1 = r_addr r2 -> r1 = r2.
Proof.
  induction reports as [|r reports IH]; intros Hnd H1 H2 Ha; [destruct H1|].
  simpl in Hnd. apply NoDup_cons in Hnd as [Hnotin Hnd].
  destruct H1 as [<-|H1], H2 as [<-|H2].
  - reflexivity.
  - exfalso. apply Hnotin. rewrite Ha. apply list_elem_of_In, in_map, H2.
  - exfalso. apply Hnotin. rewrite <- Ha. apply list_elem_of_In, in_map, H1.
  - apply IH; assumption.
Qed.

End NewSyncFacts.



(** ** The display fields of [1model.py] *)

Section DictFacts.

Lemma dict_has_set (k : string) (v : json) (d : Dict.t) :
  Dict.has k (Dict.set k v d) = true.
Proof. unfold Dict.has. rewrite dict_get_set. reflexivity. Qed.

Lemma dict_has_set_ne (k k' : string) (v : json) (d : Dict.t) :
  k <> k' -> Dict.has k (Dict.set k' v d) = Dict.has k d.
Proof. intros H. unfold Dict.has. rewrite dict_get_set_ne by exact H. reflexivity. Qed.

Lemma dict_get_remove (k : string) (d : Dict.t) :
  Dict.get k (Dict.remove k d) = None.
Proof.
  induction d as [|[k' v] d IH]; [reflexivity|]. simpl.
  destruct (String.eqb k k') eqn:E; [exact IH|]. simpl. rewrite E. exact IH.
Qed.

Lemma dict_get_remove_ne (k k' : string) (d : Dict.t) :
  k <> k' -> Dict.get k (Dict.remove k' d) = Dict.get k d.
Proof.
  intros Hne. induction d as [|[k2 v] d IH]; [reflexivity|]. simpl.
  destruct (String.eqb_spec k' k2) as [->|Hk].
  - apply String.eqb_neq in Hne. rewrite Hne. exact IH.
  - simpl. destruct (String.eqb k k2); [reflexivity|exact IH].
Qed.

Lemma dict_has_remove (k : string) (d : Dict.t) :
  Dict.has k (Dict.remove k d) = false.
Proof. unfold Dict.has. rewrite dict_get_remove. reflexivity. Qed.

Lemma dict_has_remove_ne (k k' : string) (d : Dict.t) :
  k <> k' -> Dict.has k (Dict.remove k' d) = Dict.has k d.
Proof.
  intros H. unfold Dict.has. rewrite dict_get_remove_ne by exact H.
  reflexivity.
Qed.

End DictFacts.

Section OldFieldFacts.

Variable net : network.
Variable urljoin : string -> string -> string.
Variable url_path : string -> string.
Variable json_loads : string -> option json.
Variable json_dumps : json -> string.

Local Abbreviation step := (OldMain.step net urljoin url_path json_loads).
Local Abbreviation loop := (OldMain.loop net urljoin url_path json_loads).

(** What [annotate] does to the document. *)
Lemma annotate_inv (a : addr) (data data' : json) :
  OldMain.annotate a data = Some data' ->
  exists d v1 v2,
    get_entry a data = Some (JObj d)
    /\ data' = alter_entry
                 (fun _ => JObj (Dict.set "_costumeName" v2
                                   (Dict.set "_charName" v1 d))) a data.
Proof.
  unfold OldMain.annotate. intros H.
  destruct (OldMain.get_char a data) as [ch|]; [|discriminate]. simpl in H.
  destruct (get_entry a data) as [m|]; [|discriminate]. simpl in H.
  destruct (Py.get ch "charName" _) as [v1|]; [|discriminate]. simpl in H.
  destruct m as [| | | | |d]; try discriminate.
  simpl in H. injection H as <-. eauto.
Qed.

Lemma annotate_makes (a : addr) (data data' : json) :
  OldMain.annotate a data = Some data' -> annotated data' a.
Proof.
  intros H. destruct (annotate_inv a data data' H) as (d & v1 & v2 & Hm & ->).
  eexists. rewrite get_alter_entry, Hm. split; [reflexivity|]. split.
  - rewrite dict_has_set_ne by discriminate. apply dict_has_set.
  - apply dict_has_set.
Qed.

Lemma annotate_keeps (a b : addr) (data data' : json) :
  OldMain.annotate b data = Some data' -> annotated data a -> annotated data' a.
Proof.
  intros H Ha. destruct (decide (a = b)) as [->|Hne].
  - eapply annotate_makes, H.
  - destruct (annotate_inv b data data' H) as (d & v1 & v2 & _ & ->).
    destruct Ha as (da & Hm & H1 & H2). exists da.
    rewrite get_alter_entry_ne by exact Hne. auto.
Qed.

Lemma annotate_other (a b : addr) (data data' : json) :
  OldMain.annotate b data = Some data' -> a <> b ->
  get_entry a data' = get_entry a data.
Proof.
  intros H Hne. destruct (annotate_inv b data data' H) as (d & v1 & v2 & _ & ->).
  apply get_alter_entry_ne, Hne.
Qed.

Lemma annotate_all_spec (path_list : list addr) :
  forall data data',
  OldMain.annotate_all path_list data = Some data' ->
  (forall a, In a path_list -> annotated data' a)
  /\ (forall a, ~ In a path_list -> get_entry a data' = get_entry a data)
  /\ (forall a, annotated data a -> annotated data' a).
Proof.
  induction path_list as [|b rest IH]; intros data data' H; simpl in H.
  - injection H as <-. repeat split; auto. intros a [].
  - destruct (OldMain.annotate b data) as [data1|] eqn:E; [|discriminate].
    simpl in H. destruct (IH _ _ H) as (Hin & Hout & Hkeep).
    split; [|split].
    + intros a [<-|Ha]; [|apply Hin, Ha].
      apply Hkeep. eapply annotate_makes, E.
    + intros a Ha. rewrite Hout by (intros ?; apply Ha; right; assumption).
      eapply annotate_other; [exact E|]. intros ->. apply Ha. left. reflexivity.
    + intros a Ha. apply Hkeep. eapply annotate_keeps; eassumption.
Qed.

(** A pass of the loop leaves the document alone or rewrites [path]. *)
Lemma old_step_data (a : addr) (data : json) (reports : list report)
    (w w' : world) (data' : json) (reports' : list report) :
  step a (data, reports) w = (Some (data', reports'), w') ->
  exists rep,
    reports' = reports ++ [rep] /\ r_addr rep = a
    /\ ((r_ok rep = false /\ r_tasks rep = [] /\ data' = data
         /\ w' = snd (Old.download_file net (r_url rep) (r_local rep) w))
        \/ (r_ok rep = true
            /\ exists v, data' = alter_entry (set_field "path" (JStr v)) a data)).
Proof.
  unfold OldMain.step, io_bind, io_must. intros H.
  destruct (get_entry a data) as [m|]; [|discriminate]. cbn [io_ret] in H.
  destruct (Py.index m "path") as [p|]; [|discriminate]. cbn [io_ret] in H.
  destruct (as_str p) as [url|]; [|discriminate]. cbn [io_ret] in H.
  unfold OldMain.download_file, io_total in H.
  destruct (Old.download_file net url _ w) as [ok w1] eqn:Ed.
  destruct ok.
  - destruct (OldMain.process_model3_json _ _ _ _ _ w1) as [[tasks|] w2];
      [|discriminate].
    injection H as <- <- <-. eexists. split; [reflexivity|].
    split; [reflexivity|]. right. split; [reflexivity|]. eauto.
  - injection H as <- <- <-. eexists. split; [reflexivity|].
    split; [reflexivity|]. left. cbn [r_ok r_tasks r_url r_local].
    rewrite Ed. auto.
Qed.

Lemma set_path_annotated (a b : addr) (data : json) (v : string) :
  annotated data a ->
  annotated (alter_entry (set_field "path" (JStr v)) b data) a.
Proof.
  intros (d & Hm & H1 & H2). destruct (decide (a = b)) as [->|Hne].
  - exists (Dict.set "path" (JStr v) d). rewrite get_alter_entry, Hm.
    split; [reflexivity|].
    rewrite !dict_has_set_ne by discriminate. auto.
  - exists d. rewrite get_alter_entry_ne by exact Hne. auto.
Qed.

Lemma old_loop_spec (path_list : list addr) :
  forall data reports w data' reports' w',
  loop path_list (data, reports) w = (Some (data', reports'), w') ->
  (forall a, annotated data a -> annotated data' a)
  /\ (forall a, ~ In a path_list -> get_entry a data' = get_entry a data)
  /\ exists rs,
       reports' = reports ++ rs /\ map r_addr rs = path_list
       /\ Forall (fun rep => r_ok rep = false -> r_tasks rep = []) rs
       /\ forall a, (forall rep, In rep rs -> r_addr rep = a -> r_ok rep = false) ->
                    get_entry a data' = get_entry a data.
Proof.
  induction path_list as [|b rest IH]; intros data reports w data' reports' w' H.
  - cbn [OldMain.loop io_ret] in H. injection H as <- <- <-.
    split; [auto|]. split; [auto|]. exists []. rewrite app_nil_r.
    repeat split; auto.
  - cbn [OldMain.loop] in H. unfold io_bind at 1 in H.
    destruct (step b (data, reports) w) as [[[data1 reports1]|] w1] eqn:Es;
      [|discriminate].
    destruct (old_step_data _ _ _ _ _ _ _ Es) as (rep & -> & Hrep & Hcase).
    destruct (IH _ _ _ _ _ _ H) as (Hkeep & Hout & rs & -> & Hmap & Hnt & Hframe).
    assert (Hdata1 : (forall a, annotated data a -> annotated data1 a)
                     /\ (forall a, a <> b -> get_entry a data1 = get_entry a data)
                     /\ (r_ok rep = false -> data1 = data /\ r_tasks rep = [])).
    { destruct Hcase as [(Hok & Ht & -> & _)|(Hok & v & ->)].
      - repeat split; auto.
      - split; [intros a Ha; apply set_path_annotated, Ha|].
        split; [intros a Ha; apply get_alter_entry_ne, Ha|].
        rewrite Hok. discriminate. }
    destruct Hdata1 as (Hk1 & Ho1 & Hf1).
    split; [intros a Ha; apply Hkeep, Hk1, Ha|]. split.
    + intros a Ha. rewrite Hout by (intros ?; apply Ha; right; assumption).
      apply Ho1. intros ->. apply Ha. left. reflexivity.
    + exists (rep :: rs). rewrite <- app_assoc. split; [reflexivity|].
      split; [simpl; rewrite Hrep, Hmap; reflexivity|]. split.
      * constructor; [intros Hfail; apply (Hf1 Hfail)|exact Hnt].
      * intros a Ha. rewrite Hframe by (intros r Hr; apply Ha; right; exact Hr).
        destruct (decide (a = b)) as [->|Hne]; [|apply Ho1, Hne].
        destruct (Hf1 (Ha rep (or_introl eq_refl) Hrep)) as [-> _]. reflexivity.
Qed.

End OldFieldFacts.

Section OldStripFacts.

Lemma strip_inv (a : addr) (data data' : json) :
  OldMain.strip a data = Some data' ->
  exists d,
    get_entry a data = Some (JObj d)
    /\ data' = alter_entry
                 (fun _ => JObj (Dict.remove "_costumeName"
                                   (Dict.remove "_charName" d))) a data.
Proof.
  unfold OldMain.strip, Dict.del. intros H.
  destruct (get_entry a data) as [m|]; [|discriminate]. simpl in H.
  destruct m as [| | | | |d]; try discriminate.
  destruct (Dict.has "_charName" d); [|discriminate]. simpl in H.
  destruct (Dict.has "_costumeName" _); [|discriminate]. simpl in H.
  injection H as <-. eauto.
Qed.

(** Deleting the two fields of an annotated entry raises no [KeyError]. *)
Lemma strip_progress (a : addr) (data : json) :
  annotated data a -> is_Some (OldMain.strip a data).
Proof.
  intros (d & Hm & H1 & H2). unfold OldMain.strip, Dict.del.
  rewrite Hm. simpl. rewrite H1. simpl.
  rewrite dict_has_remove_ne by discriminate. rewrite H2. simpl. eauto.
Qed.

Lemma strip_makes (a : addr) (data data' : json) :
  OldMain.strip a data = Some data' -> stripped data' a.
Proof.
  intros H. destruct (strip_inv a data data' H) as (d & Hm & ->).
  eexists. rewrite get_alter_entry, Hm. split; [reflexivity|]. split.
  - rewrite dict_has_remove_ne by discriminate. apply dict_has_remove.
  - apply dict_has_remove.
Qed.

Lemma strip_other (a b : addr) (data data' : json) :
  OldMain.strip b data = Some data' -> a <> b ->
  get_entry a data' = get_entry a data.
Proof.
  intros H Hne. destruct (strip_inv b data data' H) as (d & _ & ->).
  apply get_alter_entry_ne, Hne.
Qed.

(** The fields other than the two display fields stay. *)
Lemma strip_fields (a : addr) (data data' : json) (d : Dict.t) (k : string) :
  OldMain.strip a data = Some data' ->
  get_entry a data = Some (JObj d) ->
  k <> "_charName" -> k <> "_costumeName" ->
  exists d', get_entry a data' = Some (JObj d')
             /\ Dict.get k d' = Dict.get k d.
Proof.
  intros H Hm Hk1 Hk2. destruct (strip_inv a data data' H) as (d0 & Hm0 & ->).
  rewrite Hm in Hm0. injection Hm0 as <-.
  eexists. rewrite get_alter_entry, Hm. split; [reflexivity|].
  rewrite !dict_get_remove_ne by assumption. reflexivity.
Qed.

Lemma strip_all_spec (path_list : list addr) :
  NoDup path_list ->
  forall data,
  (forall a, In a path_list -> annotated data a) ->
  exists data',
    OldMain.strip_all path_list data = Some data'
    /\ (forall a, In a path_list -> stripped data' a)
    /\ (forall a, ~ In a path_list -> get_entry a data' = get_entry a data)
    /\ (forall a d k, In a path_list -> get_entry a data = Some (JObj d) ->
          k <> "_charName" -> k <> "_costumeName" ->
          exists d', get_entry a data' = Some (JObj d')
                     /\ Dict.get k d' = Dict.get k d).
Proof.
  induction 1 as [|b rest Hnotin Hnd IH]; intros data Hall.
  - exists data. split; [reflexivity|]. split; [intros a []|].
    split; [reflexivity|intros a d k []].
  - destruct (strip_progress b data (Hall b (or_introl eq_refl))) as [data1 E].
    rewrite list_elem_of_In in Hnotin.
    destruct (IH data1) as (data' & Hs & Hin & Hout & Hfields).
    { intros a Ha. destruct (Hall a (or_intror Ha)) as (d & Hm & H1 & H2).
      exists d. rewrite (strip_other a b data data1 E); [auto|].
      intros ->. apply Hnotin, Ha. }
    exists data'. split; [simpl; rewrite E; exact Hs|]. split; [|split].
    + intros a [<-|Ha]; [|apply Hin, Ha].
      destruct (strip_makes _ _ _ E) as (d & Hm & H1 & H2).
      exists d. rewrite (Hout b Hnotin). auto.
    + intros a Ha. rewrite Hout by (intros ?; apply Ha; right; assumption).
      eapply strip_other; [exact E|]. intros ->. apply Ha. left. reflexivity.
    + intros a d k [<-|Ha] Hm Hk1 Hk2.
      * destruct (strip_fields _ _ _ d k E Hm Hk1 Hk2) as (d' & Hm' & Hk).
        exists d'. rewrite (Hout b Hnotin). auto.
      * apply Hfields; auto.
        rewrite (strip_other a b data data1 E); [exact Hm|].
        intros ->. apply Hnotin, Ha.
Qed.

End OldStripFacts.

(** C9: whenever [process_live2d_master_json] reaches the write at its end,
    the document it hands to [json.dump] at the manifest path has neither
    [_charName] nor [_costumeName] on any entry that has a [path] (the
    entries of [path_list], the only ones the fields were attached to),
    and every other entry is as it was loaded; and after a loop that ended
    without exception the deletion of the fields never raises, so the
    write is reached. *)
Theorem old_transient_fields_stripped (net : network)
    (urljoin : string -> string -> string) (url_path : string -> string)
    (json_loads : string -> option json) (json_dumps : json -> string)
    (master_json_path version_string : string) (w : world) :
  (forall data3 reports w',
     OldMain.process_live2d_master_json net urljoin url_path json_loads
       json_dumps master_json_path version_string w
     = (Some (Some (data3, reports)), w') ->
     exists data0 path_list,
       fs w !! master_json_path ≫= json_loads = Some data0
       /\ collect_models data0 = Some path_list
       /\ (forall a, In a path_list -> stripped data3 a)
       /\ (forall a, ~ In a path_list ->
             get_entry a data3 = get_entry a data0)
       /\ (unwritable w' master_json_path = false ->
           fs w' !! master_json_path = Some (json_dumps data3)))
  /\ (forall data0 path_list data1 data2 reports w1 w2,
        collect_models data0 = Some path_list ->
        OldMain.annotate_all path_list data0 = Some data1 ->
        OldMain.loop net urljoin url_path json_loads path_list (data1, []) w1
        = (Some (data2, reports), w2) ->
        is_Some (OldMain.strip_all path_list data2)).
Proof.
  split.
  - intros data3 reports w' H.
    unfold OldMain.process_live2d_master_json, io_bind, io_total, io_read in H.
    unfold OldMain.copyfile in H.
    destruct (path_exists w master_json_path && negb (unwritable w _)) eqn:Ec;
      [|discriminate].
    cbn [negb] in H.
    set (w1 := perform (EvCopy master_json_path _) w) in H.
    assert (Hfs1 : fs w1 !! master_json_path = fs w !! master_json_path).
    { unfold w1. cbn [perform emit set_fs fs apply_event].
      destruct (fs w !! master_json_path) as [c|] eqn:E; [|exact E].
      match goal with |- <[?dst := _]> _ !! _ = _ =>
        destruct (decide (dst = master_json_path)) as [->|Hne] end.
      - rewrite lookup_insert_eq. reflexivity.
      - rewrite lookup_insert_ne by exact Hne. exact E. }
    rewrite Hfs1 in H.
    destruct (fs w !! master_json_path ≫= json_loads) as [data0|] eqn:El;
      [|discriminate].
    unfold io_must in H.
    destruct (collect_models data0) as [path_list|] eqn:Ecol; [|discriminate].
    cbn [io_ret] in H.
    destruct (OldMain.annotate_all path_list data0) as [data1|] eqn:Ean;
      [|discriminate].
    cbn [io_ret] in H.
    destruct (OldMain.loop net urljoin url_path json_loads path_list (data1, [])
                w1) as [[[data2 reps]|] w2] eqn:Eloop; [|discriminate].
    cbn [fst snd] in H.
    destruct (OldMain.strip_all path_list data2) as [data3'|] eqn:Estrip;
      [|discriminate].
    cbn [io_ret] in H. injection H as <- <- <-.
    exists data0, path_list. split; [reflexivity|]. split; [exact Ecol|].
    destruct (annotate_all_spec path_list data0 data1 Ean) as (Hann & Hout1 & _).
    destruct (old_loop_spec net urljoin url_path json_loads path_list
                _ _ _ _ _ _ Eloop) as (Hkeep & Hout2 & _).
    destruct (strip_all_spec path_list (collect_models_NoDup _ _ Ecol) data2)
      as (data3 & Hs & Hin & Hout3 & _).
    { intros a Ha. apply Hkeep, Hann, Ha. }
    rewrite Estrip in Hs. injection Hs as <-.
    split; [exact Hin|]. split.
    + intros a Ha. rewrite Hout3, Hout2, Hout1 by exact Ha. reflexivity.
    + unfold OldMain.persist, write_text.
      destruct (unwritable w2 master_json_path) eqn:Eu.
      * intros Hu. rewrite Eu in Hu. discriminate.
      * intros _. cbn [perform emit set_fs fs apply_event].
        rewrite lookup_insert_eq. apply lookup_insert_eq.
  - intros data0 path_list data1 data2 reports w1 w2 Ecol Ean Eloop.
    destruct (annotate_all_spec path_list data0 data1 Ean) as (Hann & _ & _).
    destruct (old_loop_spec net urljoin url_path json_loads path_list
                _ _ _ _ _ _ Eloop) as (Hkeep & _ & _).
    destruct (strip_all_spec path_list (collect_models_NoDup _ _ Ecol) data2)
      as (data3 & Hs & _).
    { intros a Ha. apply Hkeep, Hann, Ha. }
    rewrite Hs. eauto.
Qed.

Lemma old_transient_fields_stripped_witness :
  exists data3 reports w',
    OldMain.process_live2d_master_json net_down (fun b r => b +:+ r) id
      (fun s => if String.eqb s "M" then Some two_models else None)
      (fun _ => "{}") "json/live2dMasterv1.json" "v1"
      (World {[ "json/live2dMasterv1.json" := "M" ]} (fun _ => false)
         "/srv/mirror" [])
    = (Some (Some (data3, reports)), w')
    /\ stripped data3 (Addr 0 0 0)
    /\ stripped data3 (Addr 0 0 1).
Proof.
  set (loads := fun s => if String.eqb s "M" then Some two_models else None).
  set (w := World {[ "json/live2dMasterv1.json" := "M" ]} (fun _ => false)
              "/srv/mirror" []).
  destruct (OldMain.process_live2d_master_json net_down (fun b r => b +:+ r) id
              loads (fun _ => "{}") "json/live2dMasterv1.json" "v1" w)
    as [[[[data3 reports]|]|] w'] eqn:E;
    [|vm_compute in E; discriminate E|vm_compute in E; discriminate E].
  exists data3, reports, w'. split; [reflexivity|].
  destruct (proj1 (old_transient_fields_stripped net_down (fun b r => b +:+ r)
                     id loads (fun _ => "{}") "json/live2dMasterv1.json" "v1" w)
              data3 reports w' E)
    as (data0 & path_list & Hload & Hcol & Hin & _).
  vm_compute in Hload. injection Hload as <-.
  vm_compute in Hcol. injection Hcol as <-.
  split; apply Hin; simpl; auto.
Defined.

(** ** The audio pass *)

Section AudioFacts.

Variable net : network.
Variable json_loads : string -> option json.
Variable json_dumps : json -> string.

Lemma writes_only_leaves (P : string -> Prop) (q : string) (es : list event) :
  ~ P q -> Forall (writes_only P) es -> Forall (leaves q) es.
Proof.
  intros Hq H. eapply Forall_impl; [exact H|].
  intros e He f. destruct e; simpl in *; try reflexivity; try contradiction.
  - apply lookup_insert_ne. intros ->. contradiction.
  - destruct (f !! path); [|reflexivity].
    apply lookup_insert_ne. intros ->. contradiction.
Qed.

Lemma write_events_only (P : string -> Prop) (b : bool) (p : string)
    (chunks : list string) :
  P p -> Forall (writes_only P) (write_events b p chunks).
Proof.
  intros Hp. unfold write_events. apply Forall_map, Forall_forall.
  intros c _. exact Hp.
Qed.

(** The fetcher of [2audio.py] writes to its destination only. *)
Lemma audio_download_events (P : string -> Prop) (url local : string)
    (w : world) :
  P local ->
  exists es,
    snd (Audio.download_file net url local w) = extends w es
    /\ Forall (writes_only P) es.
Proof.
  intros Hp. unfold Audio.download_file.
  destruct (makedirs (Posix.dirname local) w) as [w1|] eqn:Hmk.
  2: { exists []. rewrite extends_nil. split; [reflexivity|constructor]. }
  destruct (makedirs_quiet _ _ _ Hmk) as (pre & -> & Hq).
  assert (Hpre : Forall (writes_only P) pre).
  { eapply Forall_impl; [exact Hq|].
    intros e He. destruct e; try contradiction; exact I. }
  cbv zeta. rewrite perform_extends, extends_app.
  assert (Hget : Forall (writes_only P) (pre ++ [EvGet url])).
  { apply Forall_app. split; [exact Hpre|repeat constructor]. }
  destruct (net_get net url 0) as [e|status chunks broken].
  { eexists. split; [reflexivity|exact Hget]. }
  destruct (raises_for_status status).
  { eexists. split; [reflexivity|exact Hget]. }
  rewrite unwritable_extends. destruct (unwritable w local).
  { eexists. split; [reflexivity|exact Hget]. }
  rewrite perform_extends, write_chunks_extends, !extends_app.
  assert (Hall : Forall (writes_only P)
                   ((pre ++ [EvGet url])
                    ++ [EvOpenW local] ++ write_events false local chunks)).
  { apply Forall_app. split; [exact Hget|].
    apply Forall_cons. split; [exact Hp|].
    apply write_events_only, Hp. }
  destruct broken; eexists; (split; [reflexivity|exact Hall]).
Qed.

End AudioFacts.

(** ** Where the audio files go *)

Section AudioPathFacts.

Lemma replace_backslash (s : string) :
  Str.replace s "\" "/" = Str.map_chars to_slash s.
Proof.
  unfold Str.replace.
  induction s as [|a s IH]; [reflexivity|].
  cbn [Str.replace_aux Str.startswith Str.map_chars String.length Nat.sub].
  rewrite andb_true_r, IH. unfold to_slash.
  destruct (Ascii.eqb a "\"); reflexivity.
Qed.

Lemma map_chars_app (f : ascii -> ascii) (s t : string) :
  Str.map_chars f (s +:+ t) = Str.map_chars f s +:+ Str.map_chars f t.
Proof. induction s as [|a s IH]; simpl; [reflexivity|]. rewrite IH. reflexivity. Qed.

Lemma map_chars_length (f : ascii -> ascii) (s : string) :
  String.length (Str.map_chars f s) = String.length s.
Proof. induction s as [|a s IH]; simpl; [reflexivity|]. rewrite IH. reflexivity. Qed.

Lemma to_slash_id (s : string) :
  no_backslash s = true -> Str.map_chars to_slash s = s.
Proof.
  unfold no_backslash. induction s as [|a s IH]; simpl; [reflexivity|].
  intros H. apply andb_prop in H as [Ha Hs]. rewrite (IH Hs).
  unfold to_slash. apply negb_true_iff in Ha. rewrite Ha. reflexivity.
Qed.

Lemma to_slash_all_slashes (s : string) :
  all_slashes s = true -> Str.map_chars to_slash s = s.
Proof.
  unfold all_slashes. induction s as [|a s IH]; simpl; [reflexivity|].
  intros H. apply andb_prop in H as [Ha Hs]. rewrite (IH Hs).
  apply ascii_eqb_true in Ha. subst a. reflexivity.
Qed.

Lemma app_inv_length (a b c d : string) :
  a +:+ b = c +:+ d -> String.length a = String.length c ->
  a = c /\ b = d.
Proof.
  revert c. induction a as [|x a IH]; intros [|y c] H L;
    simpl in *; try discriminate.
  - split; [reflexivity|exact H].
  - injection H as -> H. injection L as L.
    destruct (IH c H L) as [-> ->]. split; reflexivity.
Qed.

Lemma cut_last_sep_app (p : string) :
  p = fst (Posix.cut_last_sep p) +:+ snd (Posix.cut_last_sep p).
Proof.
  induction p as [|a p IH]; [reflexivity|].
  cbn [Posix.cut_last_sep].
  destruct (Posix.cut_last_sep p) as [h t]. cbn [fst snd] in IH.
  destruct h as [|b h]; cbn [Str.is_empty negb].
  - destruct (Ascii.eqb a "/") eqn:Ea; cbn [fst snd]; simpl in *;
      f_equal; exact IH.
  - cbn [fst snd]. simpl. f_equal. exact IH.
Qed.

Lemma cut_last_sep_nosep (p : string) :
  nosep (snd (Posix.cut_last_sep p)) = true.
Proof.
  induction p as [|a p IH]; [reflexivity|].
  cbn [Posix.cut_last_sep].
  destruct (Posix.cut_last_sep p) as [h t]. cbn [fst snd] in IH.
  destruct h as [|b h]; cbn [Str.is_empty negb]; [|exact IH].
  destruct (Ascii.eqb a "/") eqn:Ea; cbn [fst snd]; [exact IH|].
  unfold nosep in *. cbn [Str.all_chars]. rewrite Ea, IH. reflexivity.
Qed.

Lemma basename_nosep (p : string) : nosep (Posix.basename p) = true.
Proof. apply cut_last_sep_nosep. Qed.

Lemma lstrip_decomp (s : string) :
  exists z, s = z +:+ Str.lstrip "/" s
            /\ all_slashes z = true
            /\ Str.startswith (Str.lstrip "/" s) "/" = false.
Proof.
  induction s as [|a s (z & E & Hz & Hs)].
  - exists "". repeat split; reflexivity.
  - cbn [Str.lstrip]. destruct (Ascii.eqb a "/") eqn:Ea.
    + exists (String a z). split; [simpl; congruence|].
      split; [|exact Hs]. unfold all_slashes in *. simpl. rewrite Ea, Hz.
      reflexivity.
    + exists "". split; [reflexivity|]. split; [reflexivity|].
      simpl. rewrite Ea. reflexivity.
Qed.

Lemma all_chars_rev (P : ascii -> bool) (s : string) :
  Str.all_chars P (Str.rev s) = Str.all_chars P s.
Proof.
  induction s as [|a s IH]; [reflexivity|].
  rewrite rev_cons, all_chars_app, IH. simpl.
  rewrite andb_true_r, andb_comm. reflexivity.
Qed.

Lemma rstrip_decomp (h : string) :
  exists z, h = Posix.rstrip_sep h +:+ z
            /\ all_slashes z = true
            /\ Str.endswith (Posix.rstrip_sep h) "/" = false.
Proof.
  unfold Posix.rstrip_sep.
  destruct (lstrip_decomp (Str.rev h)) as (z & E & Hz & Hs).
  exists (Str.rev z). split; [|split].
  - rewrite <- rev_app, <- E, rev_involutive. reflexivity.
  - unfold all_slashes in *. rewrite all_chars_rev. exact Hz.
  - unfold Str.endswith. rewrite rev_involutive. exact Hs.
Qed.

Lemma all_slashes_endswith (h : string) :
  all_slashes h = true -> h <> "" -> Str.endswith h "/" = true.
Proof.
  intros H Hne. unfold Str.endswith.
  assert (Hr : all_slashes (Str.rev h) = true).
  { unfold all_slashes in *. rewrite all_chars_rev. exact H. }
  destruct (Str.rev h) as [|a r] eqn:E.
  - exfalso. apply Hne. rewrite <- (rev_involutive h), E. reflexivity.
  - unfold all_slashes in Hr. simpl in Hr. apply andb_prop in Hr as [Ha _].
    simpl. rewrite Ha. reflexivity.
Qed.

(** A path is its directory, then separators, then its base name; no
    separator in between exactly when [os.path.join] adds none to the
    directory. *)
Lemma dirname_decomp (p : string) :
  exists z,
    p = Posix.dirname p +:+ z +:+ Posix.basename p
    /\ all_slashes z = true
    /\ (Str.is_empty (Posix.dirname p) || Str.endswith (Posix.dirname p) "/"
        = true -> z = "").
Proof.
  unfold Posix.dirname, Posix.basename.
  pose proof (cut_last_sep_app p) as E.
  destruct (Posix.cut_last_sep p) as [h t]. cbn [fst snd] in *.
  destruct (Str.is_empty h) eqn:Eh; cbn [negb andb].
  { exists "". split; [exact E|]. split; reflexivity. }
  fold (all_slashes h). destruct (all_slashes h) eqn:Ah; cbn [negb].
  { exists "". split; [exact E|]. split; reflexivity. }
  destruct (rstrip_decomp h) as (z & Ez & Hz & Hend).
  exists z. split; [|split].
  - rewrite <- app_assoc_s, <- Ez. exact E.
  - exact Hz.
  - intros H. apply orb_prop in H as [H|H]; [|congruence].
    destruct (Posix.rstrip_sep h); [|discriminate].
    simpl in Ez. subst z. congruence.
Qed.

Lemma nosep_not_abs (b : string) :
  nosep b = true -> Str.startswith b "/" = false.
Proof.
  destruct b as [|a b]; [reflexivity|]. unfold nosep. simpl.
  intros H. apply andb_prop in H as [Ha _]. apply negb_true_iff in Ha.
  rewrite Ha. reflexivity.
Qed.

Lemma endswith_audio (s : string) : Str.endswith (s +:+ "audio") "/" = false.
Proof. unfold Str.endswith. rewrite rev_app. reflexivity. Qed.

(** The separator [os.path.join] puts after the directory [d]. *)
Local Abbreviation glue d :=
  (if Str.is_empty d || Str.endswith d "/" then "" else "/").

Lemma join2_audio (d : string) :
  Posix.join2 d "audio" = d +:+ glue d +:+ "audio".
Proof.
  unfold Posix.join2, Posix.sep.
  cbn [Str.startswith Ascii.eqb Bool.eqb andb].
  destruct (Str.is_empty d || Str.endswith d "/"); reflexivity.
Qed.

Lemma audio_dir_join (d b : string) :
  nosep b = true ->
  Posix.join (Posix.join d ["audio"]) [b]
  = d +:+ glue d +:+ "audio/" +:+ b.
Proof.
  intros Hb. unfold Posix.join. cbn [fold_left].
  rewrite join2_audio. unfold Posix.join2 at 1. unfold Posix.sep.
  rewrite (nosep_not_abs b Hb).
  rewrite <- (app_assoc_s d), endswith_audio, orb_false_r.
  assert (E : Str.is_empty ((d +:+ glue d) +:+ "audio") = false)
    by (destruct (d +:+ glue d); reflexivity).
  rewrite E, !app_assoc_s. reflexivity.
Qed.

Lemma local_audio_path_eq (model3_path audio_url : string) :
  let d := Posix.dirname model3_path in
  AudioMain.local_audio_path model3_path audio_url
  = Str.map_chars to_slash d +:+ glue d +:+ "audio/"
    +:+ Str.map_chars to_slash (Posix.basename audio_url).
Proof.
  intros d. unfold AudioMain.local_audio_path. fold d.
  rewrite (audio_dir_join d _ (basename_nosep audio_url)).
  rewrite replace_backslash, !map_chars_app.
  destruct (Str.is_empty d || Str.endswith d "/"); reflexivity.
Qed.

Lemma nosep_app (s t : string) :
  nosep (s +:+ t) = nosep s && nosep t.
Proof. apply all_chars_app. Qed.

(** No audio file is stored on the descriptor itself. *)
Lemma audio_path_distinct (model3_path audio_url : string) :
  AudioMain.local_audio_path model3_path audio_url <> model3_path.
Proof.
  rewrite local_audio_path_eq. cbv zeta.
  destruct (dirname_decomp model3_path) as (z & E & Hz & Hglue).
  pose proof (basename_nosep model3_path) as Ht.
  set (d := Posix.dirname model3_path) in *.
  set (t := Posix.basename model3_path) in *.
  set (b := Str.map_chars to_slash (Posix.basename audio_url)).
  intros H. rewrite E in H.
  apply app_inv_length in H as [_ H]; [|apply map_chars_length].
  destruct (Str.is_empty d || Str.endswith d "/") eqn:G.
  - rewrite (Hglue eq_refl) in H. simpl in H.
    rewrite <- H in Ht. discriminate Ht.
  - destruct z as [|c z].
    + simpl in H. rewrite <- H in Ht. discriminate Ht.
    + simpl in H. injection H as _ H.
      destruct z as [|c' z].
      * simpl in H. rewrite <- H in Ht. discriminate Ht.
      * unfold all_slashes in Hz. simpl in Hz.
        apply andb_prop in Hz as [_ Hz]. apply andb_prop in Hz as [Hc _].
        apply ascii_eqb_true in Hc. subst c'. simpl in H. discriminate.
Qed.

End AudioPathFacts.

(** ** [os.path.relpath] of an audio file *)

Section RelpathFacts.

Lemma startswith_sep_app (s t : string) :
  s <> "" -> Str.startswith (s +:+ t) "/" = Str.startswith s "/".
Proof. destruct s as [|a s]; [congruence|]. reflexivity. Qed.

Lemma endswith_sep_app (s t : string) :
  t <> "" -> Str.endswith (s +:+ t) "/" = Str.endswith t "/".
Proof.
  intros Ht. unfold Str.endswith. rewrite rev_app.
  apply startswith_sep_app. intros E. apply Ht.
  rewrite <- (rev_involutive t), E. reflexivity.
Qed.

Lemma is_empty_app_r (s t : string) :
  t <> "" -> Str.is_empty (s +:+ t) = false.
Proof. destruct s, t; simpl; congruence. Qed.

Lemma join2_empty_r (c : string) :
  Posix.join2 c "" = c
  \/ (Posix.join2 c "" = c +:+ "/"
      /\ Str.is_empty c || Str.endswith c "/" = false).
Proof.
  unfold Posix.join2, Posix.sep. cbn [Str.startswith].
  destruct (Str.is_empty c || Str.endswith c "/").
  - left. apply app_empty_r.
  - right. split; reflexivity.
Qed.

(** Joining is associative as long as the last piece is relative. *)
Lemma join2_assoc (c x b : string) :
  Str.startswith b "/" = false ->
  Posix.join2 c (Posix.join2 x b) = Posix.join2 (Posix.join2 c x) b.
Proof.
  intros Hb. destruct x as [|a x].
  - assert (E : Posix.join2 "" b = b).
    { unfold Posix.join2, Posix.sep. rewrite Hb. reflexivity. }
    rewrite E.
    destruct (join2_empty_r c) as [->|[-> G]]; [reflexivity|].
    unfold Posix.join2, Posix.sep. rewrite Hb, G.
    rewrite (endswith_sep_app c "/"), orb_true_r by discriminate.
    rewrite app_assoc_s. reflexivity.
  - set (X := String a x).
    assert (HX : X <> "") by discriminate.
    destruct (Str.startswith X "/") eqn:Habs.
    + assert (E : Posix.join2 c X = X).
      { unfold Posix.join2, Posix.sep. rewrite Habs. reflexivity. }
      rewrite E. unfold Posix.join2 at 1. unfold Posix.sep.
      assert (E2 : Str.startswith (Posix.join2 X b) "/" = true).
      { unfold Posix.join2, Posix.sep. rewrite Hb.
        destruct (Str.is_empty X || Str.endswith X "/");
          rewrite startswith_sep_app by exact HX; exact Habs. }
      rewrite E2. reflexivity.
    + assert (E : forall y, y <> "" ->
                  Posix.join2 c (X +:+ y)
                  = Posix.join2 c X +:+ y).
      { intros y Hy. unfold Posix.join2, Posix.sep.
        rewrite startswith_sep_app, Habs by exact HX.
        destruct (Str.is_empty c || Str.endswith c "/");
          rewrite ?app_assoc_s; reflexivity. }
      assert (G : Str.is_empty (Posix.join2 c X)
                  || Str.endswith (Posix.join2 c X) "/"
                  = Str.is_empty X || Str.endswith X "/").
      { unfold Posix.join2, Posix.sep. rewrite Habs.
        destruct (Str.is_empty c || Str.endswith c "/").
        - rewrite is_empty_app_r, endswith_sep_app by exact HX. reflexivity.
        - rewrite is_empty_app_r by discriminate.
          rewrite <- app_assoc_s, endswith_sep_app by exact HX.
          reflexivity. }
      unfold Posix.join2 at 2 3. unfold Posix.sep. rewrite Hb, G.
      destruct (Str.is_empty X || Str.endswith X "/").
      * destruct b as [|b0 b].
        { rewrite !app_empty_r. reflexivity. }
        apply E. discriminate.
      * rewrite E by (destruct b; discriminate).
        reflexivity.
Qed.

Lemma parts_cons_sep (s : string) :
  nonempty_parts (String "/" s) = nonempty_parts s.
Proof. unfold nonempty_parts. rewrite split_slash_sep. reflexivity. Qed.

Lemma parts_plain (c : string) : plain c -> nonempty_parts c = [c].
Proof.
  intros [Hne Hs]. unfold nonempty_parts.
  rewrite (split_nosep c Hs), filter_cons, decide_True; [reflexivity|].
  destruct c; [congruence|reflexivity].
Qed.

Lemma parts_app_sep (s t : string) :
  nonempty_parts (s +:+ "/" +:+ t) = nonempty_parts s ++ nonempty_parts t.
Proof. unfold nonempty_parts. rewrite split_app_sep, filter_app. reflexivity. Qed.

Lemma parts_join (l : list string) :
  Forall plain l -> nonempty_parts (Str.join "/" l) = l.
Proof.
  induction 1 as [|x l Hx Hl IH]; [reflexivity|].
  destruct l as [|y l]; [apply parts_plain, Hx|].
  rewrite join_cons2, parts_app_sep, IH, (parts_plain x Hx).
  reflexivity.
Qed.

Lemma parts_times (i : nat) (s : string) :
  nonempty_parts (Posix.times i "/" +:+ s) = nonempty_parts s.
Proof.
  induction i as [|i IH]; [reflexivity|].
  simpl. change (String "/" (Posix.times i "/") +:+ s)
    with (String "/" (Posix.times i "/" +:+ s)).
  rewrite parts_cons_sep. exact IH.
Qed.

(** The components of a normalised absolute path. *)
Lemma parts_normpath (path : string) :
  Str.startswith path "/" = true ->
  nonempty_parts (Posix.normpath path) = Posix.norm_comps path.
Proof.
  intros Habs. unfold Posix.normpath.
  destruct path as [|a path]; [discriminate|]. cbn [Str.is_empty].
  unfold Posix.render, Posix.sep.
  assert (Hi : exists i, Posix.initial_slashes (String a path) = S i).
  { unfold Posix.initial_slashes, Posix.sep. rewrite Habs.
    destruct (_ && _); eauto. }
  destruct Hi as [i ->].
  change (Posix.times (S i) "/" +:+ ?s)
    with (String "/" (Posix.times i "/" +:+ s)).
  cbn [Posix.or_dot Str.is_empty].
  rewrite parts_cons_sep, parts_times.
  apply parts_join. eapply Forall_impl; [apply norm_comps_ok|].
  intros c [Hc _]. exact Hc.
Qed.

Lemma commonprefix_app (l r : list string) :
  commonprefix l (l ++ r) = l.
Proof.
  induction l as [|x l IH]; [reflexivity|].
  simpl. rewrite String.eqb_refl, IH. reflexivity.
Qed.

Lemma join2_abs (p b : string) :
  Str.startswith p "/" = true -> Str.startswith b "/" = false ->
  Str.startswith (Posix.join2 p b) "/" = true.
Proof.
  intros Hp Hb. unfold Posix.join2, Posix.sep. rewrite Hb.
  assert (Hne : p <> "") by (destruct p; [discriminate|congruence]).
  destruct (Str.is_empty p || Str.endswith p "/");
    rewrite startswith_sep_app by exact Hne; exact Hp.
Qed.

Lemma join2_abs_l (c d : string) :
  Str.startswith c "/" = true -> Str.startswith (Posix.join2 c d) "/" = true.
Proof.
  intros Hc. destruct (Str.startswith d "/") eqn:Hd.
  - unfold Posix.join2, Posix.sep. rewrite Hd. exact Hd.
  - apply join2_abs; assumption.
Qed.

Lemma ordinary_inv (name : string) :
  ordinary name = true ->
  name <> "" /\ no_backslash name = true /\ name <> "." /\ name <> "..".
Proof.
  unfold ordinary. intros H.
  apply andb_prop in H as [H H4]. apply andb_prop in H as [H H3].
  apply andb_prop in H as [H1 H2].
  repeat split.
  - intros ->. discriminate.
  - exact H2.
  - intros ->. discriminate.
  - intros ->. discriminate.
Qed.

Lemma dirname_no_backslash (p : string) :
  no_backslash p = true -> no_backslash (Posix.dirname p) = true.
Proof.
  intros H. destruct (dirname_decomp p) as (z & E & _).
  rewrite E in H. unfold no_backslash in *.
  rewrite all_chars_app in H. apply andb_prop in H as [H _]. exact H.
Qed.

(** Without backslashes the audio file is at
    [join(dirname(model3_path), "audio", basename(audio_url))]. *)
Lemma local_audio_path_plain (model3_path audio_url : string) :
  no_backslash model3_path = true ->
  no_backslash (Posix.basename audio_url) = true ->
  AudioMain.local_audio_path model3_path audio_url
  = Posix.join (Posix.dirname model3_path)
      ["audio"; Posix.basename audio_url].
Proof.
  intros Hm Hb. rewrite local_audio_path_eq. cbv zeta.
  rewrite !to_slash_id by auto using dirname_no_backslash.
  change (Posix.join ?d [?a; ?b]) with (Posix.join (Posix.join d [a]) [b]).
  rewrite audio_dir_join by apply basename_nosep. reflexivity.
Qed.

Lemma norm_comps_audio (base b : string) :
  plain b -> b <> "." -> b <> ".." ->
  Posix.norm_comps (Posix.join base ["audio"; b])
  = Posix.norm_comps base ++ ["audio"; b].
Proof.
  intros Hb Hd Hdd.
  assert (Hsegs : Forall plain ["audio"; b]).
  { apply Forall_cons. split; [split; [discriminate|reflexivity]|].
    apply Forall_cons. split; [exact Hb|apply Forall_nil_2]. }
  unfold Posix.norm_comps.
  rewrite (initial_slashes_join _ _ Hsegs), (norm_fold_join _ _ _ Hsegs).
  rewrite norm_fold_plain.
  2: { apply Forall_cons. split; [split; discriminate|].
       apply Forall_cons. split; [split; [apply Hb|exact Hdd]|].
       apply Forall_nil_2. }
  rewrite !filter_cons, filter_nil, !decide_True by (discriminate || exact Hd).
  reflexivity.
Qed.

(** The path of a fetched audio file relative to the directory of the
    descriptor. *)
Lemma relpath_audio (w : world) (model3_path audio_url : string) :
  Str.startswith (cwd w) "/" = true ->
  no_backslash model3_path = true ->
  ordinary (Posix.basename audio_url) = true ->
  Str.replace
    (relpath w (AudioMain.local_audio_path model3_path audio_url)
             (Posix.dirname model3_path)) "\" "/"
  = "audio/" +:+ Posix.basename audio_url.
Proof.
  intros Hcwd Hm Hord.
  apply ordinary_inv in Hord as (Hne & Hbs & Hd & Hdd).
  pose proof (basename_nosep audio_url) as Hsep.
  set (b := Posix.basename audio_url) in *.
  set (d := Posix.dirname model3_path).
  assert (Hb : plain b) by (split; assumption).
  assert (Hrel : Str.startswith b "/" = false) by apply nosep_not_abs, Hsep.
  rewrite (local_audio_path_plain _ _ Hm Hbs). fold b d.
  unfold relpath, abspath. cbv zeta.
  set (B := Posix.join (cwd w) [d]).
  assert (HB : Str.startswith B "/" = true) by apply join2_abs_l, Hcwd.
  assert (E : Posix.join (cwd w) [Posix.join d ["audio"; b]]
              = Posix.join B ["audio"; b]).
  { unfold B, Posix.join. cbn [fold_left].
    rewrite (join2_assoc _ _ b Hrel), (join2_assoc _ _ "audio" eq_refl).
    reflexivity. }
  rewrite E.
  rewrite (parts_normpath B HB), parts_normpath.
  2: { unfold Posix.join. cbn [fold_left].
       apply join2_abs; [apply join2_abs; [exact HB|reflexivity]|exact Hrel]. }
  rewrite (norm_comps_audio B b Hb Hd Hdd).
  rewrite commonprefix_app, Nat.sub_diag, drop_app_length.
  cbn [replicate app].
  assert (J : Posix.join "audio" [b] = "audio/" +:+ b).
  { unfold Posix.join, Posix.join2, Posix.sep. cbn [fold_left].
    rewrite Hrel. reflexivity. }
  rewrite J, replace_backslash. apply to_slash_id.
  unfold no_backslash in *. rewrite all_chars_app, Hbs. reflexivity.
Qed.

End RelpathFacts.

(** ** The pass over the motions of a well-formed descriptor *)

Section AudioPassFacts.

Variable net : network.
Variable model3_path : string.
Variable w : world.

Hypothesis Hcwd : Str.startswith (cwd w) "/" = true.
Hypothesis Hpath : no_backslash model3_path = true.

Local Abbreviation ok := (fetched net w model3_path).
Local Abbreviation rep := (report_of net w model3_path).
Local Abbreviation audio_only := (writes_only (is_audio_path model3_path)).
Local Abbreviation ordinary_urls urls :=
  (forallb (fun u => ordinary (Posix.basename u)) urls).

(** Whether a fetch succeeds does not depend on what the pass did
    before. *)
Lemma audio_download_ok_extends (url local : string) (es : list event) :
  fst (Audio.download_file net url local (extends w es))
  = fst (Audio.download_file net url local w).
Proof.
  unfold Audio.download_file, makedirs.
  destruct (Str.is_empty (Posix.dirname local)); cbn [unwritable extends].
  - cbv zeta. destruct (net_get net url 0) as [e|status chunks broken];
      [reflexivity|].
    destruct (raises_for_status status); [reflexivity|].
    cbn [unwritable perform emit set_fs extends].
    destruct (unwritable w local); [reflexivity|].
    destruct broken; reflexivity.
  - destruct (unwritable w (Posix.dirname local)); [reflexivity|].
    cbv zeta. destruct (net_get net url 0) as [e|status chunks broken];
      [reflexivity|].
    destruct (raises_for_status status); [reflexivity|].
    cbn [unwritable perform emit set_fs extends].
    destruct (unwritable w local); [reflexivity|].
    destruct broken; reflexivity.
Qed.

Lemma audio_fetch_step (url : string) (es : list event) :
  exists es',
    Audio.download_file net url
      (AudioMain.local_audio_path model3_path url) (extends w es)
    = (ok url, extends w (es ++ es'))
    /\ Forall audio_only es'.
Proof.
  destruct (audio_download_events net (is_audio_path model3_path) url
              (AudioMain.local_audio_path model3_path url) (extends w es))
    as (es' & E & H); [exists url; reflexivity|].
  exists es'. split; [|exact H].
  rewrite <- extends_app, <- E. unfold fetched.
  rewrite <- (audio_download_ok_extends url _ es).
  apply surjective_pairing.
Qed.

Lemma process_motion_spec (motion : json) (found : bool)
    (reports : list audio_report) (es : list event) :
  motion_ok motion = true ->
  ordinary_urls (motion_urls motion) = true ->
  exists es',
    AudioMain.process_motion net model3_path motion (found, reports)
      (extends w es)
    = (Some (localize_motion ok motion,
             (found || existsb ok (motion_urls motion),
              reports ++ map rep (motion_urls motion))),
       extends w (es ++ es'))
    /\ Forall audio_only es'.
Proof.
  intros Hok Hord. destruct motion as [| | | | |d]; try discriminate.
  unfold motion_ok in Hok.
  unfold AudioMain.process_motion, motion_urls, localize_motion, audio_of,
    io_bind, io_must, io_ret, io_read, AudioMain.download_file, io_total,
    as_str in *.
  cbn [Py.contains Py.index] in *. unfold Dict.has.
  destruct (Dict.get "Audio" d) as [[| | |url| |]|] eqn:Ea; try discriminate.
  - cbn [forallb] in Hord. rewrite andb_true_r in Hord.
    destruct (audio_fetch_step url es) as (es' & -> & Hes).
    exists es'. split; [|exact Hes].
    cbn [map existsb app]. rewrite orb_false_r.
    destruct (ok url) eqn:Eok.
    + rewrite (relpath_audio (extends w (es ++ es')) _ _ Hcwd Hpath Hord).
      rewrite orb_true_r. unfold report_of. rewrite Eok. reflexivity.
    + rewrite orb_false_r. unfold report_of. rewrite Eok. reflexivity.
  - exists []. split; [|constructor].
    cbn [map existsb]. rewrite orb_false_r, !app_nil_r. reflexivity.
Qed.

Lemma process_list_spec (l : list json) :
  forall (found : bool) (reports : list audio_report) (es : list event),
  forallb motion_ok l = true ->
  ordinary_urls (flat_map motion_urls l) = true ->
  exists es',
    AudioMain.process_list net model3_path l (found, reports) (extends w es)
    = (Some (map (localize_motion ok) l,
             (found || existsb ok (flat_map motion_urls l),
              reports ++ map rep (flat_map motion_urls l))),
       extends w (es ++ es'))
    /\ Forall audio_only es'.
Proof.
  induction l as [|motion l IH]; intros found reports es Hok Hord.
  - exists []. split; [|constructor].
    cbn. rewrite orb_false_r, !app_nil_r. reflexivity.
  - cbn [forallb flat_map] in *.
    apply andb_prop in Hok as [Hm Hl].
    rewrite forallb_app in Hord. apply andb_prop in Hord as [Ho1 Ho2].
    destruct (process_motion_spec motion found reports es Hm Ho1)
      as (es1 & E1 & H1).
    destruct (IH (found || existsb ok (motion_urls motion))
                 (reports ++ map rep (motion_urls motion))
                 (es ++ es1) Hl Ho2) as (es2 & E2 & H2).
    exists (es1 ++ es2). split; [|apply Forall_app; split; assumption].
    cbn [AudioMain.process_list]. unfold io_bind at 1. rewrite E1.
    cbn [fst snd]. unfold io_bind at 1. rewrite E2.
    unfold io_ret. cbn [fst snd map].
    rewrite existsb_app, map_app, orb_assoc, !app_assoc. reflexivity.
Qed.

Lemma process_group_spec (g : json) (found : bool)
    (reports : list audio_report) (es : list event) :
  group_ok g = true ->
  ordinary_urls (group_urls g) = true ->
  exists es',
    AudioMain.process_group net model3_path g (found, reports) (extends w es)
    = (Some (localize_group ok g,
             (found || existsb ok (group_urls g),
              reports ++ map rep (group_urls g))),
       extends w (es ++ es'))
    /\ Forall audio_only es'.
Proof.
  intros Hok Hord. destruct g as [| | | |l|]; try discriminate.
  cbn [group_ok group_urls] in *.
  destruct (process_list_spec l found reports es Hok Hord) as (es' & E & H).
  exists es'. split; [|exact H].
  unfold AudioMain.process_group, io_bind, io_must, io_ret.
  cbn [Py.iter]. rewrite E. reflexivity.
Qed.

Lemma process_groups_spec (groups : Dict.t) :
  forall (found : bool) (reports : list audio_report) (es : list event),
  groups_ok groups = true ->
  ordinary_urls (groups_urls groups) = true ->
  exists es',
    AudioMain.process_groups net model3_path groups (found, reports)
      (extends w es)
    = (Some (localize_groups ok groups,
             (found || existsb ok (groups_urls groups),
              reports ++ map rep (groups_urls groups))),
       extends w (es ++ es'))
    /\ Forall audio_only es'.
Proof.
  induction groups as [|[name g] groups IH]; intros found reports es Hok Hord.
  - exists []. split; [|constructor].
    cbn. rewrite orb_false_r, !app_nil_r. reflexivity.
  - unfold groups_ok, groups_urls in *. cbn [forallb flat_map fst snd] in *.
    apply andb_prop in Hok as [Hg Hl].
    rewrite forallb_app in Hord. apply andb_prop in Hord as [Ho1 Ho2].
    destruct (process_group_spec g found reports es Hg Ho1)
      as (es1 & E1 & H1).
    destruct (IH (found || existsb ok (group_urls g))
                 (reports ++ map rep (group_urls g))
                 (es ++ es1) Hl Ho2) as (es2 & E2 & H2).
    exists (es1 ++ es2). split; [|apply Forall_app; split; assumption].
    cbn [AudioMain.process_groups]. unfold io_bind at 1. rewrite E1.
    cbn [fst snd]. unfold io_bind at 1. rewrite E2.
    unfold io_ret, localize_groups. cbn [fst snd map].
    rewrite existsb_app, map_app, orb_assoc, !app_assoc. reflexivity.
Qed.

End AudioPassFacts.

Section AudioBodyFacts.

Lemma dict_alter_at (k : string) (f g : json -> json) (d : Dict.t) (v : json) :
  Dict.get k d = Some v -> f v = g v -> dict_alter k f d = dict_alter k g d.
Proof.
  intros Hget Hfg. induction d as [|[k' v'] d IH]; [discriminate|].
  cbn [Dict.get dict_alter] in *. destruct (String.eqb k k').
  - injection Hget as ->. rewrite Hfg. reflexivity.
  - rewrite (IH Hget). reflexivity.
Qed.

(** The document the pass dumps is the localized descriptor. *)
Lemma localize_written (ok : string -> bool) (d fr groups : Dict.t) :
  Dict.get "FileReferences" d = Some (JObj fr) ->
  Dict.get "Motions" fr = Some (JObj groups) ->
  obj_alter "FileReferences"
    (obj_alter "Motions" (fun _ => JObj (localize_groups ok groups)))
    (JObj d)
  = localize ok (JObj d).
Proof.
  intros Hfr Hm. unfold localize. cbn [obj_alter]. f_equal.
  apply (dict_alter_at _ _ _ _ _ Hfr). cbn [obj_alter]. f_equal.
  apply (dict_alter_at _ _ _ _ _ Hm). reflexivity.
Qed.

Lemma copy_leaves (src dst q : string) : q <> dst -> leaves q (EvCopy src dst).
Proof.
  intros Hq f. cbn [apply_event]. destruct (f !! src); [|reflexivity].
  apply lookup_insert_ne. congruence.
Qed.

Lemma audio_only_leaves (model3_path : string) (es : list event) :
  Forall (writes_only (is_audio_path model3_path)) es ->
  Forall (leaves model3_path) es.
Proof.
  apply writes_only_leaves. intros [url E].
  symmetry in E. exact (audio_path_distinct _ _ E).
Qed.

End AudioBodyFacts.



(** When every fetch fails the descriptor keeps its content and the
    backup is there all the same. *)
Example process_audio_all_failed :
  let r := AudioMain.process_audio net_down (fun _ => Some one_audio)
             (fun d => Str.join ";" (audio_urls d))
             "live2d/azurlane/x/x.model3.json" "abc123" descriptor_world in
  fst r = false
  /\ fs (snd r) !! "live2d/azurlane/x/x.model3.json" = Some "D"
  /\ fs (snd r) !! "live2d/azurlane/x/xabc123webversion.model3.json"
     = Some "D"
  /\ trace (snd r)
     = [EvCopy "live2d/azurlane/x/x.model3.json"
               "live2d/azurlane/x/xabc123webversion.model3.json";
        EvMakedirs "live2d/azurlane/x/audio";
        EvGet "https://static.l2d.su/v/a.mp3"].
Proof. vm_compute. repeat split. Qed.

(** Outside the documented shape the pass can end in an exception, which
    [process_audio] catches: here the first motion's audio is fetched,
    the second motion is a number, and nothing is written back. *)
Example process_audio_exception_after_fetch :
  let r := AudioMain.process_audio (net_sized 5) (fun _ => Some broken_motions)
             (fun d => Str.join ";" (audio_urls d))
             "live2d/azurlane/x/x.model3.json" "abc123" descriptor_world in
  fst r = false
  /\ fs (snd r) !! "live2d/azurlane/x/audio/a.mp3" = Some "12345"
  /\ fs (snd r) !! "live2d/azurlane/x/x.model3.json" = Some "D".
Proof. vm_compute. repeat split. Qed.

(** * Further properties of the fetchers *)

Section BudgetFacts.

Lemma file_events_gets (es : list event) : Forall file_event es -> gets es = 0.
Proof.
  induction 1 as [|e es He _ IH]; [reflexivity|].
  destruct e; try contradiction; exact IH.
Qed.

Lemma file_events_sleeps (es : list event) :
  Forall file_event es -> sleeps es = [].
Proof.
  induction 1 as [|e es He _ IH]; [reflexivity|].
  destruct e; try contradiction; exact IH.
Qed.

Lemma file_events_heads (es : list event) :
  Forall file_event es -> heads es = 0.
Proof.
  induction 1 as [|e es He _ IH]; [reflexivity|].
  destruct e; try contradiction; exact IH.
Qed.

Lemma file_events_contacts (g h : string) (es : list event) :
  Forall file_event es -> Forall (contacts g h) es.
Proof.
  intros H. eapply Forall_impl; [exact H|].
  intros e He. destruct e; try contradiction; exact I.
Qed.

Lemma heads_app (es1 es2 : list event) :
  heads (es1 ++ es2) = heads es1 + heads es2.
Proof. unfold heads. rewrite List.filter_app, length_app. reflexivity. Qed.

Lemma write_events_file (b : bool) (p : string) (chunks : list string) :
  Forall file_event (write_events b p chunks).
Proof.
  unfold write_events. apply Forall_map, Forall_forall. intros c _. exact I.
Qed.

Lemma makedirs_events (d : string) (w w1 : world) :
  makedirs d w = Some w1 ->
  w1 = extends w (if Str.is_empty d then [] else [EvMakedirs d]).
Proof.
  unfold makedirs. destruct (Str.is_empty d).
  - intros [= <-]. symmetry. apply extends_nil.
  - destruct (unwritable w d); [discriminate|].
    intros [= <-]. apply emit_extends_makedirs.
Qed.

End BudgetFacts.

Section NewBudget.

Variable net : network.
Variable encode_url : string -> string.

(** A pass of the newer loop: one transfer, then file operations only. *)
Lemma new_attempt_shape (url p : string) (n : nat) (w : world) :
  exists files,
    snd (New.attempt net encode_url url p n w)
    = extends w (EvGet (encode_url url) :: files)
    /\ Forall file_event files.
Proof.
  unfold New.attempt. cbv zeta. set (u := encode_url url).
  rewrite !perform_extends.
  destruct (net_get net u n) as [e|status chunks broken].
  { exists []. split; [reflexivity|constructor]. }
  destruct (status =? 404)%Z. { exists []. split; [reflexivity|constructor]. }
  destruct (raises_for_status status).
  { exists []. split; [reflexivity|constructor]. }
  rewrite unwritable_extends.
  destruct (unwritable w (p +:+ ".tmp")).
  { exists []. split; [reflexivity|constructor]. }
  rewrite write_chunks_extends, !extends_app.
  assert (H1 : Forall file_event
                 ([EvOpenW (p +:+ ".tmp")]
                  ++ write_events true (p +:+ ".tmp") chunks)).
  { apply Forall_app. split; [repeat constructor|apply write_events_file]. }
  destruct broken. { eexists. split; [reflexivity|exact H1]. }
  rewrite unwritable_extends.
  destruct (unwritable w p). { eexists. split; [reflexivity|exact H1]. }
  match goal with |- context [path_exists ?w0 p] =>
    destruct (path_exists w0 p) end;
    rewrite ?perform_extends, ?extends_app.
  - exists (([EvOpenW (p +:+ ".tmp")]
             ++ write_events true (p +:+ ".tmp") chunks)
            ++ [EvRemove p] ++ [EvRename (p +:+ ".tmp") p]).
    split; [rewrite <- !app_assoc; reflexivity|].
    apply Forall_app. split; [exact H1|repeat constructor].
  - exists (([EvOpenW (p +:+ ".tmp")]
             ++ write_events true (p +:+ ".tmp") chunks)
            ++ [EvRename (p +:+ ".tmp") p]).
    split; [rewrite <- !app_assoc; reflexivity|].
    apply Forall_app. split; [exact H1|repeat constructor].
Qed.

Lemma new_retry_budget (url p : string) (rem : nat) :
  forall (n : nat) (w : world),
  n + rem = 5 ->
  exists es,
    snd (New.retry net encode_url url p n rem w) = extends w es
    /\ gets es <= rem /\ (1 <= rem -> 1 <= gets es)
    /\ sleeps es = map linear_delay (seq n (gets es - 1))
    /\ heads es = 0
    /\ Forall (contacts (encode_url url) url) es.
Proof.
  induction rem as [|k IH]; intros n w Hn.
  { exists []. rewrite extends_nil. repeat split; try reflexivity; try lia.
    constructor. }
  cbn [New.retry].
  destruct (new_attempt_shape url p n w) as (files & Hw & Hf).
  set (ea := EvGet (encode_url url) :: files) in *.
  assert (Ga : gets ea = 1).
  { unfold ea. change (gets (?e :: ?l)) with (gets ([e] ++ l)).
    rewrite gets_app, (file_events_gets _ Hf). reflexivity. }
  assert (Sa : sleeps ea = []) by (apply (file_events_sleeps _ Hf)).
  assert (Ha : heads ea = 0) by (apply (file_events_heads _ Hf)).
  assert (Ca : Forall (contacts (encode_url url) url) ea).
  { constructor; [reflexivity|apply file_events_contacts, Hf]. }
  destruct (New.attempt net encode_url url p n w) as [[ok|] w1];
    cbn [snd] in Hw; subst w1.
  { exists ea. cbn [snd]. rewrite Ga, Sa. repeat split; auto; lia. }
  change (New.MAX_RETRIES - 1) with 4.
  destruct (Nat.ltb_spec n 4) as [Hlt|Hge].
  - destruct (IH (S n)
                (perform (EvSleep (New.RETRY_DELAY * (Z.of_nat n + 1)))
                   (extends w ea)) ltac:(lia))
      as (er & -> & Gr & Gr1 & Sr & Hr & Cr).
    rewrite perform_extends, !extends_app.
    eexists. split; [reflexivity|].
    rewrite !gets_app, !sleeps_app, !heads_app, Ga, Sa, Ha, Hr.
    cbn [gets sleeps heads List.filter is_get is_head List.length app].
    assert (1 <= gets er) by (apply Gr1; lia).
    split; [lia|]. split; [lia|]. split.
    + replace (1 + (0 + gets er) - 1) with (S (gets er - 1)) by lia.
      rewrite Sr. reflexivity.
    + split; [reflexivity|].
      apply Forall_app. split; [exact Ca|].
      apply Forall_cons. split; [exact I|exact Cr].
  - assert (k = 0) by lia. subst k. cbn [New.retry snd].
    exists ea. rewrite Ga, Sa. repeat split; auto; lia.
Qed.

Lemma new_probe_events (url : string) (force : bool) (w : world) :
  snd (New.probe net url force w)
  = extends w (if force then [] else [EvHead url]).
Proof.
  unfold New.probe. destruct force; [symmetry; apply extends_nil|].
  rewrite perform_extends.
  destruct (net_head net url) as [|status len]; [reflexivity|].
  destruct (status =? 200)%Z; [destruct len|]; reflexivity.
Qed.

End NewBudget.

(** X1: whatever the network and the disk do, one call of [download_file]
    of [1model.new.py] starts at most 5 transfers, all of the encoded URL,
    sends at most one probe (none when forced), and the waits between the
    transfers are 5 s, 10 s, ... one fewer than the transfers, so nothing
    is waited for after the last transfer. *)
Theorem new_download_budget (net : network) (encode_url : string -> string)
    (url local : string) (force : bool) (w : world) :
  let r := New.download_file net encode_url url local force w in
  let es := events_since w (snd r) in
  snd r = extends w es
  /\ gets es <= 5
  /\ sleeps es = map linear_delay (seq 0 (gets es - 1))
  /\ heads es = (if force then 0
                 else match makedirs (Posix.dirname (Posix.normpath local)) w
                      with Some _ => 1 | None => 0 end)
  /\ Forall (contacts (encode_url url) url) es.
Proof.
  cbv zeta. unfold New.download_file.
  destruct (makedirs (Posix.dirname (Posix.normpath local)) w) as [w1|] eqn:Hmk.
  2: { cbn [snd]. pose proof (events_since_extends w []) as E.
       rewrite extends_nil in E. rewrite E, extends_nil.
       split; [reflexivity|]. split; [cbn; lia|]. split; [reflexivity|].
       split; [destruct force; reflexivity|constructor]. }
  apply makedirs_events in Hmk. subst w1.
  set (pre := if Str.is_empty (Posix.dirname (Posix.normpath local))
              then [] else [EvMakedirs (Posix.dirname (Posix.normpath local))]).
  pose proof (new_probe_events net url force (extends w pre)) as Hp.
  destruct (New.probe net url force (extends w pre)) as [remote_size w2].
  cbn [snd] in Hp. subst w2. rewrite extends_app.
  set (pre2 := pre ++ (if force then [] else [EvHead url])).
  assert (G2 : gets pre2 = 0).
  { unfold pre2, pre. destruct (Str.is_empty _), force; reflexivity. }
  assert (S2 : sleeps pre2 = []).
  { unfold pre2, pre. destruct (Str.is_empty _), force; reflexivity. }
  assert (H2 : heads pre2 = if force then 0 else 1).
  { unfold pre2, pre. destruct (Str.is_empty _), force; reflexivity. }
  assert (C2 : Forall (contacts (encode_url url) url) pre2).
  { unfold pre2, pre. destruct (Str.is_empty _), force;
      repeat constructor. }
  match goal with |- context [if ?c then (true, _) else _] => destruct c end.
  - cbn [snd]. rewrite events_since_extends, G2, S2, H2.
    split; [reflexivity|]. split; [lia|]. split; [reflexivity|].
    split; [destruct force; reflexivity|exact C2].
  - destruct (new_retry_budget net encode_url url
                (New.local_path_of w local) 5 0 (extends w pre2) eq_refl)
      as (er & Hr & Gr & _ & Sr & Hh & Cr).
    change New.MAX_RETRIES with 5. rewrite Hr, extends_app.
    rewrite events_since_extends, gets_app, sleeps_app, heads_app.
    rewrite G2, S2, H2, Hh, Sr. cbn [app Nat.add].
    split; [reflexivity|]. split; [exact Gr|]. split; [reflexivity|].
    split; [destruct force; reflexivity|].
    apply Forall_app. split; assumption.
Qed.

Section OldBudget.

Variable net : network.

Lemma replay_write_all (p : string) (chunks : list string) :
  forall (c0 : string) (f : gmap string string),
  f !! p = Some c0 ->
  replay (write_events false p chunks) f !! p = Some (c0 +:+ body_of chunks).
Proof.
  unfold write_events. cbn [andb negb].
  induction chunks as [|c chunks IH]; intros c0 f Hf.
  - cbn. rewrite app_empty_r. exact Hf.
  - cbn [List.filter map replay fold_left apply_event body_of fold_right].
    rewrite Hf. fold (replay (map (EvWrite p)
      (List.filter (fun _ : string => true) chunks)) (<[p:=c0 +:+ c]> f)).
    rewrite (IH (c0 +:+ c)) by apply lookup_insert_eq.
    rewrite app_assoc_s. reflexivity.
Qed.

Lemma raises_for_status_spec (status : Z) :
  raises_for_status status = true <-> (400 <= status < 600)%Z.
Proof.
  unfold raises_for_status. rewrite andb_true_iff, Z.leb_le, Z.ltb_lt.
  reflexivity.
Qed.

Lemma raises_for_status_false (status : Z) :
  raises_for_status status = false <-> ~ (400 <= status < 600)%Z.
Proof.
  rewrite <- raises_for_status_spec. destruct (raises_for_status status);
    split; intros; congruence.
Qed.

(** What one pass of the older loop does and how it ends. *)
Lemma old_attempt_shape (url p : string) (n : nat) (w : world) :
  exists files,
    snd (Old.attempt net url p n w) = extends w (EvGet url :: files)
    /\ Forall file_event files
    /\ (fst (Old.attempt net url p n w) = Failed
        <-> old_retried w p (net_get net url n))
    /\ (fst (Old.attempt net url p n w) = Returned false
        <-> old_fatal w p (net_get net url n))
    /\ (fst (Old.attempt net url p n w) = Returned true ->
        exists status chunks,
          net_get net url n = GetResponse status chunks None
          /\ raises_for_status status = false
          /\ fs (extends w (EvGet url :: files)) !! p = Some (body_of chunks)).
Proof.
  unfold Old.attempt, old_retried, old_fatal. cbv zeta.
  rewrite !perform_extends.
  destruct (net_get net url n) as [e|status chunks broken].
  { exists []. destruct e; cbn [fst snd];
      (split; [reflexivity|]); (split; [constructor|]);
      (split; [split; intros; (exact I || tauto || discriminate || reflexivity)|]);
      (split; [split; intros; (exact I || tauto || discriminate || reflexivity)|]);
      intros; discriminate. }
  destruct (raises_for_status status) eqn:R.
  { apply raises_for_status_spec in R.
    destruct (Z.leb_spec 400 status) as [H4|H4]; [|lia].
    destruct (Z.ltb_spec status 500) as [H5|H5]; cbn [andb fst snd];
      exists []; (split; [reflexivity|]); (split; [constructor|]).
    - split; [split; [discriminate|intros [H|(H & _)]; [lia|discriminate]]|].
      split; [split; [intros _; left; lia|reflexivity]|discriminate].
    - split; [split; [intros _; left; lia|reflexivity]|].
      split; [split; [discriminate|intros [H|(H & _)]; [lia|discriminate]]|].
      discriminate. }
  pose proof (proj1 (raises_for_status_false status) R) as Hok.
  rewrite unwritable_extends.
  destruct (unwritable w p) eqn:Hw.
  { exists []. cbn [fst snd]. split; [reflexivity|]. split; [constructor|].
    split; [split; [discriminate|intros [H|(_ & H & _)]; [lia|discriminate]]|].
    split; [split; [intros _; right; auto|reflexivity]|discriminate]. }
  rewrite write_chunks_extends, !extends_app.
  exists ([EvOpenW p] ++ write_events false p chunks).
  assert (Hfiles : Forall file_event
                     ([EvOpenW p] ++ write_events false p chunks)).
  { apply Forall_app. split; [repeat constructor|apply write_events_file]. }
  assert (Hbody : fs (extends w (EvGet url
                     :: [EvOpenW p] ++ write_events false p chunks)) !! p
                  = Some (body_of chunks)).
  { cbn [fs extends]. unfold replay.
    cbn [app fold_left apply_event].
    fold (replay (write_events false p chunks) (<[p:=""]> (fs w))).
    rewrite (replay_write_all p chunks "") by apply lookup_insert_eq.
    reflexivity. }
  destruct broken as [[| |]|]; cbn [fst snd];
    (split; [reflexivity|]); (split; [exact Hfiles|]).
  - split; [split; [intros _; right; auto|reflexivity]|].
    split; [split; [discriminate
                   |intros [H|(_ & [H|H])]; [lia|discriminate|discriminate]]|].
    discriminate.
  - split; [split; [intros _; right; auto|reflexivity]|].
    split; [split; [discriminate
                   |intros [H|(_ & [H|H])]; [lia|discriminate|discriminate]]|].
    discriminate.
  - split; [split; [discriminate
                   |intros [H|(_ & _ & [H|H])]; [lia|discriminate|discriminate]]|].
    split; [split; [intros _; right; auto|reflexivity]|discriminate].
  - split; [split; [discriminate
                   |intros [H|(_ & _ & [H|H])]; [lia|discriminate|discriminate]]|].
    split; [split; [discriminate
                   |intros [H|(_ & [H|H])]; [lia|discriminate|discriminate]]|].
    intros _. exists status, chunks. auto.
Qed.

Lemma old_retry_spec (url p : string) (rem : nat) :
  forall (n : nat) (w : world),
  n + rem = 5 ->
  exists es,
    snd (Old.retry net url p n rem w) = extends w es
    /\ gets es <= rem /\ (1 <= rem -> 1 <= gets es)
    /\ sleeps es = replicate (gets es - 1) Old.RETRY_DELAY
    /\ heads es = 0
    /\ Forall (contacts url url) es
    /\ (fst (Old.retry net url p n rem w) = true ->
        exists j status chunks,
          n <= j < 5
          /\ net_get net url j = GetResponse status chunks None
          /\ raises_for_status status = false
          /\ fs (extends w es) !! p = Some (body_of chunks)).
Proof.
  induction rem as [|k IH]; intros n w Hn.
  { exists []. rewrite extends_nil. cbn [Old.retry fst snd].
    split; [reflexivity|]. split; [cbn; lia|]. split; [lia|].
    split; [reflexivity|]. split; [reflexivity|].
    split; [constructor|discriminate]. }
  cbn [Old.retry].
  destruct (old_attempt_shape url p n w) as (files & Hw & Hf & _ & _ & Hok).
  set (ea := EvGet url :: files) in *.
  assert (Ga : gets ea = 1).
  { unfold ea. change (gets (?e :: ?l)) with (gets ([e] ++ l)).
    rewrite gets_app, (file_events_gets _ Hf). reflexivity. }
  assert (Sa : sleeps ea = []) by (apply (file_events_sleeps _ Hf)).
  assert (Ha : heads ea = 0) by (apply (file_events_heads _ Hf)).
  assert (Ca : Forall (contacts url url) ea).
  { constructor; [reflexivity|apply file_events_contacts, Hf]. }
  destruct (Old.attempt net url p n w) as [[ok|] w1];
    cbn [fst snd] in Hw, Hok; subst w1.
  { exists ea. cbn [fst snd]. rewrite Ga, Sa.
    split; [reflexivity|]. split; [lia|]. split; [lia|].
    split; [reflexivity|]. split; [exact Ha|]. split; [exact Ca|].
    intros ->. destruct (Hok eq_refl) as (status & chunks & E & R & Hfs).
    exists n, status, chunks. split; [lia|]. auto. }
  change (Old.MAX_RETRIES - 1) with 4.
  destruct (Nat.ltb_spec n 4) as [Hlt|Hge].
  - destruct (IH (S n) (perform (EvSleep Old.RETRY_DELAY) (extends w ea))
                ltac:(lia))
      as (er & Hr & Gr & Gr1 & Sr & Hh & Cr & Hsucc).
    rewrite perform_extends, !extends_app, <- !app_assoc in Hr, Hsucc.
    exists (ea ++ [EvSleep Old.RETRY_DELAY] ++ er).
    rewrite perform_extends, !extends_app.
    split; [exact Hr|].
    rewrite !gets_app, !sleeps_app, !heads_app, Ga, Sa, Ha, Hh.
    cbn [gets sleeps heads List.filter is_get is_head List.length app].
    assert (1 <= gets er) by (apply Gr1; lia).
    split; [lia|]. split; [lia|]. split.
    + replace (1 + (0 + gets er) - 1) with (S (gets er - 1)) by lia.
      rewrite Sr. reflexivity.
    + split; [reflexivity|]. split.
      * apply Forall_app. split; [exact Ca|].
        apply Forall_cons. split; [exact I|exact Cr].
      * intros Ht. destruct (Hsucc Ht) as (j & status & chunks & Hj & Hrest).
        exists j, status, chunks. split; [lia|exact Hrest].
  - assert (k = 0) by lia. subst k. cbn [Old.retry fst snd].
    exists ea. rewrite Ga, Sa.
    split; [reflexivity|]. split; [lia|]. split; [lia|].
    split; [reflexivity|]. split; [exact Ha|]. split; [exact Ca|discriminate].
Qed.

Lemma old_download_spec (url local : string) (w : world) :
  let r := Old.download_file net url local w in
  exists es,
    snd r = extends w es
    /\ gets es <= 5
    /\ sleeps es = replicate (gets es - 1) Old.RETRY_DELAY
    /\ heads es = 0
    /\ Forall (contacts url url) es
    /\ (fst r = true ->
        exists j status chunks,
          j < 5
          /\ net_get net url j = GetResponse status chunks None
          /\ raises_for_status status = false
          /\ fs (snd r) !! local = Some (body_of chunks)).
Proof.
  cbv zeta. unfold Old.download_file.
  destruct (makedirs (Posix.dirname local) w) as [w1|] eqn:Hmk.
  2: { exists []. rewrite extends_nil. cbn [fst snd].
       split; [reflexivity|]. split; [cbn; lia|]. split; [reflexivity|].
       split; [reflexivity|]. split; [constructor|discriminate]. }
  apply makedirs_events in Hmk. subst w1.
  set (pre := if Str.is_empty (Posix.dirname local)
              then [] else [EvMakedirs (Posix.dirname local)]).
  destruct (old_retry_spec url local 5 0 (extends w pre) eq_refl)
    as (er & Hr & Gr & _ & Sr & Hh & Cr & Hsucc).
  change Old.MAX_RETRIES with 5.
  rewrite !extends_app in Hr, Hsucc.
  exists (pre ++ er). split; [exact Hr|].
  assert (Gp : gets pre = 0) by (unfold pre; destruct (Str.is_empty _); reflexivity).
  assert (Sp : sleeps pre = []) by (unfold pre; destruct (Str.is_empty _); reflexivity).
  assert (Hp : heads pre = 0) by (unfold pre; destruct (Str.is_empty _); reflexivity).
  rewrite gets_app, sleeps_app, heads_app, Gp, Sp, Hp, Hh.
  split; [exact Gr|]. split; [exact Sr|]. split; [reflexivity|]. split.
  - apply Forall_app. split; [|exact Cr].
    unfold pre. destruct (Str.is_empty _); repeat constructor.
  - intros Ht. destruct (Hsucc Ht) as (j & status & chunks & Hj & E & R & Hfs).
    exists j, status, chunks. rewrite Hr.
    split; [lia|]. auto.
Qed.

End OldBudget.

(** X2: whatever the network and the disk do, one call of [download_file]
    of [1model.py] starts at most 5 transfers, all of the URL it was given,
    never sends a probe, and waits 10 s between two transfers and never
    after the last one. *)
Theorem old_download_budget (net : network) (url local : string) (w : world) :
  let r := Old.download_file net url local w in
  let es := events_since w (snd r) in
  snd r = extends w es
  /\ gets es <= 5
  /\ sleeps es = replicate (gets es - 1) 10%Z
  /\ heads es = 0
  /\ Forall (contacts url url) es.
Proof.
  cbv zeta.
  destruct (old_download_spec net url local w) as (es & Hr & G & S & H & C & _).
  rewrite Hr, events_since_extends. auto.
Qed.

(** X3: when [download_file] of [1model.py] returns [True], the
    destination holds, whole, the body of a response that one of the five
    attempts received in full with a status that is no error; what earlier
    attempts had written there is gone. *)
Theorem old_download_success_complete (net : network) (url local : string)
    (w : world) :
  let r := Old.download_file net url local w in
  fst r = true ->
  exists j status chunks,
    j < 5
    /\ net_get net url j = GetResponse status chunks None
    /\ ~ (400 <= status < 600)%Z
    /\ fs (snd r) !! local = Some (body_of chunks).
Proof.
  cbv zeta. intros Ht.
  destruct (old_download_spec net url local w) as (es & _ & _ & _ & _ & _ & H).
  destruct (H Ht) as (j & status & chunks & Hj & E & R & Hfs).
  exists j, status, chunks. split; [exact Hj|]. split; [exact E|].
  split; [apply raises_for_status_false, R|exact Hfs].
Qed.

Lemma old_download_success_complete_witness :
  let r := Old.download_file net_flaky "https://static.l2d.su/a.png" "a.png"
             empty_world in
  exists j status chunks,
    j < 5
    /\ net_get net_flaky "https://static.l2d.su/a.png" j
       = GetResponse status chunks None
    /\ ~ (400 <= status < 600)%Z
    /\ fs (snd r) !! "a.png" = Some (body_of chunks).
Proof.
  apply (old_download_success_complete net_flaky "https://static.l2d.su/a.png"
           "a.png" empty_world).
  reflexivity.
Defined.

Section OldFatal.

Variable net : network.

Lemma old_retry_prefix (url p : string) (k : nat) :
  forall (n rem : nat) (w : world),
  n + k <= 4 ->
  (forall j, n <= j < n + k -> old_retried w p (net_get net url j)) ->
  exists es,
    Old.retry net url p n (k + rem) w
    = Old.retry net url p (n + k) rem (extends w es)
    /\ gets es = k
    /\ sleeps es = replicate k Old.RETRY_DELAY.
Proof.
  induction k as [|k IH]; intros n rem w Hn H.
  { exists []. rewrite extends_nil, Nat.add_0_r. repeat split. }
  cbn [Nat.add Old.retry].
  destruct (old_attempt_shape net url p n w) as (files & Hw & Hf & Hfail & _).
  pose proof (proj2 Hfail (H n ltac:(lia))) as Hres.
  destruct (Old.attempt net url p n w) as [res w1].
  cbn [fst snd] in Hw, Hres. subst res w1.
  change (Old.MAX_RETRIES - 1) with 4.
  destruct (Nat.ltb_spec n 4) as [_|Hge]; [|lia].
  rewrite perform_extends, extends_app.
  destruct (IH (S n) rem
              (extends w ((EvGet url :: files) ++ [EvSleep Old.RETRY_DELAY]))
              ltac:(lia))
    as (er & Hr & Gr & Sr).
  { intros j Hj. exact (H j ltac:(lia)). }
  rewrite extends_app in Hr.
  exists (((EvGet url :: files) ++ [EvSleep Old.RETRY_DELAY]) ++ er).
  split; [rewrite Hr; f_equal; lia|].
  rewrite !gets_app, !sleeps_app, Gr, Sr.
  change (gets (EvGet url :: files)) with (gets ([EvGet url] ++ files)).
  rewrite gets_app, (file_events_gets _ Hf).
  change (sleeps (EvGet url :: files)) with (sleeps files).
  rewrite (file_events_sleeps _ Hf). split; reflexivity.
Qed.

End OldFatal.

(** X4: in [1model.py], after any number of attempts that ended in a
    timeout, a connection error or a 5xx status, an attempt that meets a
    4xx status, another request error, or a destination that cannot be
    opened ends the call at once with [False]: the rest of the budget is
    not used and nothing more is waited for. *)
Theorem old_stops_on_fatal (net : network) (url local : string) (w : world)
    (k : nat) :
  is_Some (makedirs (Posix.dirname local) w) ->
  k < 5 ->
  (forall n, n < k -> old_retried w local (net_get net url n)) ->
  old_fatal w local (net_get net url k) ->
  let r := Old.download_file net url local w in
  let es := events_since w (snd r) in
  fst r = false /\ gets es = k + 1 /\ sleeps es = replicate k 10%Z.
Proof.
  intros [w1 Hmk] Hk Hretried Hfatal. cbv zeta.
  unfold Old.download_file. rewrite Hmk.
  apply makedirs_events in Hmk. subst w1.
  set (pre := if Str.is_empty (Posix.dirname local)
              then [] else [EvMakedirs (Posix.dirname local)]).
  assert (Gp : gets pre = 0) by (unfold pre; destruct (Str.is_empty _); reflexivity).
  assert (Sp : sleeps pre = []) by (unfold pre; destruct (Str.is_empty _); reflexivity).
  change Old.MAX_RETRIES with 5.
  replace 5 with (k + S (4 - k)) by lia.
  destruct (old_retry_prefix net url local k 0 (S (4 - k)) (extends w pre)
              ltac:(lia))
    as (es & -> & Ge & Se).
  { intros j Hj. exact (Hretried j ltac:(lia)). }
  cbn [Nat.add Old.retry]. rewrite extends_app.
  destruct (old_attempt_shape net url local k (extends w (pre ++ es)))
    as (files & Hw & Hf & _ & Hstop & _).
  pose proof (proj2 Hstop Hfatal) as Hres.
  destruct (Old.attempt net url local k (extends w (pre ++ es))) as [res w2].
  cbn [fst snd] in Hw, Hres. subst res w2. cbn [fst snd].
  rewrite extends_app, events_since_extends.
  rewrite !gets_app, !sleeps_app, Gp, Sp, Ge, Se.
  change (gets (EvGet url :: files)) with (gets ([EvGet url] ++ files)).
  rewrite gets_app, (file_events_gets _ Hf).
  change (sleeps (EvGet url :: files)) with (sleeps files).
  rewrite (file_events_sleeps _ Hf), app_nil_r.
  split; [reflexivity|]. split; [cbn; lia|reflexivity].
Qed.

Lemma old_stops_on_fatal_witness :
  let r := Old.download_file net_403 "https://static.l2d.su/a.png" "a.png"
             empty_world in
  let es := events_since empty_world (snd r) in
  fst r = false /\ gets es = 1 /\ sleeps es = [].
Proof.
  apply (old_stops_on_fatal net_403 "https://static.l2d.su/a.png" "a.png"
           empty_world 0).
  - eexists. reflexivity.
  - lia.
  - intros n Hn. lia.
  - left. lia.
Defined.

Section NewRetried.

Variable net : network.
Variable encode_url : string -> string.

(** How one pass of the newer loop ends. *)
Lemma new_attempt_outcome (url p : string) (n : nat) (w : world) :
  (fst (New.attempt net encode_url url p n w) = Failed
   <-> new_retried w p (net_get net (encode_url url) n))
  /\ (fst (New.attempt net encode_url url p n w) = Returned false
      <-> exists chunks broken,
            net_get net (encode_url url) n = GetResponse 404 chunks broken).
Proof.
  unfold New.attempt, new_retried. cbv zeta. set (u := encode_url url).
  rewrite !perform_extends.
  destruct (net_get net u n) as [e|status chunks broken].
  { cbn [fst]. split; split; intros; try exact I; try reflexivity;
      try discriminate. destruct H as (? & ? & ?). discriminate. }
  destruct (Z.eqb_spec status 404) as [->|Hne].
  { cbn [fst]. split; split; intros H; try discriminate.
    - destruct H as [H _]. congruence.
    - eauto.
    - reflexivity. }
  assert (Hno : ~ exists chunks0 broken0,
                    GetResponse status chunks broken
                    = GetResponse 404 chunks0 broken0).
  { intros (? & ? & [= ? _ _]). congruence. }
  destruct (raises_for_status status) eqn:R.
  { cbn [fst]. split; split; intros H; try discriminate; try reflexivity;
      try contradiction. split; [exact Hne|left; reflexivity]. }
  rewrite unwritable_extends.
  destruct (unwritable w (p +:+ ".tmp")) eqn:Ht.
  { cbn [fst]. split; split; intros H; try discriminate; try reflexivity;
      try contradiction. split; [exact Hne|right; left; reflexivity]. }
  rewrite write_chunks_extends, !extends_app.
  destruct broken as [e|].
  { cbn [fst]. split; split; intros H; try discriminate; try reflexivity;
      try contradiction.
    split; [exact Hne|right; right; left; discriminate]. }
  rewrite unwritable_extends.
  destruct (unwritable w p) eqn:Hp.
  { cbn [fst]. split; split; intros H; try discriminate; try reflexivity;
      try contradiction.
    split; [exact Hne|right; right; right; reflexivity]. }
  cbn [fst]. split; split; intros H; try discriminate; try contradiction.
  destruct H as (_ & [H|[H|[H|H]]]); congruence.
Qed.

Lemma new_retry_prefix (url p : string) (k : nat) :
  forall (n rem : nat) (w : world),
  n + k <= 4 ->
  (forall j, n <= j < n + k ->
     new_retried w p (net_get net (encode_url url) j)) ->
  exists es,
    New.retry net encode_url url p n (k + rem) w
    = New.retry net encode_url url p (n + k) rem (extends w es)
    /\ gets es = k
    /\ sleeps es = map linear_delay (seq n k).
Proof.
  induction k as [|k IH]; intros n rem w Hn H.
  { exists []. rewrite extends_nil, Nat.add_0_r. repeat split. }
  cbn [Nat.add New.retry].
  destruct (new_attempt_shape net encode_url url p n w) as (files & Hw & Hf).
  destruct (new_attempt_outcome url p n w) as (Hfail & _).
  pose proof (proj2 Hfail (H n ltac:(lia))) as Hres.
  destruct (New.attempt net encode_url url p n w) as [res w1].
  cbn [fst snd] in Hw, Hres. subst res w1.
  change (New.MAX_RETRIES - 1) with 4.
  destruct (Nat.ltb_spec n 4) as [_|Hge]; [|lia].
  rewrite perform_extends, extends_app.
  fold (linear_delay n).
  destruct (IH (S n) rem
              (extends w ((EvGet (encode_url url) :: files)
                          ++ [EvSleep (linear_delay n)]))
              ltac:(lia))
    as (er & Hr & Gr & Sr).
  { intros j Hj. exact (H j ltac:(lia)). }
  rewrite extends_app in Hr.
  exists (((EvGet (encode_url url) :: files) ++ [EvSleep (linear_delay n)])
          ++ er).
  split; [rewrite Hr; f_equal; lia|].
  rewrite !gets_app, !sleeps_app, Gr, Sr.
  change (gets (EvGet (encode_url url) :: files))
    with (gets ([EvGet (encode_url url)] ++ files)).
  rewrite gets_app, (file_events_gets _ Hf).
  change (sleeps (EvGet (encode_url url) :: files)) with (sleeps files).
  rewrite (file_events_sleeps _ Hf). split; reflexivity.
Qed.

(** The call reaches the loop: the directory is there and the fast path
    is not taken. *)
Lemma new_download_loop (url local : string) (force : bool) (w : world) :
  is_Some (makedirs (Posix.dirname (Posix.normpath local)) w) ->
  force = true \/ ~ size_match net url w (New.local_path_of w local) ->
  exists pre,
    gets pre = 0 /\ sleeps pre = []
    /\ New.download_file net encode_url url local force w
       = New.retry net encode_url url (New.local_path_of w local) 0 5
           (extends w pre).
Proof.
  intros Hmk Hslow.
  destruct (new_download_slow net encode_url url local force w Hmk Hslow)
    as (pre & Hq & E).
  exists pre. split; [apply quiet_gets, Hq|]. split; [apply quiet_sleeps, Hq|].
  exact E.
Qed.

End NewRetried.

(** X5: in [1model.new.py], after any number of failed attempts, an
    attempt answered with status 404 ends the call at once with [False];
    the rest of the budget is not used and nothing more is waited for. *)
Theorem new_stops_on_404 (net : network) (encode_url : string -> string)
    (url local : string) (force : bool) (w : world) (k : nat)
    (chunks : list string) (broken : option net_error) :
  is_Some (makedirs (Posix.dirname (Posix.normpath local)) w) ->
  force = true \/ ~ size_match net url w (New.local_path_of w local) ->
  k < 5 ->
  (forall n, n < k ->
     new_retried w (New.local_path_of w local)
       (net_get net (encode_url url) n)) ->
  net_get net (encode_url url) k = GetResponse 404 chunks broken ->
  let r := New.download_file net encode_url url local force w in
  let es := events_since w (snd r) in
  fst r = false /\ gets es = k + 1
  /\ sleeps es = map linear_delay (seq 0 k).
Proof.
  intros Hmk Hslow Hk Hretried H404. cbv zeta.
  destruct (new_download_loop net encode_url url local force w Hmk Hslow)
    as (pre & Gp & Sp & ->).
  set (p := New.local_path_of w local) in *.
  replace 5 with (k + S (4 - k)) by lia.
  destruct (new_retry_prefix net encode_url url p k 0 (S (4 - k))
              (extends w pre) ltac:(lia))
    as (es & -> & Ge & Se).
  { intros j Hj. exact (Hretried j ltac:(lia)). }
  cbn [Nat.add New.retry]. rewrite extends_app.
  destruct (new_attempt_shape net encode_url url p k (extends w (pre ++ es)))
    as (files & Hw & Hf).
  destruct (new_attempt_outcome net encode_url url p k (extends w (pre ++ es)))
    as (_ & Hstop).
  pose proof (proj2 Hstop (ex_intro _ chunks (ex_intro _ broken H404))) as Hres.
  destruct (New.attempt net encode_url url p k (extends w (pre ++ es)))
    as [res w2].
  cbn [fst snd] in Hw, Hres. subst res w2. cbn [fst snd].
  rewrite extends_app, events_since_extends.
  rewrite !gets_app, !sleeps_app, Gp, Sp, Ge, Se.
  change (gets (EvGet (encode_url url) :: files))
    with (gets ([EvGet (encode_url url)] ++ files)).
  rewrite gets_app, (file_events_gets _ Hf).
  change (sleeps (EvGet (encode_url url) :: files)) with (sleeps files).
  rewrite (file_events_sleeps _ Hf), app_nil_r.
  split; [reflexivity|]. split; [cbn; lia|reflexivity].
Qed.

Lemma new_stops_on_404_witness :
  let net := Network (fun _ => HeadRaises)
               (fun _ n => match n with
                           | 0 => GetRaises Timeout
                           | _ => GetResponse 404 [] None
                           end) in
  let r := New.download_file net id "https://static.l2d.su/a.png" "a.png"
             true empty_world in
  let es := events_since empty_world (snd r) in
  fst r = false /\ gets es = 2 /\ sleeps es = [5%Z].
Proof.
  apply (new_stops_on_404
           (Network (fun _ => HeadRaises)
              (fun _ n => match n with
                          | 0 => GetRaises Timeout
                          | _ => GetResponse 404 [] None
                          end))
           id "https://static.l2d.su/a.png" "a.png" true empty_world 1 [] None).
  - eexists. reflexivity.
  - left. reflexivity.
  - lia.
  - intros n Hn. assert (n = 0) by lia. subst n. exact I.
  - reflexivity.
Defined.

(** X6: in [1model.new.py] every failure other than a 404 is tried again,
    a temp file or destination that cannot be written and a body that
    breaks included: when the five attempts all fail so, the call makes
    five transfers, waits 5, 10, 15 and 20 s between them and returns
    [False]. *)
Theorem new_retries_all_but_404 (net : network) (encode_url : string -> string)
    (url local : string) (force : bool) (w : world) :
  is_Some (makedirs (Posix.dirname (Posix.normpath local)) w) ->
  force = true \/ ~ size_match net url w (New.local_path_of w local) ->
  (forall n, n < 5 ->
     new_retried w (New.local_path_of w local)
       (net_get net (encode_url url) n)) ->
  let r := New.download_file net encode_url url local force w in
  let es := events_since w (snd r) in
  fst r = false /\ gets es = 5 /\ sleeps es = [5; 10; 15; 20]%Z.
Proof.
  intros Hmk Hslow Hretried. cbv zeta.
  destruct (new_download_loop net encode_url url local force w Hmk Hslow)
    as (pre & Gp & Sp & ->).
  set (p := New.local_path_of w local) in *.
  change (New.retry net encode_url url p 0 5 (extends w pre))
    with (New.retry net encode_url url p 0 (4 + 1) (extends w pre)).
  destruct (new_retry_prefix net encode_url url p 4 0 1 (extends w pre)
              ltac:(lia))
    as (es & -> & Ge & Se).
  { intros j Hj. exact (Hretried j ltac:(lia)). }
  cbn [Nat.add New.retry]. rewrite extends_app.
  destruct (new_attempt_shape net encode_url url p 4 (extends w (pre ++ es)))
    as (files & Hw & Hf).
  destruct (new_attempt_outcome net encode_url url p 4 (extends w (pre ++ es)))
    as (Hfail & _).
  pose proof (proj2 Hfail (Hretried 4 ltac:(lia))) as Hres.
  destruct (New.attempt net encode_url url p 4 (extends w (pre ++ es)))
    as [res w2].
  cbn [fst snd] in Hw, Hres. subst res w2.
  change (4 <? New.MAX_RETRIES - 1)%nat with false. cbn [New.retry fst snd].
  rewrite extends_app, events_since_extends.
  rewrite !gets_app, !sleeps_app, Gp, Sp, Ge, Se.
  change (gets (EvGet (encode_url url) :: files))
    with (gets ([EvGet (encode_url url)] ++ files)).
  rewrite gets_app, (file_events_gets _ Hf).
  change (sleeps (EvGet (encode_url url) :: files)) with (sleeps files).
  rewrite (file_events_sleeps _ Hf), app_nil_r.
  split; [reflexivity|]. split; reflexivity.
Qed.

Lemma new_retries_all_but_404_witness :
  let w := World ∅ (fun p => String.eqb p "a.png.tmp") "/srv/mirror" [] in
  let r := New.download_file (net_sized 5) id "https://static.l2d.su/a.png"
             "a.png" true w in
  let es := events_since w (snd r) in
  fst r = false /\ gets es = 5 /\ sleeps es = [5; 10; 15; 20]%Z.
Proof.
  apply (new_retries_all_but_404 (net_sized 5) id
           "https://static.l2d.su/a.png" "a.png" true
           (World ∅ (fun p => String.eqb p "a.png.tmp") "/srv/mirror" [])).
  - eexists. reflexivity.
  - left. reflexivity.
  - intros n Hn. split; [discriminate|]. right. left. reflexivity.
Defined.

(** X7: [download_file] of [2audio.py] makes a single attempt, whatever
    its comment and the unused [MAX_RETRIES] say: at most one transfer, no
    probe, no wait.  It returns [True] exactly when the directory could be
    made, the one response came with a status below 400 (or above 599)
    and a body that arrived in full, and the destination could be opened;
    the destination then holds that body. *)
Theorem audio_download_single_attempt (net : network) (url local : string)
    (w : world) :
  let r := Audio.download_file net url local w in
  let es := events_since w (snd r) in
  snd r = extends w es
  /\ gets es <= 1 /\ sleeps es = [] /\ heads es = 0
  /\ (fst r = true
      <-> is_Some (makedirs (Posix.dirname local) w)
          /\ unwritable w local = false
          /\ exists status chunks,
               net_get net url 0 = GetResponse status chunks None
               /\ ~ (400 <= status < 600)%Z)
  /\ (fst r = true ->
      exists status chunks,
        net_get net url 0 = GetResponse status chunks None
        /\ fs (snd r) !! local = Some (body_of chunks)).
Proof.
  cbv zeta. unfold Audio.download_file.
  destruct (makedirs (Posix.dirname local) w) as [w1|] eqn:Hmk.
  2: { cbn [fst snd]. pose proof (events_since_extends w []) as E.
       rewrite extends_nil in E. rewrite E, extends_nil.
       split; [reflexivity|]. split; [cbn; lia|]. split; [reflexivity|].
       split; [reflexivity|]. split; [|discriminate].
       split; [discriminate|]. intros ([? H] & _). discriminate. }
  apply makedirs_events in Hmk. subst w1.
  set (pre := if Str.is_empty (Posix.dirname local)
              then [] else [EvMakedirs (Posix.dirname local)]).
  assert (Gp : gets pre = 0) by (unfold pre; destruct (Str.is_empty _); reflexivity).
  assert (Sp : sleeps pre = []) by (unfold pre; destruct (Str.is_empty _); reflexivity).
  assert (Hp : heads pre = 0) by (unfold pre; destruct (Str.is_empty _); reflexivity).
  assert (Hfs : replay pre (fs w) = fs w)
    by (unfold pre; destruct (Str.is_empty _); reflexivity).
  cbv zeta. rewrite !perform_extends, !extends_app.
  assert (Hshort : forall b : bool,
            b = false ->
            (b, extends w (pre ++ [EvGet url])).2
            = extends w (events_since w (b, extends w (pre ++ [EvGet url])).2)
            /\ gets (events_since w (b, extends w (pre ++ [EvGet url])).2) <= 1
            /\ sleeps (events_since w (b, extends w (pre ++ [EvGet url])).2) = []
            /\ heads (events_since w (b, extends w (pre ++ [EvGet url])).2) = 0).
  { intros b _. cbn [snd]. rewrite events_since_extends.
    rewrite gets_app, sleeps_app, heads_app, Gp, Sp, Hp.
    split; [reflexivity|]. split; [cbn; lia|]. split; reflexivity. }
  destruct (net_get net url 0) as [e|status chunks broken] eqn:E.
  { destruct (Hshort false eq_refl) as (H1 & H2 & H3 & H4).
    split; [exact H1|]. split; [exact H2|]. split; [exact H3|].
    split; [exact H4|]. cbn [fst]. split; [|discriminate].
    split; [discriminate|]. intros (_ & _ & ? & ? & ? & _). discriminate. }
  destruct (raises_for_status status) eqn:R.
  { destruct (Hshort false eq_refl) as (H1 & H2 & H3 & H4).
    split; [exact H1|]. split; [exact H2|]. split; [exact H3|].
    split; [exact H4|]. cbn [fst]. split; [|discriminate].
    split; [discriminate|].
    intros (_ & _ & s & c & [= <- _] & Hs).
    apply raises_for_status_spec in R. contradiction. }
  rewrite unwritable_extends.
  destruct (unwritable w local) eqn:Hw.
  { destruct (Hshort false eq_refl) as (H1 & H2 & H3 & H4).
    split; [exact H1|]. split; [exact H2|]. split; [exact H3|].
    split; [exact H4|]. cbn [fst]. split; [|discriminate].
    split; [discriminate|]. intros (_ & ? & _). discriminate. }
  rewrite write_chunks_extends, !extends_app.
  set (es := ((pre ++ [EvGet url]) ++ [EvOpenW local])
             ++ write_events false local chunks).
  assert (Hes : forall b : bool,
            (b, extends w es).2 = extends w (events_since w (b, extends w es).2)
            /\ gets (events_since w (b, extends w es).2) <= 1
            /\ sleeps (events_since w (b, extends w es).2) = []
            /\ heads (events_since w (b, extends w es).2) = 0).
  { intros b. cbn [snd]. rewrite events_since_extends. unfold es.
    rewrite !gets_app, !sleeps_app, !heads_app, Gp, Sp, Hp.
    rewrite (file_events_gets _ (write_events_file false local chunks)).
    rewrite (file_events_sleeps _ (write_events_file false local chunks)).
    rewrite (file_events_heads _ (write_events_file false local chunks)).
    split; [reflexivity|]. split; [cbn; lia|]. split; reflexivity. }
  destruct broken as [e|].
  { destruct (Hes false) as (H1 & H2 & H3 & H4).
    split; [exact H1|]. split; [exact H2|]. split; [exact H3|].
    split; [exact H4|]. cbn [fst]. split; [|discriminate].
    split; [discriminate|]. intros (_ & _ & ? & ? & ? & _). discriminate. }
  destruct (Hes true) as (H1 & H2 & H3 & H4).
  split; [exact H1|]. split; [exact H2|]. split; [exact H3|].
  split; [exact H4|]. cbn [fst snd]. split.
  - split; [intros _|reflexivity].
    split; [eexists; reflexivity|]. split; [reflexivity|].
    exists status, chunks. split; [reflexivity|].
    apply raises_for_status_false, R.
  - intros _. exists status, chunks. split; [reflexivity|].
    cbn [fs extends]. unfold es. rewrite !replay_app, Hfs.
    cbn [replay fold_left apply_event].
    fold (replay (write_events false local chunks) (<[local:=""]> (fs w))).
    rewrite (replay_write_all local chunks "") by apply lookup_insert_eq.
    reflexivity.
Qed.

(** * Further properties of the audio pass *)

Section AudioSafety.

Variable net : network.
Variable json_loads : string -> option json.
Variable json_dumps : json -> string.
Variable model3_path : string.

Local Abbreviation audio_only := (writes_only (is_audio_path model3_path)).

Lemma process_motion_events (motion : json) (st : bool * list audio_report)
    (w : world) :
  exists es,
    snd (AudioMain.process_motion net model3_path motion st w) = extends w es
    /\ Forall audio_only es.
Proof.
  destruct st as [found reports].
  unfold AudioMain.process_motion, io_bind, io_must, io_ret, io_read,
    io_raise, AudioMain.download_file, io_total.
  assert (Hnil : exists es, w = extends w es /\ Forall audio_only es).
  { exists []. rewrite extends_nil. split; [reflexivity|constructor]. }
  destruct (Py.contains "Audio" motion) as [[|]|]; cbn [snd]; try exact Hnil.
  destruct (Py.index motion "Audio") as [audio|]; cbn [snd]; try exact Hnil.
  destruct (as_str audio) as [url|]; cbn [snd]; try exact Hnil.
  destruct (audio_download_events net (is_audio_path model3_path) url
              (AudioMain.local_audio_path model3_path url) w)
    as (es & E & H); [exists url; reflexivity|].
  destruct (Audio.download_file net url
              (AudioMain.local_audio_path model3_path url) w) as [ok w1].
  cbn [snd] in E. subst w1. exists es. split; [|exact H].
  destruct ok; reflexivity.
Qed.

Lemma process_list_events (l : list json) :
  forall (st : bool * list audio_report) (w : world),
  exists es,
    snd (AudioMain.process_list net model3_path l st w) = extends w es
    /\ Forall audio_only es.
Proof.
  induction l as [|motion l IH]; intros st w.
  { exists []. rewrite extends_nil. split; [reflexivity|constructor]. }
  cbn [AudioMain.process_list]. unfold io_bind at 1.
  destruct (process_motion_events motion st w) as (e1 & E1 & H1).
  destruct (AudioMain.process_motion net model3_path motion st w)
    as [[r|] w1]; cbn [snd] in E1; subst w1.
  2: { exists e1. split; [reflexivity|exact H1]. }
  unfold io_bind at 1.
  destruct (IH (snd r) (extends w e1)) as (e2 & E2 & H2).
  rewrite extends_app in E2.
  destruct (AudioMain.process_list net model3_path l (snd r) (extends w e1))
    as [[rs|] w2]; cbn [snd] in E2; subst w2;
    exists (e1 ++ e2); (split; [reflexivity|apply Forall_app; split; assumption]).
Qed.

Lemma process_groups_events (groups : Dict.t) :
  forall (st : bool * list audio_report) (w : world),
  exists es,
    snd (AudioMain.process_groups net model3_path groups st w) = extends w es
    /\ Forall audio_only es.
Proof.
  induction groups as [|[name g] groups IH]; intros st w.
  { exists []. rewrite extends_nil. split; [reflexivity|constructor]. }
  cbn [AudioMain.process_groups]. unfold io_bind at 1.
  assert (Hg : exists es,
             snd (AudioMain.process_group net model3_path g st w) = extends w es
             /\ Forall audio_only es).
  { unfold AudioMain.process_group, io_bind, io_must, io_ret, io_raise.
    destruct (Py.iter g) as [items|]; cbn [snd].
    2: { exists []. rewrite extends_nil. split; [reflexivity|constructor]. }
    destruct (process_list_events items st w) as (e & E & H).
    destruct (AudioMain.process_list net model3_path items st w)
      as [[r|] w1]; cbn [snd] in E |- *; subst w1;
      exists e; (split; [reflexivity|exact H]). }
  destruct Hg as (e1 & E1 & H1).
  destruct (AudioMain.process_group net model3_path g st w)
    as [[r|] w1]; cbn [snd] in E1; subst w1.
  2: { exists e1. split; [reflexivity|exact H1]. }
  unfold io_bind at 1.
  destruct (IH (snd r) (extends w e1)) as (e2 & E2 & H2).
  rewrite extends_app in E2.
  destruct (AudioMain.process_groups net model3_path groups (snd r)
              (extends w e1))
    as [[rs|] w2]; cbn [snd] in E2; subst w2;
    exists (e1 ++ e2); (split; [reflexivity|apply Forall_app; split; assumption]).
Qed.

(** The three ways the pass can go. *)
Lemma process_audio_cases (version : string) (w : world) :
  let backup := AudioMain.backup_path_of model3_path version in
  let r := AudioMain.process_audio net json_loads json_dumps model3_path
             version w in
  r = (false, w)
  \/ exists fetches,
       Forall audio_only fetches /\ backup <> model3_path
       /\ (r = (false, extends w (EvCopy model3_path backup :: fetches))
           \/ exists data,
                r = (true, extends w (EvCopy model3_path backup :: fetches
                                      ++ [EvOpenW model3_path;
                                          EvWrite model3_path
                                            (json_dumps data)]))).
Proof.
  cbv zeta.
  set (backup := AudioMain.backup_path_of model3_path version).
  pose (Q := fun r : bool * world =>
          r = (false, w)
          \/ exists fetches,
               Forall audio_only fetches /\ backup <> model3_path
               /\ (r = (false, extends w (EvCopy model3_path backup :: fetches))
                   \/ exists data,
                        r = (true, extends w (EvCopy model3_path backup
                                              :: fetches
                                              ++ [EvOpenW model3_path;
                                                  EvWrite model3_path
                                                    (json_dumps data)])))).
  change (Q (AudioMain.process_audio net json_loads json_dumps model3_path
               version w)).
  unfold AudioMain.process_audio, AudioMain.body.
  unfold io_bind at 1. unfold AudioMain.copyfile. fold backup.
  destruct (String.eqb_spec model3_path backup) as [Heq|Hne];
    cbn [negb andb]; [left; reflexivity|].
  destruct (path_exists w model3_path && negb (unwritable w backup));
    [|left; reflexivity].
  rewrite perform_extends.
  set (w1 := extends w [EvCopy model3_path backup]).
  assert (Hstop : forall fetches, Forall audio_only fetches ->
            Q (false, extends w1 fetches)).
  { intros fetches H. right. exists fetches. split; [exact H|].
    split; [congruence|]. left. unfold w1. rewrite extends_app. reflexivity. }
  assert (Hstop0 : Q (false, w1)).
  { rewrite <- (extends_nil w1). apply Hstop. constructor. }
  unfold io_bind at 1. unfold read_json.
  destruct (fs w1 !! model3_path ≫= json_loads) as [data|]; [|exact Hstop0].
  unfold io_bind at 1, io_must at 1.
  destruct (Py.get data "FileReferences" (JObj [])) as [fr|];
    [|exact Hstop0].
  cbn [io_ret]. unfold io_bind at 1, io_must at 1.
  destruct (Py.get fr "Motions" (JObj [])) as [motions|]; [|exact Hstop0].
  cbn [io_ret].
  destruct (Py.truthy motions); cbn [negb]; [|exact Hstop0].
  unfold io_bind at 1, io_must at 1.
  destruct motions as [| | | | |groups]; try exact Hstop0.
  cbn [io_ret]. unfold io_bind at 1.
  destruct (process_groups_events groups (false, []) w1) as (fetches & E & H).
  destruct (AudioMain.process_groups net model3_path groups (false, []) w1)
    as [[[groups' [found reports]]|] w2]; cbn [snd] in E; subst w2.
  2: { apply Hstop, H. }
  destruct found; cbn [negb]; [|apply Hstop, H].
  unfold io_bind, write_text, io_ret. rewrite !unwritable_extends.
  change (unwritable w1 model3_path) with (unwritable w model3_path).
  destruct (unwritable w model3_path); [apply Hstop, H|].
  right. exists fetches. split; [exact H|]. split; [congruence|]. right.
  eexists. unfold w1. rewrite !perform_extends, !extends_app. reflexivity.
Qed.

End AudioSafety.


(** * What a failed fetch leaves behind *)

Section NewFailure.

Variable net : network.
Variable encode_url : string -> string.

Local Abbreviation tmp_only p := (writes_only (fun q => q = p +:+ ".tmp")).

Lemma new_attempt_unfinished (url p : string) (n : nat) (w : world) :
  fst (New.attempt net encode_url url p n w) <> Returned true ->
  exists es,
    snd (New.attempt net encode_url url p n w) = extends w es
    /\ Forall (tmp_only p) es.
Proof.
  unfold New.attempt. cbv zeta. set (u := encode_url url).
  rewrite !perform_extends.
  assert (H0 : Forall (tmp_only p) [EvGet u]) by (repeat constructor).
  destruct (net_get net u n) as [e|status chunks broken].
  { intros _. exists [EvGet u]. split; [reflexivity|exact H0]. }
  destruct (status =? 404)%Z.
  { intros _. exists [EvGet u]. split; [reflexivity|exact H0]. }
  destruct (raises_for_status status).
  { intros _. exists [EvGet u]. split; [reflexivity|exact H0]. }
  rewrite unwritable_extends.
  destruct (unwritable w (p +:+ ".tmp")).
  { intros _. exists [EvGet u]. split; [reflexivity|exact H0]. }
  rewrite write_chunks_extends, !extends_app.
  assert (H1 : Forall (tmp_only p)
                 (([EvGet u] ++ [EvOpenW (p +:+ ".tmp")])
                  ++ write_events true (p +:+ ".tmp") chunks)).
  { apply Forall_app. split; [repeat constructor|].
    apply write_events_only. reflexivity. }
  destruct broken as [e|].
  { intros _. eexists. split; [reflexivity|exact H1]. }
  rewrite unwritable_extends.
  destruct (unwritable w p).
  { intros _. eexists. split; [reflexivity|exact H1]. }
  cbn [fst]. congruence.
Qed.

Lemma new_retry_unfinished (url p : string) (rem : nat) :
  forall (n : nat) (w : world),
  fst (New.retry net encode_url url p n rem w) = false ->
  exists es,
    snd (New.retry net encode_url url p n rem w) = extends w es
    /\ Forall (tmp_only p) es.
Proof.
  induction rem as [|k IH]; intros n w.
  { intros _. exists []. rewrite extends_nil. split; [reflexivity|constructor]. }
  cbn [New.retry].
  pose proof (new_attempt_unfinished url p n w) as Ha.
  destruct (New.attempt net encode_url url p n w) as [[ok|] w1];
    cbn [fst snd] in Ha |- *.
  - intros ->. apply Ha. discriminate.
  - destruct Ha as (ea & -> & Hea); [discriminate|].
    destruct (n <? New.MAX_RETRIES - 1)%nat.
    + intros Hf. rewrite perform_extends, extends_app in Hf |- *.
      destruct (IH _ _ Hf) as (er & -> & Her).
      rewrite extends_app. eexists. split; [reflexivity|].
      apply Forall_app. split; [|exact Her].
      apply Forall_app. split; [exact Hea|repeat constructor].
    + intros Hf. destruct (IH _ _ Hf) as (er & -> & Her).
      rewrite extends_app. eexists. split; [reflexivity|].
      apply Forall_app. split; assumption.
Qed.

Lemma new_download_unfinished (url local : string) (force : bool) (w : world) :
  let p := New.local_path_of w local in
  let r := New.download_file net encode_url url local force w in
  fst r = false ->
  exists es, snd r = extends w es /\ Forall (tmp_only p) es.
Proof.
  cbv zeta. unfold New.download_file.
  destruct (makedirs (Posix.dirname (Posix.normpath local)) w) as [w1|] eqn:Hmk.
  2: { intros _. exists []. rewrite extends_nil.
       split; [reflexivity|constructor]. }
  apply makedirs_events in Hmk. subst w1.
  set (pre := if Str.is_empty (Posix.dirname (Posix.normpath local))
              then [] else [EvMakedirs (Posix.dirname (Posix.normpath local))]).
  pose proof (new_probe_events net url force (extends w pre)) as Hp.
  destruct (New.probe net url force (extends w pre)) as [remote_size w2].
  cbn [snd] in Hp. subst w2. rewrite extends_app.
  set (pre2 := pre ++ (if force then [] else [EvHead url])).
  assert (H2 : Forall (tmp_only (New.local_path_of w local)) pre2).
  { unfold pre2, pre. destruct (Str.is_empty _), force; repeat constructor. }
  match goal with |- context [if ?c then (true, _) else _] => destruct c end.
  { discriminate. }
  intros Hf. destruct (new_retry_unfinished _ _ _ _ _ Hf) as (er & -> & Her).
  rewrite extends_app. eexists. split; [reflexivity|].
  apply Forall_app. split; assumption.
Qed.

End NewFailure.



(** * Further properties of [main] of [1model.new.py] *)

Section NewMainFacts.

Variable net : network.
Variable encode_url : string -> string.
Variable urljoin : string -> string -> string.
Variable json_loads : string -> option json.
Variable json_dumps : json -> string.
Variable TEMP_INDEX_JS_NAME : string.

Lemma remove_if_exists_gone (p : string) (w : world) :
  fs (remove_if_exists p w) !! p = None.
Proof.
  unfold remove_if_exists, path_exists.
  destruct (bool_decide (is_Some (fs w !! p))) eqn:E.
  - cbn. apply lookup_delete_eq.
  - apply bool_decide_eq_false in E.
    destruct (fs w !! p) eqn:El; [|reflexivity].
    exfalso. apply E. eauto.
Qed.

Lemma remove_if_exists_other (p q : string) (w : world) :
  q <> p -> fs (remove_if_exists p w) !! q = fs w !! q.
Proof.
  intros H. unfold remove_if_exists. destruct (path_exists w p); [|reflexivity].
  cbn. apply lookup_delete_ne. congruence.
Qed.

Lemma local_path_of_short (w : world) (p : string) :
  Posix.normpath p = p -> String.length p <= 250 ->
  New.local_path_of w p = p.
Proof.
  intros Hn Hl. unfold New.local_path_of. rewrite Hn.
  destruct (Nat.ltb_spec 250 (String.length p)); [lia|reflexivity].
Qed.

Lemma io_makedirs_fs (d : string) (w : world) :
  fs (snd (io_makedirs d w)) = fs w.
Proof.
  unfold io_makedirs. destruct (makedirs d w) as [w1|] eqn:E; [|reflexivity].
  apply makedirs_events in E. subst w1. cbn [snd fs extends].
  destruct (Str.is_empty d); reflexivity.
Qed.

End NewMainFacts.

(** X10: [main] of [1model.new.py] never leaves the temporary copy of the
    bootstrap script behind: if no file of that name was there at the
    start, none is there when [main] ends, whether it returns early, runs
    to the end or is stopped by an exception. *)
Theorem new_main_removes_temp (net : network) (encode_url : string -> string)
    (urljoin : string -> string -> string)
    (json_loads : string -> option json) (json_dumps : json -> string)
    (TEMP_INDEX_JS_NAME : string) (w : world) :
  Posix.normpath TEMP_INDEX_JS_NAME = TEMP_INDEX_JS_NAME ->
  String.length TEMP_INDEX_JS_NAME <= 250 ->
  fs w !! TEMP_INDEX_JS_NAME = None ->
  fs (snd (NewMain.main net encode_url urljoin json_loads json_dumps
             TEMP_INDEX_JS_NAME w)) !! TEMP_INDEX_JS_NAME = None.
Proof.
  intros Hnorm Hlen Habsent.
  unfold NewMain.main. unfold io_bind at 1.
  pose proof (io_makedirs_fs TARGET_SUBDIR w) as Hmk.
  destruct (io_makedirs TARGET_SUBDIR w) as [[[]|] w1]; cbn [snd] in Hmk.
  2: { cbn [snd]. rewrite Hmk. exact Habsent. }
  unfold io_bind at 1. unfold NewMain.download_file at 1, io_total.
  pose proof (new_download_unfinished net encode_url INDEX_JS_URL
                TEMP_INDEX_JS_NAME true w1) as Hfail.
  cbv zeta in Hfail.
  rewrite (local_path_of_short w1 _ Hnorm Hlen) in Hfail.
  destruct (New.download_file net encode_url INDEX_JS_URL TEMP_INDEX_JS_NAME
              true w1) as [ok w2].
  destruct ok; cbn [negb fst snd] in *.
  - unfold io_finally.
    match goal with |- context [let '(r, w') := ?m w2 in _] =>
      destruct (m w2) as [r w3] end.
    cbn [snd]. apply remove_if_exists_gone.
  - destruct (Hfail eq_refl) as (es & -> & Hes).
    cbn [io_ret snd fs extends].
    rewrite replay_leaves; [rewrite Hmk; exact Habsent|].
    refine (writes_only_leaves _ TEMP_INDEX_JS_NAME es _ Hes).
    intros H. symmetry in H. exact (tmp_neq _ H).
Qed.

Lemma new_main_removes_temp_witness :
  fs (snd (NewMain.main net_flaky id (fun b r => b +:+ r) (fun _ => None)
             (fun _ => "{}") "index.temp.1700000000.js" empty_world))
    !! "index.temp.1700000000.js" = None.
Proof.
  apply (new_main_removes_temp net_flaky id (fun b r => b +:+ r)
           (fun _ => None) (fun _ => "{}") "index.temp.1700000000.js"
           empty_world).
  - reflexivity.
  - cbn. lia.
  - reflexivity.
Defined.

(** * Further properties of the manifest resolver *)

Section ResolverFacts.

Lemma resolve_sound (js : string) (r : resolved) :
  resolve js = Some r ->
  exists q frag g1 name rest,
    Str.drop q js = frag +:+ rest
    /\ shaped frag g1 name (version r)
    /\ (forall q', q' < q -> ~ matches_at (Str.drop q' js))
    /\ json_name r = "live2dMaster" +:+ name +:+ ".json"
    /\ master_local r = "json/live2dMaster" +:+ version r +:+ ".json"
    /\ new_js_content r
       = Str.replace js frag ("'json/live2dMaster" +:+ version r +:+ ".json'").
Proof.
  unfold resolve, Re.search. destruct (Re.search_from 0 js) as [m|] eqn:E;
    [|discriminate].
  intros [= <-]. cbn [version json_name master_local new_js_content].
  destruct (search_from_sound js 0 m E) as (q & Hm & Hleft).
  destruct (match_at_sound _ _ _ Hm) as (g1 & name & rest & Hsplit & Hshape & Hg2 & _).
  exists q, (Re.group0 m), g1, name, rest.
  split; [exact Hsplit|]. split; [exact Hshape|]. split; [exact Hleft|].
  split; [exact Hg2|]. split; reflexivity.
Qed.

Lemma resolve_none (js : string) :
  resolve js = None <-> forall q, ~ matches_at (Str.drop q js).
Proof.
  unfold resolve, Re.search. split.
  - destruct (Re.search_from 0 js) as [m|] eqn:E; [discriminate|].
    intros _ q Hq. destruct (search_from_complete js 0 q Hq) as [m Hm].
    congruence.
  - intros H. destruct (Re.search_from 0 js) as [m|] eqn:E; [|reflexivity].
    destruct (search_from_sound js 0 m E) as (q & Hm & _).
    exfalso. apply (H q). eapply match_at_matches, Hm.
Qed.

End ResolverFacts.


Section IndexJsFacts.

Lemma all_chars_impl (P Q : ascii -> bool) (s : string) :
  (forall a, P a = true -> Q a = true) ->
  Str.all_chars P s = true -> Str.all_chars Q s = true.
Proof.
  intros H. induction s as [|a s IH]; [reflexivity|]. simpl.
  intros Hs. apply andb_prop in Hs as [Ha Hs].
  rewrite (H a Ha), (IH Hs). reflexivity.
Qed.

Lemma alnum_nosep (v : string) :
  Str.all_chars Re.alnum v = true -> nosep v = true.
Proof.
  apply all_chars_impl. intros a Ha.
  destruct (Ascii.eqb_spec a "/"); [subst; discriminate|reflexivity].
Qed.

Lemma norm_comps_child (base name : string) :
  plain name -> name <> "." -> name <> ".." ->
  Posix.norm_comps (Posix.join base [name]) = Posix.norm_comps base ++ [name].
Proof.
  intros Hb Hd Hdd.
  assert (Hsegs : Forall plain [name]).
  { apply Forall_cons. split; [exact Hb|apply Forall_nil_2]. }
  unfold Posix.norm_comps.
  rewrite (initial_slashes_join _ _ Hsegs), (norm_fold_join _ _ _ Hsegs).
  rewrite norm_fold_plain.
  2: { apply Forall_cons. split; [split; [apply Hb|exact Hdd]|].
       apply Forall_nil_2. }
  rewrite filter_cons, filter_nil, decide_True by exact Hd.
  reflexivity.
Qed.

Lemma tmp_not_js (p : string) (name : string) :
  Str.endswith name ".tmp" = false -> p +:+ ".tmp" <> name.
Proof.
  intros H E. subst name. unfold Str.endswith in H.
  rewrite rev_app in H. discriminate H.
Qed.

(** Where the manifest of version [v] is stored is not where the
    rewritten bootstrap script goes. *)
Lemma master_local_not_index (w : world) (v : string) :
  is_version v ->
  let p := New.local_path_of w ("json/live2dMaster" +:+ v +:+ ".json") in
  "json/index.js" <> p /\ "json/index.js" <> p +:+ ".tmp".
Proof.
  intros [Hne Hv]. cbv zeta. split.
  2: { intros E. symmetry in E. revert E. apply tmp_not_js. reflexivity. }
  unfold New.local_path_of.
  destruct (250 <? _)%nat; [discriminate|].
  intros E.
  assert (Hc : components (Posix.normpath
                 ("json/live2dMaster" +:+ v +:+ ".json"))
               = ["json"; "index.js"]).
  { rewrite <- E. reflexivity. }
  rewrite components_normpath in Hc.
  change ("json/live2dMaster" +:+ v +:+ ".json")
    with (Posix.join "json" ["live2dMaster" +:+ v +:+ ".json"]) in Hc.
  rewrite norm_comps_child in Hc.
  - cbn in Hc. discriminate Hc.
  - split; [discriminate|]. unfold nosep.
    rewrite !all_chars_app. fold (nosep v). rewrite (alnum_nosep v Hv).
    reflexivity.
  - discriminate.
  - discriminate.
Qed.

End IndexJsFacts.

(** X12: when [main] of [1model.new.py] stops before the models (the
    bootstrap script could not be fetched, holds no match, or the manifest
    could not be fetched), the rewritten bootstrap script
    [json/index.js] is not written: the file is as it was. *)
Theorem new_main_index_js_kept (net : network) (encode_url : string -> string)
    (urljoin : string -> string -> string)
    (json_loads : string -> option json) (json_dumps : json -> string)
    (TEMP_INDEX_JS_NAME : string) (w : world) :
  Posix.normpath TEMP_INDEX_JS_NAME = TEMP_INDEX_JS_NAME ->
  String.length TEMP_INDEX_JS_NAME <= 250 ->
  TEMP_INDEX_JS_NAME <> "json/index.js" ->
  let r := NewMain.main net encode_url urljoin json_loads json_dumps
             TEMP_INDEX_JS_NAME w in
  fst r = Some None ->
  fs (snd r) !! "json/index.js" = fs w !! "json/index.js".
Proof.
  intros Hnorm Hlen Hneq. cbv zeta.
  assert (Htmp : "json/index.js" <> TEMP_INDEX_JS_NAME +:+ ".tmp").
  { intros E. symmetry in E. revert E. apply tmp_not_js. reflexivity. }
  pose (Q := fun r : option (option (json * list report)) * world =>
          fst r = Some None ->
          fs (snd r) !! "json/index.js" = fs w !! "json/index.js").
  change (Q (NewMain.main net encode_url urljoin json_loads json_dumps
               TEMP_INDEX_JS_NAME w)).
  unfold NewMain.main. unfold io_bind at 1.
  pose proof (io_makedirs_fs TARGET_SUBDIR w) as Hmk.
  destruct (io_makedirs TARGET_SUBDIR w) as [[[]|] w1]; cbn [fst snd] in *;
    [|intros ?; discriminate].
  unfold io_bind at 1. unfold NewMain.download_file at 1, io_total.
  destruct (new_download_tidy net encode_url INDEX_JS_URL TEMP_INDEX_JS_NAME
              true w1) as (es1 & Hw2 & Hd1 & _).
  rewrite (local_path_of_short w1 _ Hnorm Hlen) in Hd1.
  destruct (New.download_file net encode_url INDEX_JS_URL TEMP_INDEX_JS_NAME
              true w1) as [ok w2].
  cbn [snd] in Hw2. subst w2.
  assert (Hfs2 : fs (extends w1 es1) !! "json/index.js"
                 = fs w !! "json/index.js").
  { cbn [fs extends]. rewrite <- Hmk. apply replay_leaves.
    eapply Forall_impl; [exact Hd1|].
    intros e He. apply (disciplined_leaves TEMP_INDEX_JS_NAME); auto. }
  destruct ok; cbn [negb]; [|intros _; exact Hfs2].
  unfold io_finally.
  set (w2 := extends w1 es1) in *.
  assert (Hclean : forall w0 : world,
            fs (remove_if_exists TEMP_INDEX_JS_NAME w0) !! "json/index.js"
            = fs w0 !! "json/index.js").
  { intros w0. apply remove_if_exists_other. auto. }
  unfold io_bind at 1. cbn [fst snd].
  destruct (fs w2 !! TEMP_INDEX_JS_NAME) as [js_txt|]; [|intros ?; discriminate].
  destruct (resolve js_txt) as [r|] eqn:Er.
  2: { unfold io_bind, io_total, io_ret. cbn [fst snd]. intros _.
       cbn [snd]. rewrite !Hclean. exact Hfs2. }
  destruct (resolve_sound js_txt r Er)
    as (_ & frag & g1 & name & _ & _ & Hshape & _ & _ & Hlocal & _).
  destruct Hshape as (_ & _ & _ & Hver).
  unfold io_bind at 1. unfold NewMain.download_file at 1, io_total.
  destruct (new_download_tidy net encode_url (urljoin BASE_URL (json_name r))
              (master_local r) true w2) as (es2 & Hw3 & Hd2 & _).
  destruct (New.download_file net encode_url (urljoin BASE_URL (json_name r))
              (master_local r) true w2) as [ok2 w3].
  cbn [snd] in Hw3. subst w3.
  destruct ok2; cbn [negb].
  - (* the manifest was fetched: [main] goes on to the models *)
    unfold io_bind at 1.
    destruct (write_text _ _ _) as [[[]|] w4]; cbn [fst snd];
      [|intros ?; discriminate].
    unfold io_bind at 1.
    destruct (read_json _ _ _) as [[data|] w5]; cbn [fst snd];
      [|intros ?; discriminate].
    unfold io_bind at 1.
    destruct (NewMain.sync_models _ _ _ _ _ _ _ _) as [[st|] w6];
      cbn [fst snd io_ret]; intros ?; discriminate.
  - unfold io_bind, io_total, io_ret. cbn [fst snd]. intros _.
    cbn [snd]. rewrite !Hclean. cbn [fs extends].
    rewrite replay_leaves; [exact Hfs2|].
    rewrite Hlocal in Hd2.
    destruct (master_local_not_index w2 (version r) Hver) as [H1 H2].
    eapply Forall_impl; [exact Hd2|].
    intros e He.
    apply (disciplined_leaves _ "json/index.js" e He H1 H2).
Qed.

Lemma new_main_index_js_kept_witness :
  let r := NewMain.main net_down id (fun b r => b +:+ r) (fun _ => None)
             (fun _ => "{}") "index.temp.1700000000.js" mirrored_world in
  fs (snd r) !! "json/index.js" = fs mirrored_world !! "json/index.js".
Proof.
  cbv zeta.
  apply (new_main_index_js_kept net_down id (fun b r => b +:+ r)
           (fun _ => None) (fun _ => "{}") "index.temp.1700000000.js"
           mirrored_world).
  - reflexivity.
  - cbn. lia.
  - discriminate.
  - reflexivity.
Defined.

(** * [get_latest_version] of [2audio.py] *)

Section StringOrder.

Lemma ascii_compare_refl (a : ascii) : Ascii.compare a a = Eq.
Proof. apply N.compare_refl. Qed.

Lemma ascii_compare_lt_trans (a b c : ascii) :
  Ascii.compare a b = Lt -> Ascii.compare b c = Lt -> Ascii.compare a c = Lt.
Proof.
  unfold Ascii.compare. rewrite !N.compare_lt_iff. lia.
Qed.

Lemma string_compare_refl (s : string) : String.compare s s = Eq.
Proof.
  induction s as [|a s IH]; [reflexivity|]. simpl.
  rewrite ascii_compare_refl. exact IH.
Qed.

Lemma string_compare_lt_trans (s1 : string) :
  forall s2 s3,
  String.compare s1 s2 = Lt -> String.compare s2 s3 = Lt ->
  String.compare s1 s3 = Lt.
Proof.
  induction s1 as [|a s1 IH]; intros [|b s2] [|c s3]; simpl;
    try discriminate; try reflexivity.
  destruct (Ascii.compare a b) eqn:Eab; try discriminate;
    destruct (Ascii.compare b c) eqn:Ebc; try discriminate.
  - apply Ascii.compare_eq_iff in Eab, Ebc. subst.
    rewrite ascii_compare_refl. apply IH.
  - apply Ascii.compare_eq_iff in Eab. subst. rewrite Ebc. reflexivity.
  - apply Ascii.compare_eq_iff in Ebc. subst. rewrite Eab. reflexivity.
  - rewrite (ascii_compare_lt_trans a b c Eab Ebc). reflexivity.
Qed.

Lemma leb_refl (s : string) : String.leb s s = true.
Proof. unfold String.leb. rewrite string_compare_refl. reflexivity. Qed.

Lemma leb_trans (s1 s2 s3 : string) :
  String.leb s1 s2 = true -> String.leb s2 s3 = true ->
  String.leb s1 s3 = true.
Proof.
  unfold String.leb.
  destruct (String.compare s1 s2) eqn:E12; try discriminate;
    destruct (String.compare s2 s3) eqn:E23; try discriminate; intros _ _.
  - apply String.compare_eq_iff in E12, E23. subst.
    rewrite string_compare_refl. reflexivity.
  - apply String.compare_eq_iff in E12. subst. rewrite E23. reflexivity.
  - apply String.compare_eq_iff in E23. subst. rewrite E12. reflexivity.
  - rewrite (string_compare_lt_trans _ _ _ E12 E23). reflexivity.
Qed.

Lemma ltb_leb_trans (s1 s2 s3 : string) :
  String.ltb s1 s2 = true -> String.leb s2 s3 = true ->
  String.ltb s1 s3 = true.
Proof.
  unfold String.ltb, String.leb.
  destruct (String.compare s1 s2) eqn:E12; try discriminate;
    destruct (String.compare s2 s3) eqn:E23; try discriminate; intros _ _.
  - apply String.compare_eq_iff in E23. subst. rewrite E12. reflexivity.
  - rewrite (string_compare_lt_trans _ _ _ E12 E23). reflexivity.
Qed.

(** A string sorts before every proper extension of it. *)
Lemma ltb_prefix (s t : string) : t <> "" -> String.ltb s (s +:+ t) = true.
Proof.
  intros Ht. unfold String.ltb. induction s as [|a s IH]; simpl.
  - destruct t; [congruence|reflexivity].
  - rewrite ascii_compare_refl. exact IH.
Qed.

End StringOrder.

Section SortedFacts.

Import AudioVersion.

Lemma in_insert (x z : string) (l : list string) :
  In z (insert x l) <-> z = x \/ In z l.
Proof.
  induction l as [|y l IH]; simpl; [intuition|].
  destruct (String.leb x y); simpl; [intuition|].
  rewrite IH. intuition.
Qed.

Lemma in_sorted (z : string) (l : list string) : In z (sorted l) <-> In z l.
Proof.
  induction l as [|x l IH]; simpl; [reflexivity|].
  rewrite in_insert, IH. intuition.
Qed.

Lemma insert_nonempty (x : string) (l : list string) : insert x l <> [].
Proof. destruct l as [|y l]; simpl; [|destruct (String.leb x y)]; discriminate. Qed.

Lemma last_insert (x d : string) (l : list string) :
  l <> [] -> greatest (List.last l d) l ->
  greatest (List.last (insert x l) d) (insert x l).
Proof.
  induction l as [|y l IH]; [congruence|]. intros _ [Hin Hmax].
  cbn [insert]. destruct (String.leb x y) eqn:Exy.
  - change (List.last (x :: y :: l) d) with (List.last (y :: l) d).
    split; [right; exact Hin|].
    intros z [<-|Hz]; [|apply Hmax, Hz].
    apply (leb_trans _ y); [exact Exy|]. apply Hmax. left. reflexivity.
  - destruct l as [|y' l].
    + cbn. split; [right; left; reflexivity|].
      intros z [<-|[<-|[]]]; [|apply leb_refl].
      destruct (String.leb_total x y) as [H|H]; [congruence|exact H].
    + assert (Hne : y' :: l <> []) by discriminate.
      assert (Hsub : greatest (List.last (y' :: l) d) (y' :: l)).
      { change (List.last (y :: y' :: l) d) with (List.last (y' :: l) d)
          in Hin, Hmax.
        split.
        - clear -Hne. revert Hne. generalize (y' :: l). intros l0 Hne.
          induction l0 as [|a [|b l0] IHl]; [congruence|left; reflexivity|].
          right. apply IHl. discriminate.
        - intros z Hz. apply Hmax. right. exact Hz. }
      destruct (IH Hne Hsub) as [Hin' Hmax'].
      pose proof (insert_nonempty x (y' :: l)) as Hine.
      assert (Hlast : List.last (y :: insert x (y' :: l)) d
                      = List.last (insert x (y' :: l)) d).
      { destruct (insert x (y' :: l)); [congruence|reflexivity]. }
      rewrite Hlast. split; [right; exact Hin'|].
      intros z [<-|Hz]; [|apply Hmax', Hz].
      apply (leb_trans _ (List.last (y' :: l) d)).
      * apply Hmax. left. reflexivity.
      * apply Hmax'. apply in_insert. right. apply Hsub.
Qed.

Lemma last_sorted (d : string) (l : list string) :
  l <> [] -> greatest (List.last (sorted l) d) l.
Proof.
  induction l as [|x l IH]; [congruence|]. intros _.
  assert (H : greatest (List.last (sorted (x :: l)) d) (sorted (x :: l))).
  { cbn [sorted]. destruct l as [|y l].
    - cbn. split; [left; reflexivity|]. intros z [<-|[]]. apply leb_refl.
    - assert (Hne : sorted (y :: l) <> []) by apply insert_nonempty.
      apply last_insert; [exact Hne|].
      destruct (IH ltac:(discriminate)) as [Hin Hmax].
      split; [apply in_sorted, Hin|].
      intros z Hz. apply Hmax, in_sorted, Hz. }
  destruct H as [Hin Hmax].
  split; [apply in_sorted, Hin|].
  intros z Hz. apply Hmax, in_sorted, Hz.
Qed.

End SortedFacts.

Section VersionFacts.

Import AudioVersion.

Lemma lazy_any_here {R : Type} (s : string) (k : string -> option R) (r : R) :
  k s = Some r -> Re.lazy_any s k = Some r.
Proof. intros H. destruct s; simpl; rewrite H; reflexivity. Qed.

(** The lazy [.*?] runs over a text without a dot before it can meet
    [.json]. *)
Lemma lazy_any_no_dot {R : Type} (v s : string)
    (g : string -> string -> option R) :
  no_dot v = true -> no_newline v = true ->
  Re.lazy_any (v +:+ s) (fun t => Re.lit ".json" t (g t))
  = Re.lazy_any s (fun t => Re.lit ".json" t (g t)).
Proof.
  unfold no_dot, no_newline, newline.
  induction v as [|a v IH]; [reflexivity|]. simpl.
  intros Hd Hn. apply andb_prop in Hd as [Ha Hd]. apply andb_prop in Hn as [Hb Hn].
  apply negb_true_iff in Ha, Hb.
  unfold Re.lit at 1. cbn [Str.startswith]. rewrite Ha. cbn [andb].
  rewrite Hb. apply IH; assumption.
Qed.

Lemma version_of_sound (filename v : string) :
  version_of filename = Some v ->
  exists rest,
    filename = "live2dMaster" +:+ v +:+ ".json" +:+ rest
    /\ no_newline v = true.
Proof.
  unfold version_of. intros H.
  apply lit_some in H as (s1 & E1 & H).
  apply lazy_any_some in H as (name & s2 & E2 & Hn & H).
  apply lit_some in H as (rest & E3 & H).
  injection H as <-. subst s2 s1. rewrite between_app.
  exists rest. split; [exact E1|exact Hn].
Qed.

Lemma version_of_complete (v rest : string) :
  no_dot v = true -> no_newline v = true ->
  version_of ("live2dMaster" +:+ v +:+ ".json" +:+ rest) = Some v.
Proof.
  intros Hd Hn. unfold version_of. rewrite lit_app.
  rewrite (lazy_any_no_dot v (".json" +:+ rest)
             (fun t _ => Some (Re.between (v +:+ ".json" +:+ rest) t)) Hd Hn).
  apply lazy_any_here. rewrite lit_app.
  change (v +:+ ".json" +:+ rest) with (v +:+ (".json" +:+ rest)).
  rewrite between_app. reflexivity.
Qed.

Lemma version_of_prefix (filename : string) :
  Str.startswith filename "live2dMaster" = false ->
  version_of filename = None.
Proof. intros H. unfold version_of, Re.lit. rewrite H. reflexivity. Qed.

Lemma in_omap_version (v : string) (listing : list string) :
  In v (omap version_of listing)
  <-> exists f, In f listing /\ version_of f = Some v.
Proof.
  rewrite <- list_elem_of_In, list_elem_of_omap.
  split; intros (f & Hf & E); exists f; (split; [|exact E]);
    apply list_elem_of_In; exact Hf.
Qed.

End VersionFacts.

(** X13: the pattern of [get_latest_version] is matched at the start of a
    file name only: the version is the text between [live2dMaster] and
    [.json], whatever follows in the name, so a name like
    [live2dMaster<v>.json.bak] counts for [v]; a name that does not start
    with [live2dMaster] gives nothing. *)
Theorem version_of_spec :
  (forall filename v,
     AudioVersion.version_of filename = Some v ->
     exists rest,
       filename = "live2dMaster" +:+ v +:+ ".json" +:+ rest
       /\ no_newline v = true)
  /\ (forall v rest,
        no_dot v = true -> no_newline v = true ->
        AudioVersion.version_of ("live2dMaster" +:+ v +:+ ".json" +:+ rest)
        = Some v)
  /\ (forall filename,
        Str.startswith filename "live2dMaster" = false ->
        AudioVersion.version_of filename = None).
Proof.
  split; [exact version_of_sound|].
  split; [exact version_of_complete|exact version_of_prefix].
Qed.

Lemma version_of_spec_witness :
  AudioVersion.version_of "live2dMasterabc123.json.bak" = Some "abc123"
  /\ AudioVersion.version_of "index.js" = None.
Proof.
  destruct version_of_spec as (_ & Hc & Hp). split.
  - apply (Hc "abc123" ".bak"); reflexivity.
  - apply Hp. reflexivity.
Defined.

Lemma latest_version_max (listing : list string) :
  (AudioVersion.get_latest_version listing = None
   <-> forall f, In f listing -> AudioVersion.version_of f = None)
  /\ forall v,
       AudioVersion.get_latest_version listing = Some v ->
       (exists f, In f listing /\ AudioVersion.version_of f = Some v)
       /\ forall f u, In f listing -> AudioVersion.version_of f = Some u ->
                      String.leb u v = true.
Proof.
  unfold AudioVersion.get_latest_version. cbv zeta.
  destruct (omap AudioVersion.version_of listing) as [|x versions] eqn:E.
  - split; [|discriminate]. split; [|reflexivity].
    intros _ f Hf. destruct (AudioVersion.version_of f) as [u|] eqn:Eu;
      [|reflexivity].
    assert (H : In u (omap AudioVersion.version_of listing)).
    { apply in_omap_version. eauto. }
    rewrite E in H. destruct H.
  - split.
    + split; [discriminate|]. intros H. exfalso.
      assert (Hx : In x (omap AudioVersion.version_of listing)).
      { rewrite E. left. reflexivity. }
      apply in_omap_version in Hx as (f & Hf & Ef).
      rewrite (H f Hf) in Ef. discriminate.
    + intros v [= <-].
      destruct (last_sorted "" (x :: versions) ltac:(discriminate))
        as [Hin Hmax].
      change (AudioVersion.insert x (AudioVersion.sorted versions))
        with (AudioVersion.sorted (x :: versions)).
      rewrite <- E in Hin, Hmax |- *. split.
      * apply in_omap_version, Hin.
      * intros f u Hf Eu. apply Hmax. apply in_omap_version. eauto.
Qed.

(** X14: [get_latest_version] returns [None] exactly when no name of the
    listing matches; otherwise it returns the version of one of the names
    and no matching name has a version that sorts after it. *)
Theorem get_latest_version_greatest (listing : list string) :
  (AudioVersion.get_latest_version listing = None
   <-> forall f, In f listing -> AudioVersion.version_of f = None)
  /\ forall v,
       AudioVersion.get_latest_version listing = Some v ->
       (exists f, In f listing /\ AudioVersion.version_of f = Some v)
       /\ forall f u, In f listing -> AudioVersion.version_of f = Some u ->
                      String.leb u v = true.
Proof. apply latest_version_max. Qed.

(** X15: [1model.py] leaves, beside the manifest of version [v], the
    backup [live2dMaster<v>webversion.json]; the pattern of
    [get_latest_version] matches that name too, with the version
    [<v>webversion], which sorts after [v]: once the backup is in the
    listing, the version returned is never [v] but one that sorts after
    it. *)
Theorem latest_version_counts_backup (listing : list string) (v u : string) :
  no_dot v = true -> no_newline v = true ->
  In (manifest_backup_name v) listing ->
  AudioVersion.get_latest_version listing = Some u ->
  AudioVersion.version_of (manifest_backup_name v) = Some (v +:+ "webversion")
  /\ String.ltb v u = true.
Proof.
  intros Hd Hn Hin Hu.
  assert (Hv : AudioVersion.version_of (manifest_backup_name v)
               = Some (v +:+ "webversion")).
  { unfold manifest_backup_name.
    pose proof (version_of_complete (v +:+ "webversion") "") as H.
    rewrite !app_assoc_s, app_empty_r in H. apply H.
    - unfold no_dot in *. rewrite all_chars_app, Hd. reflexivity.
    - unfold no_newline in *. rewrite all_chars_app, Hn. reflexivity. }
  split; [exact Hv|].
  destruct (latest_version_max listing) as [_ H].
  destruct (H u Hu) as [_ Hmax].
  apply (ltb_leb_trans _ (v +:+ "webversion")).
  - apply ltb_prefix. discriminate.
  - apply (Hmax _ _ Hin Hv).
Qed.

Lemma latest_version_counts_backup_witness :
  AudioVersion.get_latest_version
    ["index.js"; manifest_name "abc123"; manifest_backup_name "abc123"]
  = Some "abc123webversion"
  /\ String.ltb "abc123" "abc123webversion" = true.
Proof.
  split; [reflexivity|].
  apply (latest_version_counts_backup
           ["index.js"; manifest_name "abc123"; manifest_backup_name "abc123"]
           "abc123" "abc123webversion").
  - reflexivity.
  - reflexivity.
  - right. right. left. reflexivity.
  - reflexivity.
Defined.

(** * The names of the backups of the audio pass *)

Section BackupNames.

Lemma endswith_inv (s p : string) :
  Str.endswith s p = true -> exists r, s = r +:+ p.
Proof.
  unfold Str.endswith. intros H.
  apply startswith_inv in H as [r Hr]. exists (Str.rev r).
  rewrite <- (rev_involutive s), Hr, rev_app, rev_involutive. reflexivity.
Qed.

Lemma endswith_app (s p : string) : Str.endswith (s +:+ p) p = true.
Proof. unfold Str.endswith. rewrite rev_app. apply startswith_app. Qed.

(** [.model3.json] does not overlap itself: an occurrence that starts
    before another one ends before it. *)
Lemma model3_border (p : string) :
  p <> "" ->
  Str.startswith (p +:+ ".model3.json") ".model3.json" = true ->
  exists p', p = ".model3.json" +:+ p'.
Proof.
  intros Hne H.
  destruct p as [|a0 p0]; [congruence|]. clear Hne.
  simpl in H. apply andb_prop in H as [Ha H].
  apply ascii_eqb_true in Ha. subst a0.
  destruct p0 as [|a1 p1]; [simpl in H; discriminate H|].
  simpl in H. apply andb_prop in H as [Ha H].
  apply ascii_eqb_true in Ha. subst a1.
  destruct p1 as [|a2 p2]; [simpl in H; discriminate H|].
  simpl in H. apply andb_prop in H as [Ha H].
  apply ascii_eqb_true in Ha. subst a2.
  destruct p2 as [|a3 p3]; [simpl in H; discriminate H|].
  simpl in H. apply andb_prop in H as [Ha H].
  apply ascii_eqb_true in Ha. subst a3.
  destruct p3 as [|a4 p4]; [simpl in H; discriminate H|].
  simpl in H. apply andb_prop in H as [Ha H].
  apply ascii_eqb_true in Ha. subst a4.
  destruct p4 as [|a5 p5]; [simpl in H; discriminate H|].
  simpl in H. apply andb_prop in H as [Ha H].
  apply ascii_eqb_true in Ha. subst a5.
  destruct p5 as [|a6 p6]; [simpl in H; discriminate H|].
  simpl in H. apply andb_prop in H as [Ha H].
  apply ascii_eqb_true in Ha. subst a6.
  destruct p6 as [|a7 p7]; [simpl in H; discriminate H|].
  simpl in H. apply andb_prop in H as [Ha H].
  apply ascii_eqb_true in Ha. subst a7.
  destruct p7 as [|a8 p8]; [simpl in H; discriminate H|].
  simpl in H. apply andb_prop in H as [Ha H].
  apply ascii_eqb_true in Ha. subst a8.
  destruct p8 as [|a9 p9]; [simpl in H; discriminate H|].
  simpl in H. apply andb_prop in H as [Ha H].
  apply ascii_eqb_true in Ha. subst a9.
  destruct p9 as [|a10 p10]; [simpl in H; discriminate H|].
  simpl in H. apply andb_prop in H as [Ha H].
  apply ascii_eqb_true in Ha. subst a10.
  destruct p10 as [|a11 p11]; [simpl in H; discriminate H|].
  simpl in H. apply andb_prop in H as [Ha H].
  apply ascii_eqb_true in Ha. subst a11.
  exists p11. reflexivity.
Qed.

Lemma replace_model3_suffix (new : string) (n : nat) :
  forall p, String.length p <= n ->
  exists x,
    Str.replace_aux ".model3.json" new 0 (p +:+ ".model3.json") = x +:+ new.
Proof.
  induction n as [|n IH]; intros p Hlen.
  { destruct p; [|simpl in Hlen; lia]. exists "".
    cbn. rewrite app_empty_r. reflexivity. }
  destruct (Str.startswith (p +:+ ".model3.json") ".model3.json") eqn:H.
  - destruct (string_dec p "") as [->|Hne].
    { exists "". cbn. rewrite app_empty_r. reflexivity. }
    destruct (model3_border p Hne H) as [p' Hp'].
    assert (Hl : String.length p' <= n).
    { rewrite Hp', length_app_s in Hlen. simpl in Hlen. lia. }
    destruct (IH p' Hl) as [x Hx].
    exists (new +:+ x). rewrite Hp'.
    cbn [String.append Str.replace_aux Str.startswith Ascii.eqb Bool.eqb andb
         String.length Nat.sub].
    rewrite replace_aux_skip. cbn [Str.drop].
    rewrite Hx, app_assoc_s. reflexivity.
  - destruct p as [|a p].
    { cbn in H. discriminate H. }
    simpl in Hlen. destruct (IH p ltac:(lia)) as [x Hx].
    exists (String a x).
    change (String a p +:+ ".model3.json")
      with (String a (p +:+ ".model3.json")) in H |- *.
    cbn [Str.replace_aux]. rewrite H, Hx. reflexivity.
Qed.

Lemma cut_last_sep_nosep_tail (x t : string) :
  nosep t = true ->
  Posix.cut_last_sep (x +:+ t)
  = (fst (Posix.cut_last_sep x), snd (Posix.cut_last_sep x) +:+ t).
Proof.
  intros Ht. induction x as [|a x IH].
  - cbn [String.append Posix.cut_last_sep fst snd].
    induction t as [|b t IHt]; [reflexivity|].
    unfold nosep in Ht. simpl in Ht. apply andb_prop in Ht as [Hb Ht].
    apply negb_true_iff in Hb.
    cbn [Posix.cut_last_sep]. rewrite (IHt Ht).
    cbn [Str.is_empty negb]. rewrite Hb. reflexivity.
  - change (String a x +:+ t) with (String a (x +:+ t)).
    cbn [Posix.cut_last_sep]. rewrite IH.
    destruct (Posix.cut_last_sep x) as [h tl]. cbn [fst snd].
    destruct (Str.is_empty h); cbn [negb]; [|reflexivity].
    destruct (Ascii.eqb a "/"); reflexivity.
Qed.

End BackupNames.

(** X16: the backup that [process_audio] writes for a descriptor whose
    name [main] selects (it ends with [.model3.json]) has itself a name
    that ends with [.model3.json]: a later run of [main] selects the
    backup as well and treats it as a descriptor. *)
Theorem backup_name_selected (root filename version : string) :
  AudioVersion.selected filename = true ->
  AudioVersion.selected
    (Posix.basename
       (AudioMain.backup_path_of (Posix.join root [filename]) version))
  = true.
Proof.
  unfold AudioVersion.selected. intros H.
  apply endswith_inv in H as [f ->].
  assert (Hm : exists p, Posix.join root [f +:+ ".model3.json"]
                         = p +:+ ".model3.json").
  { unfold Posix.join, Posix.join2. cbn [fold_left].
    destruct (Str.startswith _ Posix.sep); [eauto|].
    destruct (_ || _).
    - exists (root +:+ f). rewrite app_assoc_s. reflexivity.
    - exists (root +:+ Posix.sep +:+ f). rewrite !app_assoc_s. reflexivity. }
  destruct Hm as [p ->].
  unfold AudioMain.backup_path_of, Str.replace.
  destruct (replace_model3_suffix (version +:+ "webversion.model3.json")
              (String.length p) p (le_n _)) as [x ->].
  change (version +:+ "webversion.model3.json")
    with (version +:+ ("webversion" +:+ ".model3.json")).
  unfold Posix.basename. rewrite <- !app_assoc_s.
  rewrite cut_last_sep_nosep_tail by reflexivity.
  cbn [snd]. apply endswith_app.
Qed.

Lemma backup_name_selected_witness :
  AudioVersion.selected
    (Posix.basename
       (AudioMain.backup_path_of
          (Posix.join "./live2d/azurlane/x" ["x.model3.json"]) "abc123"))
  = true.
Proof.
  apply (backup_name_selected "./live2d/azurlane/x" "x.model3.json" "abc123").
  reflexivity.
Defined.

(** * Where the descriptors are stored *)

Section LayoutFacts.

Lemma kept_segment_inv (c : string) :
  kept_segment c = true ->
  plain c /\ legal_chars c = true /\ c <> "." /\ c <> "..".
Proof.
  unfold kept_segment. intros H.
  apply andb_prop in H as [H H5]. apply andb_prop in H as [H H4].
  apply andb_prop in H as [H H3]. apply andb_prop in H as [H1 H2].
  split; [split; [intros ->; discriminate|exact H2]|].
  split; [exact H3|]. split; intros ->; discriminate.
Qed.

Lemma raw_segment_inv (c : string) :
  raw_segment c = true -> plain c /\ no_backslash c = true.
Proof.
  unfold raw_segment. intros H.
  apply andb_prop in H as [H H3]. apply andb_prop in H as [H1 H2].
  split; [split; [intros ->; discriminate|exact H2]|exact H3].
Qed.

Lemma legal_no_backslash (s : string) :
  legal_chars s = true -> no_backslash s = true.
Proof.
  apply all_chars_impl. intros a Ha.
  destruct (Ascii.eqb_spec a "\"); [subst; discriminate|reflexivity].
Qed.

Lemma legal_no_scheme (s : string) :
  legal_chars s = true -> Str.contains s "://" = false.
Proof.
  unfold legal_chars. induction s as [|a s IH]; [reflexivity|].
  simpl. intros H. apply andb_prop in H as [Ha Hs].
  rewrite (IH Hs), orb_false_r.
  destruct (Ascii.eqb_spec a ":"); [subst; discriminate|reflexivity].
Qed.

Lemma sub_invalid_id (p : string) : legal_chars p = true -> sub_invalid p = p.
Proof.
  unfold legal_chars, sub_invalid. induction p as [|a p IH]; [reflexivity|].
  simpl. intros H. apply andb_prop in H as [Ha Hp].
  apply negb_true_iff in Ha. rewrite Ha, (IH Hp). reflexivity.
Qed.

Lemma split_join (segs : list string) :
  segs <> [] -> Forall (fun c => nosep c = true) segs ->
  Str.split (Str.join "/" segs) "/" = segs.
Proof.
  intros Hne H. induction H as [|x l Hx Hl IH]; [congruence|].
  destruct l as [|y l]; [apply split_nosep, Hx|].
  rewrite join_cons2, split_app_sep, (split_nosep x Hx), IH by discriminate.
  reflexivity.
Qed.

Lemma chars_join (P : ascii -> bool) (segs : list string) :
  P "/"%char = true ->
  Forall (fun c => Str.all_chars P c = true) segs ->
  Str.all_chars P (Str.join "/" segs) = true.
Proof.
  intros Hs H. apply join_chars; [|exact H]. simpl. rewrite Hs. reflexivity.
Qed.

Lemma nosep_no_trailing (y : string) :
  nosep y = true -> Str.endswith y "/" = false.
Proof.
  intros Hsep. destruct (Str.endswith y "/") eqn:E; [|reflexivity].
  apply endswith_sep_inv in E as [r ->]. unfold nosep in Hsep.
  rewrite all_chars_app in Hsep. apply andb_prop in Hsep as [_ Hsep].
  discriminate Hsep.
Qed.

Lemma join_cons_app (b y : string) (l : list string) :
  Str.join "/" ((b +:+ "/" +:+ y) :: l) = b +:+ "/" +:+ Str.join "/" (y :: l).
Proof.
  destruct l as [|z l]; [reflexivity|].
  rewrite !join_cons2, !app_assoc_s. reflexivity.
Qed.

(** [os.path.join] of plain segments puts one separator between them. *)
Lemma fold_join2_plain (l : list string) :
  forall b, b <> "" -> Str.endswith b "/" = false -> Forall plain l ->
  fold_left Posix.join2 l b = Str.join "/" (b :: l).
Proof.
  induction l as [|y l IH]; intros b Hb He Hl; [reflexivity|].
  apply Forall_cons in Hl as [Hy Hl]. cbn [fold_left].
  assert (E : Posix.join2 b y = b +:+ "/" +:+ y).
  { unfold Posix.join2, Posix.sep. rewrite (plain_not_abs y Hy), He.
    destruct b; [congruence|reflexivity]. }
  rewrite E, IH.
  - apply join_cons_app.
  - destruct b; [congruence|discriminate].
  - rewrite <- app_assoc_s, endswith_sep_app by apply Hy.
    apply nosep_no_trailing, Hy.
  - exact Hl.
Qed.

Lemma posix_join_plain (x : string) (l : list string) :
  plain x -> Forall plain l -> Posix.join x l = Str.join "/" (x :: l).
Proof.
  intros Hx Hl. apply fold_join2_plain; [apply Hx| |exact Hl].
  apply nosep_no_trailing, Hx.
Qed.

Lemma posix_join_empty (x : string) (l : list string) :
  plain x -> Forall plain l -> Posix.join "" (x :: l) = Str.join "/" (x :: l).
Proof.
  intros Hx Hl. unfold Posix.join. cbn [fold_left].
  assert (E : Posix.join2 "" x = x).
  { unfold Posix.join2, Posix.sep. rewrite (plain_not_abs x Hx). reflexivity. }
  rewrite E. apply (posix_join_plain x l Hx Hl).
Qed.

End LayoutFacts.

Section LayoutRoundTrip.

Lemma filter_all {A : Type} (P : A -> Prop) `{forall x, Decision (P x)}
    (l : list A) :
  Forall P l -> filter P l = l.
Proof.
  induction 1 as [|x l Hx Hl IH]; [reflexivity|].
  rewrite filter_cons, decide_True by exact Hx. rewrite IH. reflexivity.
Qed.

Lemma map_id_on {A : Type} (f : A -> A) (l : list A) :
  Forall (fun x => f x = x) l -> map f l = l.
Proof.
  induction 1 as [|x l Hx Hl IH]; [reflexivity|].
  cbn. rewrite Hx, IH. reflexivity.
Qed.

Lemma kept_segments (segs : list string) :
  forallb kept_segment segs = true ->
  Forall plain segs /\ Forall (fun c => legal_chars c = true) segs
  /\ Forall (fun c => c <> ".") segs /\ Forall (fun c => c <> "..") segs.
Proof.
  induction segs as [|c segs IH]; [repeat split; constructor|].
  cbn [forallb]. intros H. apply andb_prop in H as [Hc Hs].
  destruct (kept_segment_inv c Hc) as (H1 & H2 & H3 & H4).
  destruct (IH Hs) as (I1 & I2 & I3 & I4).
  repeat split; constructor; assumption.
Qed.

(** The sanitizer leaves a relative path of kept segments as it is. *)
Lemma safe_path_join_kept (segs : list string) :
  segs <> [] -> forallb kept_segment segs = true ->
  safe_path_join "" (Str.join "/" segs) = Str.join "/" segs.
Proof.
  intros Hne Hk.
  destruct (kept_segments segs Hk) as (Hplain & Hlegal & Hdot & Hdd).
  assert (Hsep : Forall (fun c => nosep c = true) segs).
  { eapply Forall_impl; [exact Hplain|]. intros c Hc. apply Hc. }
  assert (Hrel : legal_chars (Str.join "/" segs) = true).
  { apply chars_join; [reflexivity|exact Hlegal]. }
  unfold safe_path_join, strip_scheme, clean_parts.
  rewrite (legal_no_scheme _ Hrel).
  rewrite replace_backslash, (to_slash_id _ (legal_no_backslash _ Hrel)).
  rewrite (split_join segs Hne Hsep).
  rewrite filter_all.
  2: { eapply Forall_impl; [exact Hplain|].
       intros c [Hc _]. destruct c; [congruence|reflexivity]. }
  rewrite map_id_on.
  2: { eapply Forall_impl; [exact Hlegal|]. intros c. apply sub_invalid_id. }
  unfold Posix.normpath.
  assert (Hj : Posix.join "" segs <> "") by (apply join_nonempty; assumption).
  destruct (Posix.join "" segs) as [|a j] eqn:Ej; [congruence|].
  cbn [Str.is_empty]. rewrite <- Ej.
  unfold Posix.norm_comps.
  rewrite (initial_slashes_join _ _ Hplain), (norm_fold_join _ _ _ Hplain).
  change (Posix.initial_slashes "") with 0.
  change (fold_left (Posix.norm_step 0) (Str.split "" "/") []) with (@nil string).
  rewrite norm_fold_plain.
  2: { clear -Hplain Hdd. induction Hplain as [|c l Hc Hl IH]; [constructor|].
       apply Forall_cons in Hdd as [Hc2 Hdd].
       constructor; [split; [apply Hc|exact Hc2]|apply IH, Hdd]. }
  rewrite (filter_all _ segs Hdot). cbn [app].
  unfold Posix.render, Posix.sep. cbn [Posix.times String.append].
  destruct segs as [|x l]; [congruence|].
  apply Forall_cons in Hplain as [Hx Hl].
  rewrite <- (posix_join_empty x l Hx Hl), Ej. reflexivity.
Qed.

End LayoutRoundTrip.



Section OldLayout.

Lemma raw_segments (segs : list string) :
  forallb raw_segment segs = true ->
  Forall plain segs /\ Forall (fun c => no_backslash c = true) segs.
Proof.
  induction segs as [|c segs IH]; [split; constructor|].
  cbn [forallb]. intros H. apply andb_prop in H as [Hc Hs].
  destruct (raw_segment_inv c Hc) as (H1 & H2).
  destruct (IH Hs) as (I1 & I2).
  split; constructor; assumption.
Qed.

Lemma lstrip_sep_plain (x rest : string) :
  plain x -> Str.lstrip "/" ("/" +:+ x +:+ rest) = x +:+ rest.
Proof.
  intros Hx. destruct (plain_head x Hx) as (a & r & -> & Ha).
  cbn. destruct (Ascii.eqb_spec a "/"); [contradiction|reflexivity].
Qed.

End OldLayout.



(** * Which entries the loop over the models visits *)

Section CollectComplete.

Lemma collect_items_complete (gi ci : nat) (items : list json) :
  forall (li : nat) (refs : list addr) (j : nat) (e : json),
  collect_items gi ci li items = Some refs ->
  items !! j = Some e -> Py.contains "path" e = Some true ->
  In (Addr gi ci (li + j)) refs.
Proof.
  induction items as [|l items IH]; intros li refs j e H Hj He;
    [discriminate|].
  simpl in H.
  destruct (Py.contains "path" l) as [b|] eqn:Eb; [|discriminate]. simpl in H.
  destruct (collect_items gi ci (S li) items) as [more|] eqn:E;
    [|discriminate]. simpl in H. injection H as <-.
  destruct j as [|j].
  - injection Hj as ->. rewrite He in Eb. injection Eb as <-.
    rewrite Nat.add_0_r. left. reflexivity.
  - assert (Hin : In (Addr gi ci (li + S j)) more).
    { replace (li + S j) with (S li + j) by lia. apply (IH _ _ _ e E Hj He). }
    destruct b; [right|]; exact Hin.
Qed.

Lemma collect_chars_complete (gi : nat) (chars : list json) :
  forall (ci : nat) (refs : list addr) (j li : nat) (ch : json)
         (l : list json) (e : json),
  collect_chars gi ci chars = Some refs ->
  chars !! j = Some ch -> obj_get "live2d" ch = Some (JArr l) ->
  l !! li = Some e -> Py.contains "path" e = Some true ->
  In (Addr gi (ci + j) li) refs.
Proof.
  induction chars as [|c chars IH]; intros ci refs j li ch l e H Hj Hl Hli He;
    [discriminate|].
  simpl in H.
  destruct (Py.get c "live2d" (JArr [])) as [live2d|] eqn:Eg; [|discriminate].
  simpl in H. destruct (Py.iter live2d) as [items|] eqn:Ei; [|discriminate].
  simpl in H.
  destruct (collect_items gi ci 0 items) as [here|] eqn:E1; [|discriminate].
  simpl in H.
  destruct (collect_chars gi (S ci) chars) as [more|] eqn:E2; [|discriminate].
  simpl in H. injection H as <-. apply in_app_iff.
  destruct j as [|j].
  - injection Hj as ->. left. rewrite Nat.add_0_r.
    destruct ch as [| | | | |d]; try discriminate. cbn in Hl, Eg.
    rewrite Hl in Eg. injection Eg as <-. cbn in Ei. injection Ei as <-.
    apply (collect_items_complete gi ci l 0 here li e E1 Hli He).
  - right. replace (ci + S j) with (S ci + j) by lia.
    apply (IH _ _ _ _ ch l e E2 Hj Hl Hli He).
Qed.

Lemma collect_games_complete (games : list json) :
  forall (gi : nat) (refs : list addr) (j ci li : nat) (g : json)
         (chars : list json) (ch : json) (l : list json) (e : json),
  collect_games gi games = Some refs ->
  games !! j = Some g -> obj_get "character" g = Some (JArr chars) ->
  chars !! ci = Some ch -> obj_get "live2d" ch = Some (JArr l) ->
  l !! li = Some e -> Py.contains "path" e = Some true ->
  In (Addr (gi + j) ci li) refs.
Proof.
  induction games as [|g0 games IH];
    intros gi refs j ci li g chars ch l e H Hj Hc Hci Hl Hli He;
    [discriminate|].
  simpl in H.
  destruct (Py.get g0 "character" (JArr [])) as [character|] eqn:Eg;
    [|discriminate].
  simpl in H. destruct (Py.iter character) as [cs|] eqn:Ei; [|discriminate].
  simpl in H.
  destruct (collect_chars gi 0 cs) as [here|] eqn:E1; [|discriminate].
  simpl in H.
  destruct (collect_games (S gi) games) as [more|] eqn:E2; [|discriminate].
  simpl in H. injection H as <-. apply in_app_iff.
  destruct j as [|j].
  - injection Hj as ->. left. rewrite Nat.add_0_r.
    destruct g as [| | | | |d]; try discriminate. cbn in Hc, Eg.
    rewrite Hc in Eg. injection Eg as <-. cbn in Ei. injection Ei as <-.
    apply (collect_chars_complete gi chars 0 here ci li ch l e E1 Hci Hl Hli He).
  - right. replace (gi + S j) with (S gi + j) by lia.
    apply (IH _ _ _ _ _ g chars ch l e E2 Hj Hc Hci Hl Hli He).
Qed.

End CollectComplete.

(** X19: when the three nested loops that collect the models end without
    an exception, every entry [Master[g].character[c].live2d[i]] of the
    manifest that has a [path] is in the list, and no entry is in it
    twice: each such model is visited exactly once. *)
Theorem collect_models_complete (master_data : json) (models : list addr) :
  collect_models master_data = Some models ->
  NoDup models
  /\ forall a e,
       get_entry a master_data = Some e ->
       Py.contains "path" e = Some true ->
       In a models.
Proof.
  intros H. split; [apply (collect_models_NoDup _ _ H)|].
  intros [gi ci li] e Hget He. unfold get_entry in Hget. cbn [a_game a_char a_item] in Hget.
  destruct (obj_get "Master" master_data) as [m|] eqn:Em; [|discriminate].
  cbn in Hget.
  destruct (arr_get gi m) as [g|] eqn:Eg; [|discriminate]. cbn in Hget.
  destruct (obj_get "character" g) as [c|] eqn:Ec; [|discriminate].
  cbn in Hget.
  destruct (arr_get ci c) as [ch|] eqn:Ech; [|discriminate]. cbn in Hget.
  destruct (obj_get "live2d" ch) as [l|] eqn:El; [|discriminate].
  cbn in Hget.
  destruct m as [| | | |games|]; try discriminate.
  destruct c as [| | | |chars|]; try discriminate.
  destruct l as [| | | |items|]; try discriminate.
  cbn in Eg, Ech, Hget.
  unfold collect_models in H.
  destruct master_data as [| | | | |d]; try discriminate.
  cbn in Em, H. rewrite Em in H. cbn in H.
  apply (collect_games_complete games 0 models gi ci li g chars ch items e
           H Eg Ec Ech El Hget He).
Qed.

Lemma collect_models_complete_witness :
  exists models,
    collect_models two_models = Some models
    /\ NoDup models
    /\ forall a e,
         get_entry a two_models = Some e ->
         Py.contains "path" e = Some true ->
         In a models.
Proof.
  exists [Addr 0 0 0; Addr 0 0 1]. split; [reflexivity|].
  apply (collect_models_complete two_models [Addr 0 0 0; Addr 0 0 1]).
  reflexivity.
Defined.

(** * The requests of a pass over a descriptor, [1model.py] *)

Section OldPassFacts.

Variable net : network.

Lemma fetches_among_mono (urls urls' : list string) (e : event) :
  (forall u, In u urls -> In u urls') ->
  fetches_among urls e -> fetches_among urls' e.
Proof. destruct e; simpl; auto. Qed.

Lemma contacts_fetches (url : string) (e : event) :
  is_head e = false -> contacts url url e -> fetches_among [url] e.
Proof.
  destruct e; simpl; auto. discriminate.
Qed.

Lemma heads_zero (es : list event) :
  heads es = 0 -> Forall (fun e => is_head e = false) es.
Proof.
  unfold heads. induction es as [|e es IH]; intros H; [constructor|].
  simpl in H. destruct (is_head e) eqn:E; [discriminate|].
  constructor; [exact E|apply IH, H].
Qed.

Lemma old_download_requests (url local : string) (w : world) :
  exists es,
    snd (Old.download_file net url local w) = extends w es
    /\ gets es <= 5
    /\ Forall (fetches_among [url]) es.
Proof.
  destruct (old_download_spec net url local w) as (es & Hw & Hg & _ & Hh & Hc & _).
  exists es. split; [exact Hw|]. split; [exact Hg|].
  pose proof (heads_zero es Hh) as Hz.
  clear - Hz Hc. induction es as [|e es IH]; [constructor|].
  inversion Hz; subst. inversion Hc; subst.
  constructor; [apply contacts_fetches; assumption|apply IH; assumption].
Qed.

Lemma old_run_tasks_requests (tasks : list task) :
  forall w,
  exists es,
    OldMain.run_tasks net tasks w = extends w es
    /\ gets es <= 5 * List.length tasks
    /\ Forall (fetches_among (map task_url tasks)) es.
Proof.
  induction tasks as [|t rest IH]; intros w.
  - exists []. rewrite extends_nil. split; [reflexivity|].
    split; [unfold gets; simpl; lia|constructor].
  - cbn [OldMain.run_tasks].
    destruct (old_download_requests (task_url t) (task_local t) w)
      as (es1 & -> & Hg1 & Hf1).
    destruct (IH (extends w es1)) as (es2 & -> & Hg2 & Hf2).
    exists (es1 ++ es2). rewrite extends_app. split; [reflexivity|].
    split; [rewrite gets_app; cbn [List.length]; lia|].
    apply Forall_app. split.
    + eapply Forall_impl; [exact Hf1|]. intros e. apply fetches_among_mono.
      intros u [<-|[]]. left. reflexivity.
    + eapply Forall_impl; [exact Hf2|]. intros e. apply fetches_among_mono.
      intros u Hu. right. exact Hu.
Qed.

Lemma strings_of_spec (paths : list json) (s : string) :
  s ∈ OldMain.strings_of paths <-> In (JStr s) paths.
Proof.
  induction paths as [|v rest IH]; simpl.
  - split; [set_solver|intros []].
  - destruct v; try (rewrite IH; split; [auto|intros [H|H]; [discriminate H|exact H]]).
    rewrite elem_of_union, elem_of_singleton, IH. split.
    + intros [->|H]; [left; reflexivity|right; exact H].
    + intros [H|H]; [left; congruence|right; exact H].
Qed.

End OldPassFacts.

(** X20: a pass of [process_model3_json] of [1model.py] over a descriptor
    whose [FileReferences] yields the list [paths] sends no probe, starts
    at most five transfers for each distinct string of the list, and
    every transfer fetches the URL of one of these strings, joined to the
    directory of the descriptor's URL; it does so whether or not the call
    ends with an exception. *)
Theorem old_model_pass_requests (net : network)
    (urljoin : string -> string -> string)
    (json_loads : string -> option json)
    (model_local_path model_full_url : string) (w : world)
    (model_data file_refs : json) (paths : list json) :
  fs w !! model_local_path ≫= json_loads = Some model_data ->
  Py.get model_data "FileReferences" (JObj []) = Some file_refs ->
  OldMain.asset_paths file_refs = Some paths ->
  let r := OldMain.process_model3_json net urljoin json_loads
             model_local_path model_full_url w in
  let es := events_since w (snd r) in
  snd r = extends w es
  /\ gets es <= 5 * size (OldMain.strings_of paths)
  /\ Forall (fetches_among
               (map (urljoin (Posix.dirname model_full_url +:+ "/"))
                    (elements (OldMain.strings_of paths)))) es
  /\ (forall rel, rel ∈ OldMain.strings_of paths <-> In (JStr rel) paths).
Proof.
  intros Hdoc Hrefs Hpaths r es.
  assert (H : exists es0,
             snd r = extends w es0
             /\ gets es0 <= 5 * size (OldMain.strings_of paths)
             /\ Forall (fetches_among
                          (map (urljoin (Posix.dirname model_full_url +:+ "/"))
                               (elements (OldMain.strings_of paths)))) es0).
  { subst r. unfold OldMain.process_model3_json.
    rewrite Hdoc, Hrefs.
    destruct (negb (Py.truthy file_refs)).
    { exists []. rewrite extends_nil. split; [reflexivity|].
      split; [unfold gets; simpl; lia|constructor]. }
    rewrite Hpaths.
    destruct (negb (forallb OldMain.hashable paths)).
    { exists []. rewrite extends_nil. split; [reflexivity|].
      split; [unfold gets; simpl; lia|constructor]. }
    cbv zeta.
    destruct (old_run_tasks_requests net
                (map (OldMain.asset_task urljoin model_local_path model_full_url)
                     (elements (OldMain.strings_of paths))) w)
      as (es0 & Hw & Hg & Hf).
    exists es0. split.
    { destruct (forallb _ paths); cbn [snd]; exact Hw. }
    split.
    { rewrite length_map in Hg. exact Hg. }
    rewrite map_map in Hf. exact Hf. }
  destruct H as (es0 & Hw & Hg & Hf).
  assert (Hes : es = es0).
  { subst es. rewrite Hw. apply events_since_extends. }
  rewrite Hes. split; [exact Hw|]. split; [exact Hg|]. split; [exact Hf|].
  intros rel. apply strings_of_spec.
Qed.

Lemma old_model_pass_requests_witness :
  let paths := [JStr "tex/00.png"; JStr "tex/00.png"] in
  let r := OldMain.process_model3_json net_flaky String.append
             (fun _ => Some textures_twice)
             "live2d/azurlane/x/x.model3.json"
             "https://static.l2d.su/live2d/azurlane/x/x.model3.json"
             descriptor_world in
  let es := events_since descriptor_world (snd r) in
  snd r = extends descriptor_world es
  /\ gets es <= 5 * size (OldMain.strings_of paths)
  /\ Forall (fetches_among
               (map (String.append
                       (Posix.dirname
                          "https://static.l2d.su/live2d/azurlane/x/x.model3.json"
                        +:+ "/"))
                    (elements (OldMain.strings_of paths)))) es
  /\ (forall rel, rel ∈ OldMain.strings_of paths <-> In (JStr rel) paths).
Proof.
  cbv zeta.
  apply (old_model_pass_requests net_flaky String.append
           (fun _ => Some textures_twice)
           "live2d/azurlane/x/x.model3.json"
           "https://static.l2d.su/live2d/azurlane/x/x.model3.json"
           descriptor_world textures_twice
           (JObj [("Textures", JArr [JStr "tex/00.png"; JStr "tex/00.png"])])
           [JStr "tex/00.png"; JStr "tex/00.png"]);
    vm_compute; reflexivity.
Defined.

(** * The explicit field list of [1model.py] against the walk of
      [1model.new.py] *)

Section FieldsAgainstWalk.

Lemma dict_get_In (k : string) (d : Dict.t) (v : json) :
  Dict.get k d = Some v -> exists k', In (k', v) d.
Proof.
  induction d as [|[k' v'] d IH]; simpl; [discriminate|].
  destruct (String.eqb k k').
  - intros H. injection H as ->. exists k'. left. reflexivity.
  - intros H. destruct (IH H) as (k0 & H0). exists k0. right. exact H0.
Qed.

Lemma leaf_of_field (d : Dict.t) (k : string) (v : json) (s : string) :
  Dict.get k d = Some v -> string_leaf v s -> string_leaf (JObj d) s.
Proof.
  intros H Hs. destruct (dict_get_In _ _ _ H) as (k' & Hin).
  eapply leaf_obj; eassumption.
Qed.

Lemma truthy_field_leaf (x : json) (k : string) (l : list json) (s : string) :
  OldMain.truthy_field x k = Some l -> In (JStr s) l ->
  (exists d, x = JObj d) /\ string_leaf x s.
Proof.
  unfold OldMain.truthy_field. destruct x as [| | | | |d]; try discriminate.
  cbn. destruct (Dict.get k d) as [v|] eqn:E; cbn.
  - destruct (Py.truthy v); intros H; injection H as <-; [|intros []].
    intros [->|[]]. split; [eauto|].
    eapply leaf_of_field; [exact E|constructor].
  - intros H. injection H as <-. intros [].
Qed.

Lemma files_of_leaf (items : list json) :
  forall (l : list json) (s : string),
  OldMain.files_of items = Some l -> In (JStr s) l ->
  exists x d, In x items /\ x = JObj d /\ string_leaf x s.
Proof.
  induction items as [|x rest IH]; intros l s H Hin; simpl in H.
  - injection H as <-. destruct Hin.
  - destruct (OldMain.truthy_field x "File") as [here|] eqn:E1;
      [|discriminate]. cbn in H.
    destruct (OldMain.files_of rest) as [more|] eqn:E2; [|discriminate].
    cbn in H. injection H as <-. apply in_app_iff in Hin.
    destruct Hin as [Hin|Hin].
    + destruct (truthy_field_leaf _ _ _ _ E1 Hin) as ((d & ->) & Hs).
      exists (JObj d), d. split; [left; reflexivity|]. split; [reflexivity|].
      exact Hs.
    + destruct (IH _ _ eq_refl Hin) as (y & d & Hy & -> & Hs).
      exists (JObj d), d. split; [right; exact Hy|]. split; [reflexivity|].
      exact Hs.
Qed.

Lemma chars_not_obj (t : string) (d : Dict.t) : ~ In (JObj d) (Py.chars t).
Proof.
  induction t as [|a t IH]; simpl; [tauto|].
  intros [H|H]; [discriminate H|exact (IH H)].
Qed.

Lemma keys_not_obj (fields : Dict.t) (d : Dict.t) :
  ~ In (JObj d) (map (fun kv => JStr (fst kv)) fields).
Proof.
  induction fields as [|kv fields IH]; simpl; [tauto|].
  intros [H|H]; [discriminate H|exact (IH H)].
Qed.

(** The strings that a loop over [o] hands to [files_of] are leaves of
    [o]: a loop over the keys of a dict or over the characters of a
    string gives no dict, so [files_of] raises or finds nothing. *)
Lemma iter_files_leaf (o : json) (items l : list json) (s : string) :
  Py.iter o = Some items -> OldMain.files_of items = Some l ->
  In (JStr s) l -> string_leaf o s.
Proof.
  intros Hi Hf Hin.
  destruct (files_of_leaf _ _ _ Hf Hin) as (x & d & Hx & -> & Hs).
  destruct o as [| | |t|items0|fields]; try discriminate;
    cbn in Hi; injection Hi as <-.
  - destruct (chars_not_obj _ _ Hx).
  - eapply leaf_arr; eassumption.
  - destruct (keys_not_obj _ _ Hx).
Qed.

Lemma motion_files_leaf (groups : list json) :
  forall (l : list json) (s : string),
  OldMain.motion_files groups = Some l -> In (JStr s) l ->
  exists g, In g groups /\ string_leaf g s.
Proof.
  induction groups as [|g rest IH]; intros l s H Hin; simpl in H.
  - injection H as <-. destruct Hin.
  - destruct (Py.iter g) as [motions|] eqn:E0; [|discriminate]. cbn in H.
    destruct (OldMain.files_of motions) as [here|] eqn:E1; [|discriminate].
    cbn in H.
    destruct (OldMain.motion_files rest) as [more|] eqn:E2; [|discriminate].
    cbn in H. injection H as <-. apply in_app_iff in Hin.
    destruct Hin as [Hin|Hin].
    + exists g. split; [left; reflexivity|].
      apply (iter_files_leaf _ _ _ _ E0 E1 Hin).
    + destruct (IH _ _ eq_refl Hin) as (g' & Hg & Hs).
      exists g'. split; [right; exact Hg|exact Hs].
Qed.

Lemma char_not_asset (a : ascii) : is_asset (String a EmptyString) = false.
Proof.
  destruct a as [[] [] [] [] [] [] [] []]; reflexivity.
Qed.

Lemma chars_not_asset (t s : string) :
  In (JStr s) (Py.chars t) -> is_asset s = false.
Proof.
  induction t as [|a t IH]; simpl; [tauto|].
  intros [H|H]; [|exact (IH H)].
  injection H as <-. apply char_not_asset.
Qed.

(** What [d.get(k, default)] gives is the value of a field, or the
    default. *)
Lemma py_get_cases (d : Dict.t) (k : string) (default v : json) :
  Py.get (JObj d) k default = Some v ->
  Dict.get k d = Some v \/ v = default.
Proof.
  cbn. destruct (Dict.get k d); intros H; injection H as <-; auto.
Qed.

Lemma asset_paths_leaf (file_refs : json) (paths : list json) (s : string) :
  OldMain.asset_paths file_refs = Some paths ->
  (forall d, obj_get "Textures" file_refs <> Some (JObj d)) ->
  In (JStr s) paths -> is_asset s = true ->
  string_leaf file_refs s.
Proof.
  unfold OldMain.asset_paths. intros H Htex Hin Hs.
  destruct (OldMain.truthy_field file_refs "Moc") as [moc|] eqn:E1;
    [|discriminate]. cbn in H.
  destruct (OldMain.truthy_field file_refs "Physics") as [physics|] eqn:E2;
    [|discriminate]. cbn in H.
  destruct (OldMain.truthy_field file_refs "Pose") as [pose|] eqn:E3;
    [|discriminate]. cbn in H.
  destruct file_refs as [| | | | |fr]; try discriminate.
  destruct (Py.get (JObj fr) "Textures" (JArr [])) as [tf|] eqn:E4;
    [|discriminate]. cbn [mbind option_bind] in H.
  destruct (Py.iter tf) as [textures|] eqn:E5; [|discriminate].
  cbn [mbind option_bind] in H.
  destruct (Py.get (JObj fr) "Expressions" (JArr [])) as [ef|] eqn:E6;
    [|discriminate]. cbn [mbind option_bind] in H.
  destruct (Py.iter ef) as [expressions|] eqn:E7; [|discriminate].
  cbn [mbind option_bind] in H.
  destruct (OldMain.files_of expressions) as [expression_files|] eqn:E8;
    [|discriminate]. cbn [mbind option_bind] in H.
  destruct (Py.get (JObj fr) "Motions" (JObj [])) as [mf|] eqn:E9;
    [|discriminate]. cbn [mbind option_bind] in H.
  destruct (OldMain.values mf) as [groups|] eqn:E10; [|discriminate].
  cbn [mbind option_bind] in H.
  destruct (OldMain.motion_files groups) as [motions|] eqn:E11;
    [|discriminate]. cbn [mbind option_bind] in H.
  injection H as <-.
  rewrite !in_app_iff in Hin.
  destruct Hin as [Hin|[Hin|[Hin|[Hin|[Hin|Hin]]]]].
  - apply (truthy_field_leaf _ _ _ _ E1 Hin).
  - apply (truthy_field_leaf _ _ _ _ E2 Hin).
  - apply (truthy_field_leaf _ _ _ _ E3 Hin).
  - destruct (py_get_cases _ _ _ _ E4) as [Hg| ->].
    + destruct tf as [| | |t|items|fields]; try discriminate;
        cbn in E5; injection E5 as <-.
      * rewrite (chars_not_asset _ _ Hin) in Hs. discriminate Hs.
      * eapply leaf_of_field; [exact Hg|].
        eapply leaf_arr; [exact Hin|constructor].
      * destruct (Htex fields). exact Hg.
    + cbn in E5. injection E5 as <-. destruct Hin.
  - destruct (py_get_cases _ _ _ _ E6) as [Hg| ->].
    + eapply leaf_of_field; [exact Hg|].
      apply (iter_files_leaf _ _ _ _ E7 E8 Hin).
    + cbn in E7. injection E7 as <-. cbn in E8. injection E8 as <-.
      destruct Hin.
  - destruct (motion_files_leaf _ _ _ E11 Hin) as (g & Hg & Hleaf).
    destruct mf as [| | | | |md]; try discriminate.
    cbn in E10. injection E10 as <-.
    apply in_map_iff in Hg. destruct Hg as ([k v] & <- & Hkv).
    destruct (py_get_cases _ _ _ _ E9) as [Hm|Hm].
    + eapply leaf_of_field; [exact Hm|].
      eapply leaf_obj; [exact Hkv|exact Hleaf].
    + injection Hm as ->. destruct Hkv.
Qed.

End FieldsAgainstWalk.

(** X21: the walk of [1model.new.py] finds every asset that the field
    list of [1model.py] names.  When the field list of a descriptor's
    [FileReferences] is built without an exception and [Textures] is not
    an object, every string of the list that ends in one of the asset
    extensions is in [extract_assets] of the descriptor. *)
Theorem old_assets_found_by_walk (model_data file_refs : json)
    (paths : list json) (rel : string) :
  Py.get model_data "FileReferences" (JObj []) = Some file_refs ->
  OldMain.asset_paths file_refs = Some paths ->
  (forall d, obj_get "Textures" file_refs <> Some (JObj d)) ->
  In (JStr rel) paths -> is_asset rel = true ->
  rel ∈ extract_assets model_data.
Proof.
  intros Hrefs Hpaths Htex Hin Hs.
  unfold extract_assets. apply (walk_spec model_data ∅ rel). right.
  split; [|exact Hs].
  pose proof (asset_paths_leaf _ _ _ Hpaths Htex Hin Hs) as Hleaf.
  destruct model_data as [| | | | |md]; try discriminate.
  destruct (py_get_cases _ _ _ _ Hrefs) as [Hg| ->].
  - eapply leaf_of_field; eassumption.
  - cbn in Hpaths. injection Hpaths as <-. destruct Hin.
Qed.

Lemma old_assets_found_by_walk_witness :
  "tex/00.png" ∈ extract_assets textures_twice.
Proof.
  apply (old_assets_found_by_walk textures_twice
           (JObj [("Textures", JArr [JStr "tex/00.png"; JStr "tex/00.png"])])
           [JStr "tex/00.png"; JStr "tex/00.png"] "tex/00.png").
  - reflexivity.
  - reflexivity.
  - intros d H. discriminate H.
  - left. reflexivity.
  - reflexivity.
Defined.

(** Where [Textures] is an object the loop of [1model.py] runs over its
    keys, which the walk does not visit. *)
Example old_textures_keys_not_walked :
  let file_refs := JObj [("Textures", JObj [("a.png", JNum "1")])] in
  let model_data := JObj [("FileReferences", file_refs)] in
  OldMain.asset_paths file_refs = Some [JStr "a.png"]
  /\ is_asset "a.png" = true
  /\ extract_assets model_data = ∅.
Proof. repeat split; vm_compute; reflexivity. Qed.
